(** * deriv-fast-backend: the Deriv client (derivClient.js) and its shared state

    A shallow embedding of [DerivClient] together with the global [state]
    object of state.js.  The client is event driven: every WebSocket event,
    timer callback and HTTP call runs to completion on one thread, and the
    [async] functions are suspended at each [await this.send(...)].  The
    embedding makes this explicit:

    - JSON values are the inductive type [JsVal], with the truthiness,
      strict equality and property access that the source relies on;
      numbers are rationals (the client does no arithmetic on them);
    - a promise created by [send] is a number in a promise table that holds
      the continuation awaiting it ([Awaiter]); settling a promise removes it
      from the table, so a second settle finds nothing to run;
    - [Math.random] is a sequence [random] of draws consumed in order;
    - [setTimeout] puts a timer into a list of armed timers, and a timer
      firing is an event of its own; durations are not modelled, an armed
      timer may fire at any later event;
    - [Date.now()] is the time stamp handed to each event;
    - the replies to the HTTP callers of [placeTrade] and [subscribeTicks]
      and the frames written to the socket are kept in two logs.

    Line numbers refer to derivClient.js. *)

From Stdlib Require Import ZArith QArith Qround List String Bool Lia.
Import ListNotations.
Local Open Scope string_scope.
Local Open Scope list_scope.
Local Open Scope Z_scope.

(** ** JavaScript values *)

(** A parsed JSON value, or [undefined]; [JObj] lists the properties of an
    object, each name once. *)
#[warnings="-register-all"]
Inductive JsVal : Type :=
| JUndefined
| JNull
| JBool (b : bool)
| JNum (q : Q)
| JStr (s : string)
| JObj (fields : list (string * JsVal))
| JArr (items : list JsVal).

(** [Boolean(v)], the test behind [if (v)], [!v], [a || b] and [a && b]. *)
Definition truthy (v : JsVal) : bool :=
  match v with
  | JUndefined | JNull => false
  | JBool b => b
  | JNum q => negb (Qeq_bool q 0)
  | JStr s => negb (String.eqb s "")
  | JObj _ | JArr _ => true
  end.

(** [a === b]; two parsed objects or arrays are never the same reference. *)
Definition strict_eq (a b : JsVal) : bool :=
  match a, b with
  | JUndefined, JUndefined => true
  | JNull, JNull => true
  | JBool x, JBool y => Bool.eqb x y
  | JNum x, JNum y => Qeq_bool x y
  | JStr x, JStr y => String.eqb x y
  | _, _ => false
  end.

Fixpoint assoc (k : string) (l : list (string * JsVal)) : JsVal :=
  match l with
  | [] => JUndefined
  | (k', v) :: r => if String.eqb k k' then v else assoc k r
  end.

(** [v?.k]: the own property [k] of an object, [undefined] otherwise.  None
    of the property names the client reads exists on a primitive or on an
    array, so [v.k] agrees with this for every [v] that is not null or
    undefined, where [v.k] throws a TypeError (see [nullish]). *)
Definition prop (k : string) (v : JsVal) : JsVal :=
  match v with
  | JObj f => assoc k f
  | _ => JUndefined
  end.

Definition nullish (v : JsVal) : bool :=
  match v with
  | JUndefined | JNull => true
  | _ => false
  end.

(** [a || b] *)
Definition js_or (a b : JsVal) : JsVal := if truthy a then a else b.

(** [Number(v)] and [String(v)] are kept symbolic in outbound requests. *)
Inductive Conv : Type :=
| ToNumber (v : JsVal)
| ToString (v : JsVal).

(** The message of a thrown [Error]. *)
Inductive ErrMsg : Type :=
| ErrText (s : string)
| ErrRemote (code message : JsVal) (* the template `${code}: ${message}` *)
| ErrTypeError (s : string).

(** ** state.js and the fields of [DerivClient] *)

(** The fields of a trade request as [placeTrade] receives them. *)
Record Order : Type := {
  o_symbol : JsVal;
  contract_type : JsVal;
  duration : JsVal;
  duration_unit : JsVal;
  stake : JsVal;
  currency : JsVal;
  basis : JsVal;
  barrier : JsVal;
  prediction : JsVal
}.

(** [{ requestId, ...tradePayload }] *)
Record Payload : Type := {
  requestId : Z;
  order : Order
}.

Record ActiveTrade : Type := {
  a_requestId : Z;
  contractId : JsVal;
  startedAt : Z;
  a_payload : Payload
}.

(** The three shapes written to [state.trade.lastResult]; a field that a
    shape does not have is [JUndefined], and [error] is only present in the
    result of the [.catch] handler of [_finishTrade]. *)
Record TradeResult : Type := {
  contract_id : JsVal;
  status : JsVal;
  is_sold : JsVal;
  profit : JsVal;
  payout : JsVal;
  buy_price : JsVal;
  sell_price : JsVal;
  exit_tick : JsVal;
  exit_tick_time : JsVal;
  transaction_ids : JsVal;
  error : option ErrMsg;
  endedAt : Z
}.

Record Trade : Type := {
  inProgress : bool;
  queue : list Payload;
  lastResult : option TradeResult;
  active : option ActiveTrade
}.

Record Ticks : Type := {
  symbol : JsVal;
  last : JsVal;
  buffer : list JsVal
}.

Record Defaults : Type := {
  d_symbol : string;
  d_currency : string;
  d_basis : string
}.

Record State : Type := {
  connected : bool;
  authorized : bool;
  lastError : option ErrMsg;
  defaults : Defaults;
  ticks : Ticks;
  trade : Trade
}.

Inductive ReadyState : Type := CONNECTING | OPEN | CLOSING | CLOSED.

(** An entry of [this.pending]: [resolve] and [reject] are those of the
    promise [pe_promise]. *)
Record PendingEntry : Type := {
  pe_promise : nat;
  pe_ts : Z;
  pe_type : string
}.

(** [this.pending] is a [Map]: insertion ordered, one entry per key. *)
Definition PendingMap : Type := list (Z * PendingEntry).

Record Client : Type := {
  ws : option ReadyState;
  pingTimer : bool;
  reconnectAttempt : Z;
  pending : PendingMap
}.

(** The constructor options; integral numbers of milliseconds and ticks. *)
Record Opts : Type := {
  token : string;
  pingIntervalMs : Z;
  reconnectBaseDelayMs : Z;
  reconnectMaxDelayMs : Z;
  tradeResultTimeoutMs : Z;
  maxTicksBuffer : Z;
  logTicks : bool
}.

(** ** Requests, continuations, timers *)

Record ProposalReq : Type := {
  pr_amount : Conv;
  pr_basis : JsVal;
  pr_contract_type : JsVal;
  pr_currency : JsVal;
  pr_duration : Conv;
  pr_duration_unit : JsVal;
  pr_symbol : JsVal;
  pr_barrier : option Conv;
  pr_prediction : option Conv
}.

Inductive Request : Type :=
| ReqAuthorize (tok : string)
| ReqTicks (sym : JsVal)
| ReqProposal (p : ProposalReq)
| ReqBuy (proposal_id : JsVal) (price : Conv)
| ReqOpenContract (cid : JsVal).

(** What [ws.send] wrote: [{ ...payload, req_id }] or the heartbeat. *)
Inductive Frame : Type :=
| Tagged (r : Request) (req_id : Z)
| Ping.

(** Who awaits the promise of [_startTrade]: [placeTrade] (line 213), which
    hands the outcome to its HTTP caller, or the [.catch] of [_finishTrade]
    (line 292). *)
Inductive StartCaller : Type := ByPlaceTrade | ByFinishTrade.

(** Who awaits [subscribeTicks]: the open handler (line 63, inside its
    try/catch) or the /subscribe route. *)
Inductive TicksCaller : Type := ByOpen | ByHttp.

(** The code suspended at an [await this.send(...)], with the local
    variables it still needs. *)
Inductive Awaiter : Type :=
| AwaitAuthorize                                            (* line 59 *)
| AwaitTicks (sym : JsVal) (c : TicksCaller)                (* line 199 *)
| AwaitProposal (p : Payload) (c : StartCaller)             (* line 249 *)
| AwaitBuy (p : Payload) (c : StartCaller)                  (* line 254 *)
| AwaitOpenContract (p : Payload) (cid : JsVal) (c : StartCaller). (* line 261 *)

Inductive Timer : Type :=
| TRequest (req_id : Z) (promise : nat) (type : string)     (* line 184, 15000 ms *)
| TTrade (cid : JsVal)                                      (* line 264 *)
| TSleep (delay : Z).                                       (* line 167 *)

(** What the HTTP callers of [placeTrade] and [subscribeTicks] get back. *)
Inductive Reply : Type :=
| TradeReply (queued : bool) (request_id : Z) (queue_position : option Z)
| TradeError (request_id : Z) (e : ErrMsg)
| SubscribeReply (sym : JsVal)
| SubscribeError (e : ErrMsg).

(** The JavaScript runtime and the outside world. *)
Record Runtime : Type := {
  promises : list (nat * Awaiter);  (* unsettled promises of [send] *)
  nextPromise : nat;
  timers : list Timer;
  sent : list Frame;                (* frames written to the socket, oldest first *)
  replies : list Reply;             (* HTTP outcomes, oldest first *)
  draws : nat                       (* calls of [Math.random] so far *)
}.

Record Sys : Type := {
  st : State;
  cl : Client;
  rt : Runtime
}.

(** ** Field updates *)

Definition upd_st (f : State -> State) (s : Sys) : Sys :=
  {| st := f (st s); cl := cl s; rt := rt s |}.
Definition upd_cl (f : Client -> Client) (s : Sys) : Sys :=
  {| st := st s; cl := f (cl s); rt := rt s |}.
Definition upd_rt (f : Runtime -> Runtime) (s : Sys) : Sys :=
  {| st := st s; cl := cl s; rt := f (rt s) |}.

Definition set_connected (b : bool) : Sys -> Sys :=
  upd_st (fun x => {| connected := b; authorized := authorized x;
    lastError := lastError x; defaults := defaults x; ticks := ticks x;
    trade := trade x |}).
Definition set_authorized (b : bool) : Sys -> Sys :=
  upd_st (fun x => {| connected := connected x; authorized := b;
    lastError := lastError x; defaults := defaults x; ticks := ticks x;
    trade := trade x |}).
Definition set_lastError (e : option ErrMsg) : Sys -> Sys :=
  upd_st (fun x => {| connected := connected x; authorized := authorized x;
    lastError := e; defaults := defaults x; ticks := ticks x;
    trade := trade x |}).
Definition set_defaults (d : Defaults) : Sys -> Sys :=
  upd_st (fun x => {| connected := connected x; authorized := authorized x;
    lastError := lastError x; defaults := d; ticks := ticks x;
    trade := trade x |}).
Definition set_ticks (t : Ticks) : Sys -> Sys :=
  upd_st (fun x => {| connected := connected x; authorized := authorized x;
    lastError := lastError x; defaults := defaults x; ticks := t;
    trade := trade x |}).
Definition set_trade (t : Trade) : Sys -> Sys :=
  upd_st (fun x => {| connected := connected x; authorized := authorized x;
    lastError := lastError x; defaults := defaults x; ticks := ticks x;
    trade := t |}).

Definition set_ws (w : option ReadyState) : Sys -> Sys :=
  upd_cl (fun c => {| ws := w; pingTimer := pingTimer c;
    reconnectAttempt := reconnectAttempt c; pending := pending c |}).
Definition set_pingTimer (b : bool) : Sys -> Sys :=
  upd_cl (fun c => {| ws := ws c; pingTimer := b;
    reconnectAttempt := reconnectAttempt c; pending := pending c |}).
Definition set_reconnectAttempt (n : Z) : Sys -> Sys :=
  upd_cl (fun c => {| ws := ws c; pingTimer := pingTimer c;
    reconnectAttempt := n; pending := pending c |}).
Definition set_pending (m : PendingMap) : Sys -> Sys :=
  upd_cl (fun c => {| ws := ws c; pingTimer := pingTimer c;
    reconnectAttempt := reconnectAttempt c; pending := m |}).

Definition set_promises (l : list (nat * Awaiter)) : Sys -> Sys :=
  upd_rt (fun r => {| promises := l; nextPromise := nextPromise r;
    timers := timers r; sent := sent r; replies := replies r;
    draws := draws r |}).
Definition set_nextPromise (n : nat) : Sys -> Sys :=
  upd_rt (fun r => {| promises := promises r; nextPromise := n;
    timers := timers r; sent := sent r; replies := replies r;
    draws := draws r |}).
Definition set_timers (l : list Timer) : Sys -> Sys :=
  upd_rt (fun r => {| promises := promises r; nextPromise := nextPromise r;
    timers := l; sent := sent r; replies := replies r; draws := draws r |}).
Definition set_sent (l : list Frame) : Sys -> Sys :=
  upd_rt (fun r => {| promises := promises r; nextPromise := nextPromise r;
    timers := timers r; sent := l; replies := replies r; draws := draws r |}).
Definition set_replies (l : list Reply) : Sys -> Sys :=
  upd_rt (fun r => {| promises := promises r; nextPromise := nextPromise r;
    timers := timers r; sent := sent r; replies := l; draws := draws r |}).
Definition set_draws (n : nat) : Sys -> Sys :=
  upd_rt (fun r => {| promises := promises r; nextPromise := nextPromise r;
    timers := timers r; sent := sent r; replies := replies r; draws := n |}).

Definition arm (t : Timer) (s : Sys) : Sys := set_timers (timers (rt s) ++ [t]) s.
Definition ws_send (f : Frame) (s : Sys) : Sys := set_sent (sent (rt s) ++ [f]) s.
Definition reply (r : Reply) (s : Sys) : Sys := set_replies (replies (rt s) ++ [r]) s.

(** ** [Map] operations on [this.pending] *)

Fixpoint map_has (k : Z) (m : PendingMap) : bool :=
  match m with
  | [] => false
  | (k', _) :: r => if k =? k' then true else map_has k r
  end.

Fixpoint map_get (k : Z) (m : PendingMap) : option PendingEntry :=
  match m with
  | [] => None
  | (k', v) :: r => if k =? k' then Some v else map_get k r
  end.

(** [set] keeps the position of a key that is already present. *)
Fixpoint map_set (k : Z) (v : PendingEntry) (m : PendingMap) : PendingMap :=
  match m with
  | [] => [(k, v)]
  | (k', v') :: r => if k =? k' then (k, v) :: r else (k', v') :: map_set k v r
  end.

Definition map_delete (k : Z) (m : PendingMap) : PendingMap :=
  filter (fun e => negb (k =? fst e)) m.

(** The key that a value used as a key of [this.pending] can match: the keys
    are the integers of [_nextReqId]. *)
Definition as_key (v : JsVal) : option Z :=
  match v with
  | JNum q => if Qeq_bool q (inject_Z (Qfloor q)) then Some (Qfloor q) else None
  | _ => None
  end.

(** ** The promise table *)

Fixpoint take_promise (n : nat) (l : list (nat * Awaiter))
  : option (Awaiter * list (nat * Awaiter)) :=
  match l with
  | [] => None
  | (m, a) :: r =>
      if Nat.eqb n m then Some (a, r)
      else match take_promise n r with
           | Some (a', r') => Some (a', (m, a) :: r')
           | None => None
           end
  end.

(** Settling promise [n]: its awaiter, if it has not been settled before. *)
Definition settle (n : nat) (s : Sys) : option Awaiter * Sys :=
  match take_promise n (promises (rt s)) with
  | Some (a, r) => (Some a, set_promises r s)
  | None => (None, s)
  end.

(** The payload of an inbound frame, by what [JSON.parse] makes of its
    text: a text that is not JSON, or the text of the value [v]. *)
Inductive RawData : Type :=
| NotJson (text : string)
| Json (v : JsVal).

(** [JSON.parse(buf.toString())]; [None] where it throws. *)
Definition JSON_parse (buf : RawData) : option JsVal :=
  match buf with
  | NotJson _ => None
  | Json v => Some v
  end.

(** ** The client *)

Section Client.

(** The options given to the constructor, and the draws of [Math.random] in
    the order they are made. *)
Variable opts : Opts.
Variable random : nat -> Q.

(** [Math.floor(Math.random() * 1e9)] *)
Definition _nextReqId (s : Sys) : Z * Sys :=
  (Qfloor (random (draws (rt s)) * (1000000000 # 1))%Q,
   set_draws (S (draws (rt s))) s).

Definition ws_is_open (s : Sys) : bool :=
  match ws (cl s) with
  | Some OPEN => true
  | _ => false
  end.

(** [send] up to its [return p]: [Some e] when it throws [e], otherwise the
    promise is in the table with [k] awaiting it, the entry is in
    [this.pending], the safety timeout is armed and the frame is written. *)
Definition send (now : Z) (payload : Request) (type : string) (k : Awaiter)
  (s : Sys) : Sys * option ErrMsg :=
  if ws_is_open s then
    let (req_id, s1) := _nextReqId s in
    let p := nextPromise (rt s1) in
    let s2 := set_nextPromise (S p) (set_promises ((p, k) :: promises (rt s1)) s1) in
    let s3 := set_pending
                (map_set req_id {| pe_promise := p; pe_ts := now; pe_type := type |}
                   (pending (cl s2))) s2 in
    let s4 := arm (TRequest req_id p type) s3 in
    (ws_send (Tagged payload req_id) s4, None)
  else (s, Some (ErrText "WebSocket not open")).

(** The callback of the safety timeout of [send] (lines 184-189). *)
Definition timeoutError (type : string) : ErrMsg :=
  ErrText (String.append "Timeout waiting for " type).

(** *** Trades *)

Definition set_slot (b : bool) (a : option ActiveTrade) (s : Sys) : Sys :=
  set_trade {| inProgress := b; queue := queue (trade (st s));
               lastResult := lastResult (trade (st s)); active := a |} s.
Definition set_queue (q : list Payload) (s : Sys) : Sys :=
  set_trade {| inProgress := inProgress (trade (st s)); queue := q;
               lastResult := lastResult (trade (st s));
               active := active (trade (st s)) |} s.
Definition set_lastResult (r : TradeResult) (s : Sys) : Sys :=
  set_trade {| inProgress := inProgress (trade (st s));
               queue := queue (trade (st s)); lastResult := Some r;
               active := active (trade (st s)) |} s.

(** [proposalReq] of [_startTrade] (lines 235-247). *)
Definition proposalReq (o : Order) (s : Sys) : ProposalReq :=
  {| pr_amount := ToNumber (stake o);
     pr_basis := js_or (js_or (basis o) (JStr (d_basis (defaults (st s))))) (JStr "stake");
     pr_contract_type := contract_type o;
     pr_currency := js_or (currency o) (JStr (d_currency (defaults (st s))));
     pr_duration := ToNumber (duration o);
     pr_duration_unit := js_or (duration_unit o) (JStr "t");
     pr_symbol := js_or (o_symbol o) (JStr (d_symbol (defaults (st s))));
     pr_barrier := if nullish (barrier o) then None else Some (ToString (barrier o));
     pr_prediction := if nullish (prediction o) then None
                      else Some (ToNumber (prediction o)) |}.

(** [_startTrade] up to its first [await] (lines 217-249): [Some e] when the
    promise it returns is already rejected with [e]. *)
Definition _startTrade (now : Z) (payload : Payload) (c : StartCaller)
  (s : Sys) : Sys * option ErrMsg :=
  if negb (authorized (st s)) then (s, Some (ErrText "Not authorized yet"))
  else
    let s1 := set_slot true
                (Some {| a_requestId := requestId payload; contractId := JNull;
                         startedAt := now; a_payload := payload |}) s in
    send now (ReqProposal (proposalReq (order payload) s1)) "proposal"
      (AwaitProposal payload c) s1.

(** The result written by the [.catch] handler of [_finishTrade]. *)
Definition errorResult (e : ErrMsg) (now : Z) : TradeResult :=
  {| contract_id := JNull; status := JStr "error"; is_sold := JUndefined;
     profit := JUndefined; payout := JUndefined; buy_price := JUndefined;
     sell_price := JUndefined; exit_tick := JUndefined;
     exit_tick_time := JUndefined; transaction_ids := JUndefined;
     error := Some e; endedAt := now |}.

(** The [.catch] handler of [_finishTrade] (lines 292-298). *)
Definition nextTradeFailed (now : Z) (e : ErrMsg) (s : Sys) : Sys :=
  set_slot false None (set_lastResult (errorResult e now) s).

(** Where an [async] function stands after it ran up to its next [await]. *)
Inductive Progress : Type :=
| Suspended
| Returned
| Threw (e : ErrMsg).

Definition progress_of (r : Sys * option ErrMsg) : Sys * Progress :=
  match snd r with
  | Some e => (fst r, Threw e)
  | None => (fst r, Suspended)
  end.

(** The promise of [_startTrade] settles: [placeTrade] returns or rejects to
    its HTTP caller, the [.catch] of [_finishTrade] runs on a rejection. *)
Definition startSettled (now : Z) (payload : Payload) (c : StartCaller)
  (p : Progress) (s : Sys) : Sys :=
  match p, c with
  | Suspended, _ => s
  | Returned, ByPlaceTrade => reply (TradeReply false (requestId payload) None) s
  | Returned, ByFinishTrade => s
  | Threw e, ByPlaceTrade => reply (TradeError (requestId payload) e) s
  | Threw e, ByFinishTrade => nextTradeFailed now e s
  end.

(** [_startTrade] from the proposal response to the next [await]
    (lines 249-254); [r] is the outcome of the awaited promise. *)
Definition afterProposal (now : Z) (payload : Payload) (c : StartCaller)
  (r : ErrMsg + JsVal) (s : Sys) : Sys * Progress :=
  match r with
  | inl e => (s, Threw e)
  | inr proposalRes =>
      let proposal_id := prop "id" (prop "proposal" proposalRes) in
      if negb (truthy proposal_id) then (s, Threw (ErrText "No proposal id returned"))
      else progress_of
             (send now (ReqBuy proposal_id (ToNumber (stake (order payload))))
                "buy" (AwaitBuy payload c) s)
  end.

(** Lines 254-261.  [state.trade.active.contractId = contractId] throws a
    TypeError when [state.trade.active] is null. *)
Definition afterBuy (now : Z) (payload : Payload) (c : StartCaller)
  (r : ErrMsg + JsVal) (s : Sys) : Sys * Progress :=
  match r with
  | inl e => (s, Threw e)
  | inr buyRes =>
      let cid := prop "contract_id" (prop "buy" buyRes) in
      if negb (truthy cid) then (s, Threw (ErrText "No contract_id returned"))
      else
        match active (trade (st s)) with
        | None => (s, Threw (ErrTypeError "Cannot set properties of null (setting 'contractId')"))
        | Some a =>
            let s1 := set_slot (inProgress (trade (st s)))
                        (Some {| a_requestId := a_requestId a; contractId := cid;
                                 startedAt := startedAt a;
                                 a_payload := a_payload a |}) s in
            progress_of
              (send now (ReqOpenContract cid) "proposal_open_contract"
                 (AwaitOpenContract payload cid c) s1)
        end
  end.

(** Lines 261-282: the timeout of the trade is armed once the subscription
    to the contract is acknowledged. *)
Definition afterOpenContract (cid : JsVal) (r : ErrMsg + JsVal) (s : Sys)
  : Sys * Progress :=
  match r with
  | inl e => (s, Threw e)
  | inr _ => (arm (TTrade cid) s, Returned)
  end.

(** [subscribeTicks] up to its [await] (lines 195-199). *)
Definition subscribeTicks (now : Z) (sym : JsVal) (c : TicksCaller) (s : Sys)
  : Sys * option ErrMsg :=
  let s1 := set_ticks {| symbol := sym; last := last (ticks (st s)); buffer := [] |} s in
  send now (ReqTicks sym) "ticks_subscribe" (AwaitTicks sym c) s1.

(** [subscribeTicks] settles for its caller: the catch of the open handler
    (lines 64-67) or the /subscribe route. *)
Definition ticksSettled (sym : JsVal) (c : TicksCaller) (r : option ErrMsg)
  (s : Sys) : Sys :=
  match c, r with
  | ByOpen, None => s
  | ByOpen, Some e => set_lastError (Some e) s
  | ByHttp, None => reply (SubscribeReply sym) s
  | ByHttp, Some e => reply (SubscribeError e) s
  end.

(** The open handler from the authorize response on (lines 59-67). *)
Definition afterAuthorize (now : Z) (r : ErrMsg + JsVal) (s : Sys) : Sys :=
  match r with
  | inl e => set_lastError (Some e) s
  | inr _ =>
      let s1 := set_authorized true s in
      let sym := JStr (d_symbol (defaults (st s1))) in
      match subscribeTicks now sym ByOpen s1 with
      | (s2, Some e) => ticksSettled sym ByOpen (Some e) s2
      | (s2, None) => s2
      end
  end.

(** The continuation [k] runs with the outcome [r] of the promise it
    awaited. *)
Definition resume (now : Z) (k : Awaiter) (r : ErrMsg + JsVal) (s : Sys) : Sys :=
  match k with
  | AwaitAuthorize => afterAuthorize now r s
  | AwaitTicks sym c =>
      ticksSettled sym c (match r with inl e => Some e | inr _ => None end) s
  | AwaitProposal p c =>
      let (s1, g) := afterProposal now p c r s in startSettled now p c g s1
  | AwaitBuy p c =>
      let (s1, g) := afterBuy now p c r s in startSettled now p c g s1
  | AwaitOpenContract p cid c =>
      let (s1, g) := afterOpenContract cid r s in startSettled now p c g s1
  end.

(** [_finishTrade] (lines 284-302).  The second component is the error the
    [.catch] handler has been queued with, when [_startTrade(next)] returned
    a promise that is already rejected. *)
Definition _finishTrade (now : Z) (s : Sys) : Sys * option ErrMsg :=
  let s1 := set_slot false None s in
  match queue (trade (st s1)) with
  | [] => (s1, None)
  | next :: rest => _startTrade now next ByFinishTrade (set_queue rest s1)
  end.

(** The microtask of the [.catch] handler. *)
Definition runCatch (now : Z) (caught : option ErrMsg) (s : Sys) : Sys :=
  match caught with
  | Some e => nextTradeFailed now e s
  | None => s
  end.

Definition timeoutResult (cid : JsVal) (now : Z) : TradeResult :=
  {| contract_id := cid; status := JStr "timeout"; is_sold := JBool false;
     profit := JNull; payout := JNull; buy_price := JNull; sell_price := JNull;
     exit_tick := JUndefined; exit_tick_time := JUndefined;
     transaction_ids := JUndefined; error := None; endedAt := now |}.

(** The guard of the timeout callback of [_startTrade] (line 266). *)
Definition timeoutGuard (cid : JsVal) (s : Sys) : bool :=
  match active (trade (st s)) with
  | Some a => strict_eq (contractId a) cid && inProgress (trade (st s))
  | None => false
  end.

(** The timeout callback of [_startTrade] (lines 264-279), followed by the
    [.catch] microtask it may have queued. *)
Definition tradeTimeout (now : Z) (cid : JsVal) (s : Sys) : Sys :=
  if timeoutGuard cid s then
    let (s1, caught) := _finishTrade now (set_lastResult (timeoutResult cid now) s) in
    runCatch now caught s1
  else s.

(** [placeTrade] up to its [await] (lines 203-215). *)
Inductive Completion : Type :=
| Resolved (r : Reply)
| Rejected (e : ErrMsg)
| Pending.

Definition placeTrade (now : Z) (tradePayload : Order) (s : Sys)
  : Sys * Completion :=
  let (rid, s1) := _nextReqId s in
  let payload := {| requestId := rid; order := tradePayload |} in
  if inProgress (trade (st s1)) then
    let s2 := set_queue (queue (trade (st s1)) ++ [payload]) s1 in
    (s2, Resolved (TradeReply true rid
                     (Some (Z.of_nat (List.length (queue (trade (st s2))))))))
  else
    match _startTrade now payload ByPlaceTrade s1 with
    | (s2, Some e) => (s2, Rejected e)
    | (s2, None) => (s2, Pending)
    end.

(** *** The message handler (lines 70-134) *)

(** A handler that completes, or an exception that leaves it uncaught,
    with the state at that point. *)
Inductive Outcome : Type :=
| Done (s : Sys)
| Uncaught (e : ErrMsg) (s : Sys).

(** [this.pending.has(v)] for a value [v] *)
Definition pending_has (v : JsVal) (s : Sys) : bool :=
  match as_key v with
  | Some k => map_has k (pending (cl s))
  | None => false
  end.

Definition remoteError (msg : JsVal) : ErrMsg :=
  ErrRemote (prop "code" (prop "error" msg)) (prop "message" (prop "error" msg)).

(** Lines 79-84: the entry is removed and its promise settled; the code
    that awaits the promise runs later, as a microtask, with the outcome
    returned here. *)
Definition resolvePending (msg : JsVal) (s : Sys)
  : Sys * option (Awaiter * (ErrMsg + JsVal)) :=
  let req_id := prop "req_id" msg in
  if truthy req_id && pending_has req_id s then
    match as_key req_id with
    | Some k =>
        match map_get k (pending (cl s)) with
        | Some p =>
            let s1 := set_pending (map_delete k (pending (cl s))) s in
            let r := if truthy (prop "error" msg) then inl (remoteError msg)
                     else inr msg in
            match settle (pe_promise p) s1 with
            | (Some k', s2) => (s2, Some (k', r))
            | (None, s2) => (s2, None)
            end
        | None => (s, None)
        end
    | None => (s, None)
    end
  else (s, None).

(** [buffer.splice(0, n)] *)
Definition splice_front (n : Z) (l : list JsVal) : list JsVal :=
  skipn (Z.to_nat n) l.

(** Lines 87-95.  With [logTicks] set, [msg.tick.quote] throws when the
    message has no tick object. *)
Definition onTick (msg : JsVal) (s : Sys) : Outcome :=
  if strict_eq (prop "msg_type" msg) (JStr "tick") then
    let tick := prop "tick" msg in
    let sym := js_or (prop "symbol" tick) (symbol (ticks (st s))) in
    let pushed := buffer (ticks (st s)) ++ [tick] in
    let len := Z.of_nat (List.length pushed) in
    let kept := if len >? maxTicksBuffer opts
                then splice_front (len - maxTicksBuffer opts) pushed
                else pushed in
    let s1 := set_ticks {| symbol := sym; last := tick; buffer := kept |} s in
    if logTicks opts && nullish tick
    then Uncaught (ErrTypeError "Cannot read properties of undefined (reading 'quote')") s1
    else Done s1
  else Done s.

(** Lines 97-102. *)
Definition onBuy (msg : JsVal) (s : Sys) : Sys :=
  if strict_eq (prop "msg_type" msg) (JStr "buy") then
    match active (trade (st s)) with
    | Some a =>
        let cid := prop "contract_id" (prop "buy" msg) in
        if truthy cid then
          set_slot (inProgress (trade (st s)))
            (Some {| a_requestId := a_requestId a; contractId := cid;
                     startedAt := startedAt a; a_payload := a_payload a |}) s
        else s
    | None => s
    end
  else s.

(** The test of line 109, negated: there is an active trade and its
    contract id is the one of the event. *)
Definition settlementGuard (poc : JsVal) (s : Sys) : bool :=
  match active (trade (st s)) with
  | Some a => strict_eq (contractId a) (prop "contract_id" poc)
  | None => false
  end.

Definition isFinal (poc : JsVal) : bool :=
  truthy (prop "is_sold" poc)
  || strict_eq (prop "status" poc) (JStr "won")
  || strict_eq (prop "status" poc) (JStr "lost").

Definition settlementResult (poc : JsVal) (now : Z) : TradeResult :=
  {| contract_id := prop "contract_id" poc; status := prop "status" poc;
     is_sold := prop "is_sold" poc; profit := prop "profit" poc;
     payout := prop "payout" poc; buy_price := prop "buy_price" poc;
     sell_price := prop "sell_price" poc; exit_tick := prop "exit_tick" poc;
     exit_tick_time := prop "exit_tick_time" poc;
     transaction_ids := js_or (prop "transaction_ids" poc) JNull;
     error := None; endedAt := now |}.

(** Lines 106-128 for an event [poc]: the state, the error the [.catch]
    handler has been queued with, and whether the handler returned early. *)
Definition onSettlement (now : Z) (poc : JsVal) (s : Sys)
  : Sys * option ErrMsg * bool :=
  if negb (truthy poc) then (s, None, true)
  else if negb (settlementGuard poc s) then (s, None, true)
  else if isFinal poc
       then (_finishTrade now (set_lastResult (settlementResult poc now) s), false)
       else (s, None, false).

(** Lines 104-129. *)
Definition onOpenContract (now : Z) (msg : JsVal) (s : Sys)
  : Sys * option ErrMsg * bool :=
  if strict_eq (prop "msg_type" msg) (JStr "proposal_open_contract")
  then onSettlement now (prop "proposal_open_contract" msg) s
  else (s, None, false).

(** Lines 131-133. *)
Definition onError (msg : JsVal) (s : Sys) : Sys :=
  if truthy (prop "error" msg) then set_lastError (Some (remoteError msg)) s
  else s.

(** The whole handler, then the microtasks it queued.  The reaction of a
    promise that is rejected already ([.catch] on the promise of a
    [_startTrade] that threw before its first [await]) is queued when
    [.catch] is called and runs first; the code awaiting the [async]
    function [send] resumes two ticks after [resolve] or [reject]. *)
Definition onMessage (now : Z) (buf : RawData) (s : Sys) : Outcome :=
  match JSON_parse buf with
  | None => Done s
  | Some msg =>
      if nullish msg
      then Uncaught (ErrTypeError "Cannot read properties of null (reading 'req_id')") s
      else
        let (s1, settled) := resolvePending msg s in
        match onTick msg s1 with
        | Uncaught e s2 => Uncaught e s2
        | Done s2 =>
            let s3 := onBuy msg s2 in
            let '(s4, caught, returned) := onOpenContract now msg s3 in
            let s5 := if returned then s4 else onError msg s4 in
            let s6 := runCatch now caught s5 in
            match settled with
            | Some (k, r) => Done (resume now k r s6)
            | None => Done s6
            end
        end
  end.

(** *** Connection life cycle *)

(** [connect] (lines 32-41) *)
Definition connect (s : Sys) : Sys :=
  match ws (cl s) with
  | Some OPEN | Some CONNECTING => s
  | _ => set_ws (Some CONNECTING) (set_authorized false (set_connected false s))
  end.

(** The open handler up to its [await] (lines 43-59). *)
Definition onOpen (now : Z) (s : Sys) : Sys :=
  let s1 := set_reconnectAttempt 0 (set_lastError None (set_connected true s)) in
  let s2 := set_pingTimer true s1 in
  match send now (ReqAuthorize (token opts)) "authorize" AwaitAuthorize s2 with
  | (s3, Some e) => set_lastError (Some e) s3
  | (s3, None) => s3
  end.

(** The heartbeat (lines 51-55). *)
Definition ping (s : Sys) : Sys :=
  if pingTimer (cl s) && ws_is_open s then ws_send Ping s else s.

(** The delay computed by [_reconnect] (lines 162-165). *)
Definition reconnectDelay (attempt : Z) : Z :=
  Z.min (reconnectMaxDelayMs opts)
        (reconnectBaseDelayMs opts * 2 ^ Z.min attempt 8).

(** [_reconnect] up to [await sleep(delay)] (lines 160-167). *)
Definition _reconnect (s : Sys) : Sys :=
  let s1 := set_reconnectAttempt (reconnectAttempt (cl s) + 1) s in
  arm (TSleep (reconnectDelay (reconnectAttempt (cl s1)))) s1.

(** Lines 145-147, in the insertion order of the [Map]. *)
Fixpoint rejectAll (m : PendingMap) (s : Sys) : Sys * list Awaiter :=
  match m with
  | [] => (s, [])
  | (_, p) :: r =>
      match settle (pe_promise p) s with
      | (Some k, s1) => let (s2, ks) := rejectAll r s1 in (s2, k :: ks)
      | (None, s1) => rejectAll r s1
      end
  end.

Definition resumeAll (now : Z) (e : ErrMsg) (ks : list Awaiter) (s : Sys) : Sys :=
  fold_left (fun acc k => resume now k (inl e) acc) ks s.

(** The close handler (lines 136-152) with [_reconnect] up to its sleep,
    then the awaiters of the rejected promises, in the order of the
    rejections.  They all fail with the same error, so what they and their
    handlers write to the state does not depend on how they interleave. *)
Definition onClose (now : Z) (s : Sys) : Sys :=
  let s1 := set_authorized false (set_connected false s) in
  let s2 := set_pingTimer false s1 in
  let (s3, ks) := rejectAll (pending (cl s2)) s2 in
  let s4 := set_pending [] s3 in
  let s5 := _reconnect s4 in
  resumeAll now (ErrText "WebSocket closed") ks s5.

(** The error handler (lines 154-157). *)
Definition onSocketError (e : ErrMsg) (s : Sys) : Sys := set_lastError (Some e) s.

(** *** Timers *)

(** The safety timeout of [send] (lines 184-189) for the request that was
    stored under [req_id] with promise [p]. *)
Definition requestTimeout (now : Z) (req_id : Z) (p : nat) (type : string)
  (s : Sys) : Sys :=
  if map_has req_id (pending (cl s)) then
    let s1 := set_pending (map_delete req_id (pending (cl s))) s in
    match settle p s1 with
    | (Some k, s2) => resume now k (inl (timeoutError type)) s2
    | (None, s2) => s2
    end
  else s.

Definition fire (now : Z) (t : Timer) (s : Sys) : Sys :=
  match t with
  | TRequest req_id p type => requestTimeout now req_id p type s
  | TTrade cid => tradeTimeout now cid s
  | TSleep _ => connect s
  end.

Fixpoint remove_nth {A : Type} (i : nat) (l : list A) : list A :=
  match i, l with
  | _, [] => []
  | O, _ :: r => r
  | S j, x :: r => x :: remove_nth j r
  end.

(** *** Events *)

Inductive Event : Type :=
| EvConnect                       (* [client.connect()] of server.js *)
| EvOpen
| EvMessage (buf : RawData)
| EvClose
| EvError (e : ErrMsg)
| EvTimer (i : nat)               (* the [i]-th armed timer fires *)
| EvPing
| EvTrade (o : Order)             (* POST /trade with a valid body *)
| EvSubscribe (sym : string)      (* POST /subscribe *)
| EvSetDefaults (sym cur bas : string). (* POST /set-defaults; "" for no value *)

Definition or_default (new old : string) : string :=
  if String.eqb new "" then old else new.

(** One event, handled to completion at time [now].  The socket enters
    [OPEN] and [CLOSED] before the handlers of those events run. *)
Definition step (now : Z) (e : Event) (s : Sys) : Outcome :=
  match e with
  | EvConnect => Done (connect s)
  | EvOpen => Done (onOpen now (set_ws (Some OPEN) s))
  | EvMessage buf => onMessage now buf s
  | EvClose => Done (onClose now (set_ws (Some CLOSED) s))
  | EvError e => Done (onSocketError e s)
  | EvTimer i =>
      match nth_error (timers (rt s)) i with
      | Some t => Done (fire now t (set_timers (remove_nth i (timers (rt s))) s))
      | None => Done s
      end
  | EvPing => Done (ping s)
  | EvTrade o =>
      match placeTrade now o s with
      | (s1, Resolved r) => Done (reply r s1)
      | (s1, Rejected e) => Done (reply (TradeError (fst (_nextReqId s)) e) s1)
      | (s1, Pending) => Done s1
      end
  | EvSubscribe sym =>
      if String.eqb sym ""
      then Done (reply (SubscribeError (ErrText "symbol is required")) s)
      else
        match subscribeTicks now (JStr sym) ByHttp s with
        | (s1, Some e) => Done (ticksSettled (JStr sym) ByHttp (Some e) s1)
        | (s1, None) => Done s1
        end
  | EvSetDefaults sym cur bas =>
      Done (set_defaults
              {| d_symbol := or_default sym (d_symbol (defaults (st s)));
                 d_currency := or_default cur (d_currency (defaults (st s)));
                 d_basis := or_default bas (d_basis (defaults (st s))) |} s)
  end.

(** A sequence of timed events; it stops at an uncaught exception. *)
Fixpoint run (tr : list (Z * Event)) (s : Sys) : Outcome :=
  match tr with
  | [] => Done s
  | (now, e) :: tr' =>
      match step now e s with
      | Done s1 => run tr' s1
      | Uncaught x s1 => Uncaught x s1
      end
  end.

End Client.

(** state.js, and the client as its constructor leaves it. *)
Definition initial (sym cur : string) : Sys :=
  {| st := {| connected := false; authorized := false; lastError := None;
              defaults := {| d_symbol := sym; d_currency := cur; d_basis := "stake" |};
              ticks := {| symbol := JNull; last := JNull; buffer := [] |};
              trade := {| inProgress := false; queue := []; lastResult := None;
                          active := None |} |};
     cl := {| ws := None; pingTimer := false; reconnectAttempt := 0; pending := [] |};
     rt := {| promises := []; nextPromise := 0; timers := []; sent := [];
              replies := []; draws := 0 |} |}.

(** * Vocabulary of the properties *)

(** The state an event leaves behind. *)
Definition outcome_state (o : Outcome) : Sys :=
  match o with
  | Done s => s
  | Uncaught _ s => s
  end.

(** ** Ticks *)

(** The last [n] elements of a list, in order. *)
Definition lastn {A : Type} (n : nat) (l : list A) : list A :=
  skipn (List.length l - n) l.

(** The tick handler over a sequence of messages. *)
Fixpoint onTicks (opts : Opts) (msgs : list JsVal) (s : Sys) : Outcome :=
  match msgs with
  | [] => Done s
  | m :: r =>
      match onTick opts m s with
      | Done s1 => onTicks opts r s1
      | Uncaught e s1 => Uncaught e s1
      end
  end.

(** The buffer is within the capacity. *)
Definition bufferBounded (opts : Opts) (s : Sys) : Prop :=
  (List.length (buffer (ticks (st s))) <= Z.to_nat (maxTicksBuffer opts))%nat.

(** A tick message: [msg_type] is "tick" and it carries a tick object. *)
Definition isTick (msg : JsVal) : Prop :=
  strict_eq (prop "msg_type" msg) (JStr "tick") = true
  /\ nullish (prop "tick" msg) = false.

(** ** Reconnection *)

(** The delay of the sleep that [_reconnect] has just started: the timer
    armed last. *)
Definition lastSleep (s : Sys) : option Z :=
  match rev (timers (rt s)) with
  | TSleep d :: _ => Some d
  | _ => None
  end.

(** A failure of the connection: the socket closes and the close handler
    runs; when the sleep of [_reconnect] is over, [connect] is called again.
    The result is the state after that and the delay that was slept. *)
Definition failure (opts : Opts) (random : nat -> Q) (now : Z) (s : Sys)
  : Sys * option Z :=
  let s1 := outcome_state (step opts random now EvClose s) in
  (outcome_state
     (step opts random now (EvTimer (List.length (timers (rt s1)) - 1)) s1),
   lastSleep s1).

(** [k] failures in a row, with the delays slept, oldest first. *)
Fixpoint failures (opts : Opts) (random : nat -> Q) (now : Z) (k : nat) (s : Sys)
  : Sys * list (option Z) :=
  match k with
  | O => (s, [])
  | S k' =>
      let (s1, ds) := failures opts random now k' s in
      let (s2, d) := failure opts random now s1 in
      (s2, ds ++ [d])
  end.

(** ** Concrete configuration and inputs *)

(** The defaults of server.js. *)
Definition opts0 : Opts :=
  {| token := "token"; pingIntervalMs := 10000; reconnectBaseDelayMs := 500;
     reconnectMaxDelayMs := 10000; tradeResultTimeoutMs := 30000;
     maxTicksBuffer := 2000; logTicks := false |}.

(** Draws of [Math.random] for which [_nextReqId] returns 1, 2, 3, ... *)
Definition counting (n : nat) : Q := Z.of_nat (S n) # 1000000000.

(** Draws for which [_nextReqId] always returns 7. *)
Definition sevens (n : nat) : Q := 7 # 1000000000.

Definition num (z : Z) : JsVal := JNum (inject_Z z).

(** Connected and authorized, nothing in flight. *)
Definition ready : Sys :=
  set_authorized true (set_connected true (set_ws (Some OPEN) (initial "R_50" "USD"))).

(** ** Correlation ids *)

Definition keys (m : PendingMap) : list Z := map fst m.

(** The specification of the allocator: the id of the next request is not
    a key of [this.pending]. *)
Definition allocatesFreshId (random : nat -> Q) (s : Sys) : Prop :=
  ~ In (fst (_nextReqId random s)) (keys (pending (cl s))).

(** ** Admission *)

(** The specification of [submit]: the call completes, with its reply,
    before it returns to the event loop. *)
Definition admitsSynchronously (random : nat -> Q) (now : Z) (o : Order) (s : Sys)
  : Prop :=
  exists r, snd (placeTrade random now o s) = Resolved r.

(** A digit contract over 3 ticks with stake 0.35. *)
Definition digitOrder (ct : string) : Order :=
  {| o_symbol := JUndefined; contract_type := JStr ct; duration := num 3;
     duration_unit := JStr "t"; stake := JNum (35 # 100); currency := JUndefined;
     basis := JUndefined; barrier := JUndefined; prediction := JUndefined |}.

(** Scenario A: stake 0.35, 3 ticks, DIGITEVEN. *)
Definition digitEven : Order := digitOrder "DIGITEVEN".

(** Inbound messages of the venue. *)
Definition proposalResponse (req_id : Z) (id : string) : JsVal :=
  JObj [("req_id", num req_id); ("msg_type", JStr "proposal");
        ("proposal", JObj [("id", JStr id); ("ask_price", JNum (35 # 100))])].

(** A proposal response without an id. *)
Definition proposalWithoutId (req_id : Z) : JsVal :=
  JObj [("req_id", num req_id); ("msg_type", JStr "proposal");
        ("proposal", JObj [("ask_price", JNum (35 # 100))])].

Definition buyResponse (req_id cid : Z) : JsVal :=
  JObj [("req_id", num req_id); ("msg_type", JStr "buy");
        ("buy", JObj [("contract_id", num cid)])].

(** An update of contract [cid] that answers the request [req_id]. *)
Definition contractUpdate (req_id : Z) (cid : Z) (sold : Z) (st : string) : JsVal :=
  JObj [("req_id", num req_id); ("msg_type", JStr "proposal_open_contract");
        ("proposal_open_contract",
         JObj [("contract_id", num cid); ("is_sold", num sold); ("status", JStr st);
               ("profit", JNum (30 # 100))])].

(** An update of contract [cid] that carries no [req_id]. *)
Definition contractEvent (cid : Z) (sold : Z) (st : string) : JsVal :=
  JObj [("msg_type", JStr "proposal_open_contract");
        ("proposal_open_contract",
         JObj [("contract_id", num cid); ("is_sold", num sold); ("status", JStr st);
               ("profit", JNum (30 # 100))])].

(** ** The start sequence of a trade *)

(** The step of [_startTrade] that a continuation performs, for the three
    continuations of a start sequence. *)
Definition advance (random : nat -> Q) (now : Z) (k : Awaiter) (r : ErrMsg + JsVal)
  (s : Sys) : option (Payload * StartCaller * Sys * Progress) :=
  match k with
  | AwaitProposal p c =>
      let (s1, g) := afterProposal random now p c r s in Some (p, c, s1, g)
  | AwaitBuy p c =>
      let (s1, g) := afterBuy random now p c r s in Some (p, c, s1, g)
  | AwaitOpenContract p cid c =>
      let (s1, g) := afterOpenContract cid r s in Some (p, c, s1, g)
  | _ => None
  end.

Definition isBuy (f : Frame) : bool :=
  match f with
  | Tagged (ReqBuy _ _) _ => true
  | _ => false
  end.

(** The specification of scenario C for the trade [rid]: it has failed with
    the given reason, no buy request was sent, and the slot is free. *)
Definition failedAndReleased (reason : string) (rid : Z) (s : Sys) : Prop :=
  (In (TradeError rid (ErrText reason)) (replies (rt s))
   \/ exists t, lastResult (trade (st s)) = Some (errorResult (ErrText reason) t))
  /\ existsb isBuy (sent (rt s)) = false
  /\ inProgress (trade (st s)) = false
  /\ active (trade (st s)) = None.

(** ** Invariants of the event loop *)

(** The contract id that a message hands to the active trade (lines 100
    and 255-258). *)
Definition boughtContract (msg : JsVal) : JsVal :=
  prop "contract_id" (prop "buy" msg).

(** The messages of an event hand only contract ids in [Allowed] to the
    active trade. *)
Definition allowedEvent (Allowed : JsVal -> Prop) (e : Event) : Prop :=
  forall msg, e = EvMessage (Json msg) -> Allowed (boughtContract msg).

(** A predicate on states is closed when it is preserved by the few updates
    it can depend on: [send], the settling of a promise, a draw, the removal
    of pending entries, the updates of the trade slot, and the two updates
    of the tick buffer.  [Allowed] restricts the contract ids that inbound
    messages may hand to the active trade. *)
Record Closed (opts : Opts) (random : nat -> Q) (Inv : Sys -> Prop)
  (Allowed : JsVal -> Prop) : Prop := {
  c_ext :
    forall s s',
      trade (st s') = trade (st s) ->
      ticks (st s') = ticks (st s) ->
      pending (cl s') = pending (cl s) ->
      promises (rt s') = promises (rt s) ->
      nextPromise (rt s') = nextPromise (rt s) ->
      draws (rt s') = draws (rt s) ->
      Inv s -> Inv s';
  c_send :
    forall now payload type k s, Inv s -> Inv (fst (send random now payload type k s));
  c_settle :
    forall n s, Inv s -> Inv (snd (settle n s));
  c_draw :
    forall s, Inv s -> Inv (snd (_nextReqId random s));
  c_delete :
    forall k s, Inv s -> Inv (set_pending (map_delete k (pending (cl s))) s);
  c_clear :
    forall s, Inv s -> Inv (set_pending [] s);
  c_slot_free :
    forall s, Inv s -> Inv (set_slot false None s);
  c_slot_start :
    forall s rid t p,
      Inv s ->
      Inv (set_slot true (Some {| a_requestId := rid; contractId := JNull;
                                  startedAt := t; a_payload := p |}) s);
  c_slot_contract :
    forall s a cid,
      Inv s -> active (trade (st s)) = Some a -> truthy cid = true -> Allowed cid ->
      Inv (set_slot (inProgress (trade (st s)))
             (Some {| a_requestId := a_requestId a; contractId := cid;
                      startedAt := startedAt a; a_payload := a_payload a |}) s);
  c_queue :
    forall q s, Inv s -> Inv (set_queue q s);
  c_lastResult :
    forall r s, Inv s -> Inv (set_lastResult r s);
  c_tick :
    forall msg s, Inv s -> Inv (outcome_state (onTick opts msg s));
  c_resubscribe :
    forall sym s,
      Inv s ->
      Inv (set_ticks {| symbol := sym; last := last (ticks (st s)); buffer := [] |} s)
}.

(** ** Finalizing a trade *)

(** The active trade carries the contract id [cid]
    ([active && active.contractId === cid]). *)
Definition heldBy (cid : JsVal) (s : Sys) : bool :=
  match active (trade (st s)) with
  | Some a => strict_eq (contractId a) cid
  | None => false
  end.

(** The two callers of [_finishTrade]: the timeout callback of the trade
    and the settlement handler for an event [poc]. *)
Inductive Finalizer : Type :=
| ByTimeout
| BySettlement (poc : JsVal).

(** [f] is a finalizer of the contract [cid]: its timeout, or a final
    settlement event that carries [cid]. *)
Definition finalizerFor (cid : JsVal) (f : Finalizer) : Prop :=
  match f with
  | ByTimeout => True
  | BySettlement poc =>
      truthy poc = true
      /\ strict_eq (prop "contract_id" poc) cid = true
      /\ isFinal poc = true
  end.

(** The guard that [f] evaluates (line 266, lines 107-109). *)
Definition guardOf (cid : JsVal) (f : Finalizer) (s : Sys) : bool :=
  match f with
  | ByTimeout => timeoutGuard cid s
  | BySettlement poc => truthy poc && settlementGuard poc s
  end.

(** [f] runs, with the [.catch] microtask it may queue. *)
Definition finalize (random : nat -> Q) (now : Z) (cid : JsVal) (f : Finalizer)
  (s : Sys) : Sys :=
  match f with
  | ByTimeout => tradeTimeout random now cid s
  | BySettlement poc =>
      let '(s1, caught, _) := onSettlement random now poc s in
      runCatch now caught s1
  end.

(** The result that [f] writes to [lastResult] before [_finishTrade]. *)
Definition finalizeResult (cid : JsVal) (now : Z) (f : Finalizer) : TradeResult :=
  match f with
  | ByTimeout => timeoutResult cid now
  | BySettlement poc => settlementResult poc now
  end.

(** Scenario A up to the acknowledged subscription. *)
Definition contractOpen : Sys :=
  outcome_state
    (run opts0 counting
       [(0, EvTrade digitEven);
        (40, EvMessage (Json (proposalResponse 2 "p-1")));
        (80, EvMessage (Json (buyResponse 3 101)));
        (120, EvMessage (Json (contractUpdate 4 101 0 "open")))] ready).

(** The trade still waits for the settlement of contract 101 when the
    safety timeouts of its three requests have fired. *)
Definition awaitingSettlement : Sys :=
  outcome_state
    (run opts0 counting [(15000, EvTimer 0); (15040, EvTimer 0); (15080, EvTimer 0)]
       contractOpen).

(** The contract is open, a second trade is queued, and the connection has
    been lost. *)
Definition queuedWhileDown : Sys :=
  outcome_state
    (run opts0 counting [(200, EvTrade (digitOrder "DIGITODD")); (300, EvClose)]
       contractOpen).

Definition won101 : JsVal :=
  JObj [("contract_id", num 101); ("is_sold", num 1); ("status", JStr "won");
        ("profit", JNum (30 # 100))].

(** ** Pending requests *)

(** The id that the [i]-th draw of [Math.random] gives to [_nextReqId]. *)
Definition drawn (random : nat -> Q) (i : nat) : Z :=
  Qfloor (random i * (1000000000 # 1))%Q.



(** The promise [n] has been created and settled. *)
Definition settled (n : nat) (s : Sys) : Prop :=
  ~ In n (map fst (promises (rt s))) /\ (n < nextPromise (rt s))%nat.



(** The acknowledgement of a tick subscription. *)
Definition ticksAck (req_id : Z) (sym : string) : JsVal :=
  JObj [("req_id", num req_id); ("msg_type", JStr "tick");
        ("tick", JObj [("symbol", JStr sym); ("quote", JNum (1234 # 10))])].


(** ** Single flight *)

(** The phases of a start sequence before the contract is bought. *)
Inductive Phase : Type := Proposing | Executing.

(** A trade is Proposing while its start sequence is suspended at the
    proposal request (line 249) and Executing while it is suspended at the
    buy request (line 254). *)
Definition startingPhase (k : Awaiter) : option (Z * Phase) :=
  match k with
  | AwaitProposal p _ => Some (requestId p, Proposing)
  | AwaitBuy p _ => Some (requestId p, Executing)
  | _ => None
  end.

(** The trades that are Proposing or Executing, newest first. *)
Definition starting (s : Sys) : list (Z * Phase) :=
  flat_map (fun x => match startingPhase (snd x) with
                     | Some y => [y]
                     | None => []
                     end) (promises (rt s)).

(** The specification: at most one trade is under way. *)
Definition singleFlight (s : Sys) : Prop := (List.length (starting s) <= 1)%nat.

(** Two trades, the second one queued and started by [_finishTrade]; its
    contract 102 settles while the subscription request 8 is unanswered. *)
Definition secondSettledEarly : list (Z * Event) :=
  [(0, EvTrade (digitOrder "DIGITEVEN"));
   (10, EvTrade (digitOrder "DIGITODD"));
   (40, EvMessage (Json (proposalResponse 2 "p-1")));
   (80, EvMessage (Json (buyResponse 4 101)));
   (120, EvMessage (Json (contractUpdate 5 101 1 "won")));
   (160, EvMessage (Json (proposalResponse 6 "p-2")));
   (200, EvMessage (Json (buyResponse 7 102)));
   (5000, EvMessage (Json (contractEvent 102 1 "won")))].

(** The safety timeouts of the requests 2, 4, 5 and 6 fire, a third trade
    is submitted, and the timeout of request 7 fires. *)
Definition thirdSubmitted : list (Z * Event) :=
  [(15000, EvTimer 0); (15040, EvTimer 0); (15080, EvTimer 0); (15120, EvTimer 0);
   (15150, EvTrade (digitOrder "DIGITOVER"));
   (15160, EvTimer 1)].

(** The safety timeout of the subscription request 8 fires, and a fourth
    trade is submitted. *)
Definition staleTimeout : list (Z * Event) := [(15200, EvTimer 1)].
Definition fourthSubmitted : list (Z * Event) :=
  [(15250, EvTrade (digitOrder "DIGITUNDER"))].

(** [inProgress] is set exactly when there is an active trade. *)
Definition slotConsistent (s : Sys) : Prop :=
  inProgress (trade (st s))
  = match active (trade (st s)) with
    | Some _ => true
    | None => false
    end.

(** The venue hands out contract 101 twice: to the trade of scenario A,
    which is settled by the acknowledgement of its subscription, and to the
    trade submitted 29 s later. *)
Definition contractIdReused : list (Z * Event) :=
  [(0, EvTrade (digitOrder "DIGITEVEN"));
   (40, EvMessage (Json (proposalResponse 2 "p-1")));
   (80, EvMessage (Json (buyResponse 3 101)));
   (120, EvMessage (Json (contractUpdate 4 101 1 "won")));
   (15000, EvTimer 0); (15040, EvTimer 0); (15080, EvTimer 0);
   (29000, EvTrade (digitOrder "DIGITODD"));
   (29040, EvMessage (Json (proposalResponse 6 "p-2")));
   (29080, EvMessage (Json (buyResponse 7 101)));
   (29120, EvMessage (Json (contractUpdate 8 101 0 "open")))].

(** The venue refuses the request [req_id]. *)
Definition refusal (req_id : Z) : JsVal :=
  JObj [("req_id", num req_id); ("msg_type", JStr "proposal_open_contract");
        ("error", JObj [("code", JStr "RateLimit");
                        ("message", JStr "You have reached the rate limit.")])].

(** Draws for which [_nextReqId] returns 1, ..., 7, then 0, then 9, 10, ...:
    the eighth id is 0. *)
Definition eighthIsZero (n : nat) : Q :=
  if Nat.eqb n 7 then 0 else Z.of_nat (S n) # 1000000000.

(** The sequence [secondSettledEarly] with a venue that echoes the id of the
    subscription request in every update of contract 102; that id is 0. *)
Definition secondSettledUnderIdZero : list (Z * Event) :=
  [(0, EvTrade (digitOrder "DIGITEVEN"));
   (10, EvTrade (digitOrder "DIGITODD"));
   (40, EvMessage (Json (proposalResponse 2 "p-1")));
   (80, EvMessage (Json (buyResponse 4 101)));
   (120, EvMessage (Json (contractUpdate 5 101 1 "won")));
   (160, EvMessage (Json (proposalResponse 6 "p-2")));
   (200, EvMessage (Json (buyResponse 7 102)));
   (240, EvMessage (Json (contractUpdate 0 102 0 "open")));
   (5000, EvMessage (Json (contractUpdate 0 102 1 "won")))].

(** ** Requests in flight *)

(** The request stored under [id] is awaited by [k]: its entry is in
    [this.pending] and its promise is unsettled. *)
Definition awaits (id : Z) (k : Awaiter) (s : Sys) : Prop :=
  exists e rest,
    map_get id (pending (cl s)) = Some e
    /\ take_promise (pe_promise e) (promises (rt s)) = Some (k, rest).

(** The message answers the request [id]: its [req_id] passes the test of
    line 79 for the key [id]. *)
Definition answers (msg : JsVal) (id : Z) : Prop :=
  truthy (prop "req_id" msg) = true /\ as_key (prop "req_id" msg) = Some id.

(** What the code awaiting a request receives from the message that
    resolves it (lines 82-83). *)
Definition outcomeOf (msg : JsVal) : ErrMsg + JsVal :=
  if truthy (prop "error" msg) then inl (remoteError msg) else inr msg.

(** The state once the request that [send] made from [s] has been resolved:
    the frame is written and the safety timeout stays armed, the entry and
    the promise are gone. *)
Definition answered (random : nat -> Q) (payload : Request) (type : string) (s : Sys) : Sys :=
  ws_send (Tagged payload (drawn random (draws (rt s))))
    (arm (TRequest (drawn random (draws (rt s))) (nextPromise (rt s)) type)
       (set_pending (map_delete (drawn random (draws (rt s))) (pending (cl s)))
          (set_nextPromise (S (nextPromise (rt s))) (set_draws (S (draws (rt s))) s)))).

(** The continuations with a [catch] that writes [state.lastError]: those
    of the open handler (lines 58-67). *)
Definition recordsError (k : Awaiter) : bool :=
  match k with
  | AwaitAuthorize | AwaitTicks _ ByOpen => true
  | _ => false
  end.

(** ** The connection *)

(** The flags of the connection agree with the socket: requests are pending
    only on an open socket, an open socket is reported as connected, and
    the client is authorized and its heartbeat runs only on an open
    socket. *)
Definition linked (s : Sys) : Prop :=
  (pending (cl s) <> [] -> ws (cl s) = Some OPEN)
  /\ (ws (cl s) = Some OPEN -> connected (st s) = true)
  /\ (authorized (st s) = true -> ws (cl s) = Some OPEN)
  /\ (pingTimer (cl s) = true -> ws (cl s) = Some OPEN).

(** [s'] differs from [s] by what the handlers of messages, timers and
    HTTP calls can do to the connection: nothing, except that requests are
    added, and the client becomes authorized, on an open socket only. *)
Definition steady (s s' : Sys) : Prop :=
  ws (cl s') = ws (cl s)
  /\ pingTimer (cl s') = pingTimer (cl s)
  /\ reconnectAttempt (cl s') = reconnectAttempt (cl s)
  /\ connected (st s') = connected (st s)
  /\ defaults (st s') = defaults (st s)
  /\ (pending (cl s') <> [] -> pending (cl s) <> [] \/ ws (cl s) = Some OPEN)
  /\ (authorized (st s') = true -> authorized (st s) = true \/ ws (cl s) = Some OPEN).

(** No default is the empty string. *)
Definition defaultsSet (s : Sys) : Prop :=
  d_symbol (defaults (st s)) <> ""
  /\ d_currency (defaults (st s)) <> ""
  /\ d_basis (defaults (st s)) <> "".

(** ** The queue *)

(** Finalizations in a row, at the given times. *)
Fixpoint drain (random : nat -> Q) (nows : list Z) (s : Sys) : Sys :=
  match nows with
  | [] => s
  | now :: r => drain random r (fst (_finishTrade random now s))
  end.

(** ** The callers that wait *)

(** What the HTTP caller behind the continuation [k] is answered when the
    request that [k] awaits fails with [e]: the routes answer with the
    error; the continuations of the open handler and of a trade started
    from the queue have no caller. *)
Definition failureReply (e : ErrMsg) (k : Awaiter) : list Reply :=
  match k with
  | AwaitTicks _ ByHttp => [SubscribeError e]
  | AwaitProposal p ByPlaceTrade
  | AwaitBuy p ByPlaceTrade
  | AwaitOpenContract p _ ByPlaceTrade => [TradeError (requestId p) e]
  | _ => []
  end.

(** The promise of an entry of [this.pending]. *)
Definition promiseOf (x : Z * PendingEntry) : nat := pe_promise (snd x).

(** Every entry of [this.pending] has a promise of its own, one that has
    been created. *)
Definition pendingFresh (s : Sys) : Prop :=
  NoDup (map promiseOf (pending (cl s)))
  /\ forall x, In x (pending (cl s)) -> (promiseOf x < nextPromise (rt s))%nat.

(** ** server.js: the routes *)

(** The fields that POST /trade requires (server.js, line 68). *)
Definition required : list string := ["contract_type"; "duration"; "stake"].

(** [body[k] === undefined || body[k] === null || body[k] === ""]
    (server.js, line 70) *)
Definition isMissing (v : JsVal) : bool :=
  strict_eq v JUndefined || strict_eq v JNull || strict_eq v (JStr "").

(** The validation of POST /trade (server.js, lines 67-73) for the parsed
    body [reqBody]: the error of the 400 reply, or [None] when the route
    goes on to [placeTrade]. *)
Definition tradeBodyError (reqBody : JsVal) : option string :=
  let body := js_or reqBody (JObj []) in
  match find (fun k => isMissing (prop k body)) required with
  | Some k => Some (String.append k " is required")
  | None => None
  end.

(** A field of a body that the validation of POST /trade takes as not
    given. *)
Definition notGiven (v : JsVal) : Prop :=
  v = JUndefined \/ v = JNull \/ v = JStr "".

(** The reply of GET /status (server.js, lines 26-44). *)
Record StatusReply : Type := {
  r_connected : bool;
  r_authorized : bool;
  r_lastError : option ErrMsg;
  r_defaults : Defaults;
  r_symbol : JsVal;
  r_last : JsVal;
  buffer_size : Z;
  r_inProgress : bool;
  queue_length : Z;
  r_active : option ActiveTrade;
  r_lastResult : option TradeResult
}.

Definition statusRoute (s : Sys) : StatusReply :=
  {| r_connected := connected (st s);
     r_authorized := authorized (st s);
     r_lastError := lastError (st s);
     r_defaults := defaults (st s);
     r_symbol := symbol (ticks (st s));
     r_last := last (ticks (st s));
     buffer_size := Z.of_nat (List.length (buffer (ticks (st s))));
     r_inProgress := inProgress (trade (st s));
     queue_length := Z.of_nat (List.length (queue (trade (st s))));
     r_active := active (trade (st s));
     r_lastResult := lastResult (trade (st s)) |}.

(** The reply of GET /health (server.js, lines 17-24) at time [now]. *)
Record HealthReply : Type := {
  h_ok : bool;
  h_connected : bool;
  h_authorized : bool;
  h_time : Z
}.

Definition healthRoute (now : Z) (s : Sys) : HealthReply :=
  {| h_ok := true; h_connected := connected (st s);
     h_authorized := authorized (st s); h_time := now |}.

(** ** server.js: the allowed origins (lines 11-15) *)

(** A string is read as a sequence of code units below 256; [comma] is the
    separator of line 11. *)
Section Comma.
Import Ascii.
Definition comma : ascii := ","%char.
End Comma.

(** The white space and line terminators that [trim] removes, among the
    code units below 256: TAB, LF, VT, FF, CR, SP and NBSP. *)
Definition isSpace (c : Ascii.ascii) : bool :=
  existsb (Nat.eqb (Ascii.nat_of_ascii c)) [9; 10; 11; 12; 13; 32; 160]%nat.

(** [s.split(sep)] for a separator of one character. *)
Fixpoint splitOn (sep : Ascii.ascii) (s : string) : list string :=
  match s with
  | EmptyString => [EmptyString]
  | String c r =>
      if Ascii.eqb c sep then EmptyString :: splitOn sep r
      else match splitOn sep r with
           | h :: t => String c h :: t
           | [] => [String c EmptyString]
           end
  end.

Fixpoint trimStart (s : string) : string :=
  match s with
  | EmptyString => EmptyString
  | String c r => if isSpace c then trimStart r else s
  end.

Fixpoint trimEnd (s : string) : string :=
  match s with
  | EmptyString => EmptyString
  | String c r =>
      match trimEnd r with
      | EmptyString => if isSpace c then EmptyString else String c EmptyString
      | r' => String c r'
      end
  end.

(** [s.trim()] *)
Definition trim (s : string) : string := trimEnd (trimStart s).

(** [origins] of line 11, for the value of CORS_ORIGINS ([None] when the
    variable is not set). *)
Definition origins (env : option string) : list string :=
  let value := match env with
               | Some e => if String.eqb e "" then "*" else e
               | None => "*"
               end in
  filter (fun s => negb (String.eqb s "")) (map trim (splitOn comma value)).

(** The [origin] option handed to [cors] (line 13). *)
Inductive Origin : Type :=
| AnyOrigin
| Listed (l : list string).

Definition corsOrigin (env : option string) : Origin :=
  if existsb (String.eqb "*") (origins env) then AnyOrigin else Listed (origins env).

Fixpoint allOf (p : Ascii.ascii -> bool) (s : string) : bool :=
  match s with
  | EmptyString => true
  | String c r => p c && allOf p r
  end.

Fixpoint endsInSpace (s : string) : bool :=
  match s with
  | EmptyString => false
  | String c EmptyString => isSpace c
  | String _ r => endsInSpace r
  end.

Definition startsWithSpace (s : string) : bool :=
  match s with
  | EmptyString => false
  | String c _ => isSpace c
  end.

(** An origin as one writes it in the list: not empty, without a comma,
    and without white space at either end. *)
Definition wellWritten (o : string) : Prop :=
  o <> ""
  /\ allOf (fun c => negb (Ascii.eqb c comma)) o = true
  /\ startsWithSpace o = false
  /\ endsInSpace o = false.

(** ** Further inputs *)

(** A tick of the symbol [sym], as the stream delivers it. *)
Definition tickOf (sym : string) (quote : Z) : JsVal :=
  JObj [("msg_type", JStr "tick");
        ("tick", JObj [("symbol", JStr sym); ("quote", num quote)])].

(** A message of type "tick" without a tick object. *)
Definition tickWithoutTick : JsVal := JObj [("msg_type", JStr "tick")].

(** The options [opts0] with ticks logged. *)
Definition optsLogging : Opts :=
  {| token := "token"; pingIntervalMs := 10000; reconnectBaseDelayMs := 500;
     reconnectMaxDelayMs := 10000; tradeResultTimeoutMs := 30000;
     maxTicksBuffer := 2000; logTicks := true |}.

(** The options [opts0] with room for three ticks. *)
Definition optsThree : Opts :=
  {| token := "token"; pingIntervalMs := 10000; reconnectBaseDelayMs := 500;
     reconnectMaxDelayMs := 10000; tradeResultTimeoutMs := 30000;
     maxTicksBuffer := 3; logTicks := false |}.

(** Five ticks of R_50, with the quotes 1 to 5. *)
Definition fiveTicks : list JsVal := map (tickOf "R_50") [1; 2; 3; 4; 5].

(** The first trade of [secondSettledEarly] is settled, and the second,
    started from the queue by [_finishTrade], awaits the response to its
    proposal request 6. *)
Definition secondProposing : Sys :=
  outcome_state (run opts0 counting (firstn 5 secondSettledEarly) ready).

(** Draws of [Math.random] that are all below 1e-9. *)
Definition tiny (n : nat) : Q := 1 # 2000000000.

(** Two trades wait in the queue behind the open contract 101. *)
Definition twoQueued : Sys :=
  outcome_state
    (run opts0 counting
       [(200, EvTrade (digitOrder "DIGITODD")); (210, EvTrade (digitOrder "DIGITOVER"))]
       contractOpen).

(** The socket has opened and the authorize request 1 is under way. *)
Definition opened : Sys :=
  outcome_state (run opts0 counting [(0, EvConnect); (5, EvOpen)] (initial "R_50" "USD")).

(** The venue accepts, or refuses, the token of the request [req_id]. *)
Definition authorizeAck (req_id : Z) : JsVal :=
  JObj [("req_id", num req_id); ("msg_type", JStr "authorize");
        ("authorize", JObj [("loginid", JStr "CR90000001")])].

Definition authorizeRefused (req_id : Z) : JsVal :=
  JObj [("req_id", num req_id); ("msg_type", JStr "authorize");
        ("error", JObj [("code", JStr "InvalidToken");
                        ("message", JStr "The token is invalid.")])].

(** The socket has opened and, before the authorization is answered,
    POST /subscribe for R_100 has sent the request 2. *)
Definition subscribingUnauthorized : list (Z * Event) :=
  [(0, EvConnect); (5, EvOpen); (10, EvSubscribe "R_100")].

(** Scenario A up to the buy response: the subscription request 4 is
    under way. *)
Definition subscribing : Sys :=
  outcome_state
    (run opts0 counting
       [(0, EvTrade digitEven);
        (40, EvMessage (Json (proposalResponse 2 "p-1")));
        (80, EvMessage (Json (buyResponse 3 101)))] ready).

(** * Properties *)

(** ** Lists, maps and promises *)

Lemma lastn_length {A : Type} (n : nat) (l : list A) :
  List.length (lastn n l) = Nat.min n (List.length l).
Proof.
  unfold lastn. rewrite length_skipn. lia.
Qed.

Lemma lastn_all {A : Type} (n : nat) (l : list A) :
  (List.length l <= n)%nat -> lastn n l = l.
Proof.
  intros H. unfold lastn.
  replace (List.length l - n)%nat with 0%nat by lia.
  reflexivity.
Qed.

Lemma skipn_app_ge {A : Type} (k : nat) (l r : list A) :
  (List.length l <= k)%nat -> skipn k (l ++ r) = skipn (k - List.length l) r.
Proof.
  intros H. rewrite skipn_app.
  rewrite skipn_all2 by exact H.
  reflexivity.
Qed.

Lemma lastn_app_lastn {A : Type} (n : nat) (l r : list A) :
  lastn n (lastn n l ++ r) = lastn n (l ++ r).
Proof.
  unfold lastn.
  set (k := (List.length l - n)%nat).
  assert (E : l ++ r = firstn k l ++ (skipn k l ++ r)).
  { rewrite app_assoc, firstn_skipn. reflexivity. }
  rewrite E at 2.
  rewrite (skipn_app_ge _ (firstn k l)).
  - rewrite !length_app, length_skipn, length_firstn. f_equal. subst k. lia.
  - rewrite !length_app, length_firstn. subst k. lia.
Qed.

Lemma last_cons_default {A : Type} (x d : A) (l : list A) :
  List.last (x :: l) d = List.last l x.
Proof.
  revert x d. induction l as [|y l IH]; intros x d; [reflexivity|].
  change (List.last (x :: y :: l) d) with (List.last (y :: l) d).
  rewrite IH. symmetry. apply IH.
Qed.

Lemma nth_error_last {A : Type} (l : list A) (x : A) :
  nth_error (l ++ [x]) (List.length (l ++ [x]) - 1) = Some x.
Proof.
  rewrite length_app. cbn [List.length].
  replace (List.length l + 1 - 1)%nat with (List.length l) by lia.
  rewrite nth_error_app2 by lia. rewrite Nat.sub_diag. reflexivity.
Qed.

Lemma map_get_set_same :
  forall k v m, map_get k (map_set k v m) = Some v.
Proof.
  intros k v m. induction m as [|[k' v'] m IH]; cbn.
  - rewrite Z.eqb_refl. reflexivity.
  - destruct (k =? k') eqn:E; cbn; rewrite ?Z.eqb_refl, ?E; auto.
Qed.

Lemma map_get_set_other :
  forall j k v m, j <> k -> map_get j (map_set k v m) = map_get j m.
Proof.
  intros j k v m Hjk. induction m as [|[k' v'] m IH]; cbn.
  - destruct (Z.eqb_spec j k); [contradiction|reflexivity].
  - destruct (Z.eqb_spec k k') as [->|Hk]; cbn.
    + destruct (Z.eqb_spec j k'); [contradiction|reflexivity].
    + destruct (j =? k'); auto.
Qed.

Lemma keys_map_set :
  forall k v m,
    keys (map_set k v m) = if map_has k m then keys m else keys m ++ [k].
Proof.
  intros k v m. induction m as [|[k' v'] m IH]; cbn; [reflexivity|].
  destruct (Z.eqb_spec k k') as [->|Hk]; cbn; [reflexivity|].
  unfold keys in IH. rewrite IH. destruct (map_has k m); reflexivity.
Qed.

Lemma map_has_keys :
  forall k m, map_has k m = true <-> In k (keys m).
Proof.
  intros k m. induction m as [|[k' v'] m IH]; cbn.
  - split; [discriminate|contradiction].
  - destruct (Z.eqb_spec k k') as [->|Hk].
    + split; auto.
    + rewrite IH. split; [auto|]. intros [H|H]; [congruence|exact H].
Qed.

Lemma NoDup_map_set :
  forall k v m, NoDup (keys m) -> NoDup (keys (map_set k v m)).
Proof.
  intros k v m H. rewrite keys_map_set.
  destruct (map_has k m) eqn:E; [exact H|].
  apply NoDup_app; [exact H|repeat constructor; intros []|].
  intros x Hx [<-|[]]. apply map_has_keys in Hx. congruence.
Qed.




Lemma map_get_has :
  forall k m e, map_get k m = Some e -> map_has k m = true.
Proof.
  intros k m e. induction m as [|[k' v] m IH]; cbn; [discriminate|].
  destruct (k =? k'); auto.
Qed.



Lemma strict_eq_JStr_inv :
  forall v a, strict_eq v (JStr a) = true -> v = JStr a.
Proof.
  intros v a H. destruct v; try discriminate.
  cbn in H. apply String.eqb_eq in H. congruence.
Qed.

Lemma strict_eq_compat :
  forall a x y, strict_eq x y = true -> strict_eq a x = strict_eq a y.
Proof.
  intros a x y H.
  destruct x, y; try discriminate; destruct a; try reflexivity; cbn in *.
  - apply Bool.eqb_prop in H. subst. reflexivity.
  - apply Qeq_bool_iff in H. apply Qeqb_comp; [reflexivity|exact H].
  - apply String.eqb_eq in H. subst. reflexivity.
Qed.

Lemma strict_eq_null_truthy :
  forall c, truthy c = true -> strict_eq JNull c = false.
Proof.
  intros c H. destruct c; try reflexivity. discriminate.
Qed.

(** ** What the building blocks leave untouched *)

Lemma send_st :
  forall random now payload type k s,
    st (fst (send random now payload type k s)) = st s.
Proof.
  intros. unfold send. destruct (ws_is_open s); reflexivity.
Qed.

Lemma send_footprint :
  forall random now payload type k s,
    let s' := fst (send random now payload type k s) in
    (s' = s
     \/ (pending (cl s')
         = map_set (drawn random (draws (rt s)))
             {| pe_promise := nextPromise (rt s); pe_ts := now; pe_type := type |}
             (pending (cl s))
         /\ promises (rt s') = (nextPromise (rt s), k) :: promises (rt s)
         /\ nextPromise (rt s') = S (nextPromise (rt s))
         /\ draws (rt s') = S (draws (rt s)))).
Proof.
  intros random now payload type k s. unfold send.
  destruct (ws_is_open s); [right|left; reflexivity].
  cbn. repeat split; reflexivity.
Qed.

Lemma settle_frame :
  forall n s,
    cl (snd (settle n s)) = cl s
    /\ st (snd (settle n s)) = st s
    /\ timers (rt (snd (settle n s))) = timers (rt s).
Proof.
  intros n s. unfold settle.
  destruct (take_promise n (promises (rt s))) as [[a r]|]; repeat split.
Qed.

Lemma settle_st : forall n s, st (snd (settle n s)) = st s.
Proof.
  intros n s. apply (settle_frame n s).
Qed.


Lemma settle_rt :
  forall n s,
    nextPromise (rt (snd (settle n s))) = nextPromise (rt s)
    /\ draws (rt (snd (settle n s))) = draws (rt s).
Proof.
  intros n s. unfold settle.
  destruct (take_promise n (promises (rt s))) as [[a r]|]; split; reflexivity.
Qed.

Lemma resume_rejected_frame :
  forall random now k e s,
    cl (resume random now k (inl e) s) = cl s
    /\ timers (rt (resume random now k (inl e) s)) = timers (rt s).
Proof.
  intros random now k e s.
  destruct k as [|sym c|p c|p c|p cid c]; try destruct c; split; reflexivity.
Qed.

Lemma resumeAll_frame :
  forall random now e ks s,
    cl (resumeAll random now e ks s) = cl s
    /\ timers (rt (resumeAll random now e ks s)) = timers (rt s).
Proof.
  intros random now e ks. unfold resumeAll.
  induction ks as [|k ks IH]; intros s; [split; reflexivity|].
  cbn [fold_left].
  destruct (IH (resume random now k (inl e) s)) as [H1 H2].
  destruct (resume_rejected_frame random now k e s) as [H3 H4].
  split; congruence.
Qed.

Lemma rejectAll_frame :
  forall m s,
    cl (fst (rejectAll m s)) = cl s
    /\ timers (rt (fst (rejectAll m s))) = timers (rt s).
Proof.
  induction m as [|[k p] m IH]; intros s; [split; reflexivity|].
  cbn [rejectAll].
  destruct (settle_frame (pe_promise p) s) as (H1 & _ & H2).
  destruct (settle (pe_promise p) s) as [[k'|] s1]; cbn [snd] in H1, H2.
  - destruct (IH s1) as [H3 H4].
    destruct (rejectAll m s1) as [s2 ks]. cbn [fst] in *. split; congruence.
  - destruct (IH s1) as [H3 H4]. split; congruence.
Qed.

Lemma resume_advance :
  forall random now k r s p c s1 g,
    advance random now k r s = Some (p, c, s1, g) ->
    resume random now k r s = startSettled now p c g s1.
Proof.
  intros random now k r s p c s1 g H.
  destruct k as [|sym c0|p0 c0|p0 c0|p0 cid c0]; cbn [advance] in H;
    try discriminate; cbn [resume].
  - destruct (afterProposal random now p0 c0 r s). congruence.
  - destruct (afterBuy random now p0 c0 r s). congruence.
  - destruct (afterOpenContract cid r s). congruence.
Qed.

Lemma advance_keeps_queue :
  forall random now k r s p c s1 g,
    advance random now k r s = Some (p, c, s1, g) ->
    queue (trade (st s1)) = queue (trade (st s)).
Proof.
  intros random now k r s p c s1 g H.
  destruct k as [|sym c0|p0 c0|p0 c0|p0 cid c0]; cbn [advance] in H; try discriminate.
  - unfold afterProposal, send, progress_of in H.
    destruct r as [e|res]; [inversion H; reflexivity|].
    destruct (negb _); [inversion H; reflexivity|].
    destruct (ws_is_open s); inversion H; reflexivity.
  - unfold afterBuy, send, progress_of in H.
    destruct r as [e|res]; [inversion H; reflexivity|].
    destruct (negb _); [inversion H; reflexivity|].
    destruct (active (trade (st s))) as [a|]; [|inversion H; reflexivity].
    destruct (ws_is_open _); inversion H; reflexivity.
  - unfold afterOpenContract in H.
    destruct r as [e|res]; inversion H; reflexivity.
Qed.

(** ** Invariants of the event loop *)

(** A closed predicate is preserved by every function of the client, and
    so by every event. *)
Section Preservation.

Variable opts : Opts.
Variable random : nat -> Q.
Variable Inv : Sys -> Prop.
Variable Allowed : JsVal -> Prop.

Hypothesis closed : Closed opts random Inv Allowed.

Let inv_ext := c_ext opts random Inv Allowed closed.
Let inv_send := c_send opts random Inv Allowed closed.
Let inv_settle := c_settle opts random Inv Allowed closed.
Let inv_draw := c_draw opts random Inv Allowed closed.
Let inv_delete := c_delete opts random Inv Allowed closed.
Let inv_clear := c_clear opts random Inv Allowed closed.
Let inv_slot_free := c_slot_free opts random Inv Allowed closed.
Let inv_slot_start := c_slot_start opts random Inv Allowed closed.
Let inv_slot_contract := c_slot_contract opts random Inv Allowed closed.
Let inv_queue := c_queue opts random Inv Allowed closed.
Let inv_lastResult := c_lastResult opts random Inv Allowed closed.
Let inv_tick := c_tick opts random Inv Allowed closed.
Let inv_resubscribe := c_resubscribe opts random Inv Allowed closed.

Ltac frame H :=
  match type of H with
  | Inv ?s => apply (inv_ext s); [reflexivity ..|exact H]
  end.

Lemma p_startTrade :
  forall now p c s, Inv s -> Inv (fst (_startTrade random now p c s)).
Proof.
  intros now p c s H. unfold _startTrade.
  destruct (negb (authorized (st s))); [exact H|].
  apply inv_send, inv_slot_start, H.
Qed.

Lemma p_nextTradeFailed :
  forall now e s, Inv s -> Inv (nextTradeFailed now e s).
Proof.
  intros now e s H. unfold nextTradeFailed.
  apply inv_slot_free, inv_lastResult, H.
Qed.

Lemma p_startSettled :
  forall now p c g s, Inv s -> Inv (startSettled now p c g s).
Proof.
  intros now p c g s H. destruct g, c; cbn [startSettled]; try exact H.
  - frame H.
  - frame H.
  - apply p_nextTradeFailed, H.
Qed.

Lemma p_progress_of :
  forall r, Inv (fst r) -> Inv (fst (progress_of r)).
Proof.
  intros [s [e|]] H; exact H.
Qed.

Lemma p_afterProposal :
  forall now p c r s, Inv s -> Inv (fst (afterProposal random now p c r s)).
Proof.
  intros now p c r s H. unfold afterProposal.
  destruct r as [e|res]; [exact H|].
  destruct (negb _); [exact H|].
  apply p_progress_of, inv_send, H.
Qed.

Lemma p_afterBuy :
  forall now p c r s,
    Inv s ->
    (forall res, r = inr res -> Allowed (boughtContract res)) ->
    Inv (fst (afterBuy random now p c r s)).
Proof.
  intros now p c r s H Hr. unfold afterBuy.
  destruct r as [e|res]; [exact H|].
  destruct (truthy (prop "contract_id" (prop "buy" res))) eqn:Ht; [|exact H].
  cbn [negb].
  destruct (active (trade (st s))) as [a|] eqn:Ha; [|exact H].
  apply p_progress_of, inv_send.
  apply inv_slot_contract; auto. apply Hr. reflexivity.
Qed.

Lemma p_afterOpenContract :
  forall cid r s, Inv s -> Inv (fst (afterOpenContract cid r s)).
Proof.
  intros cid r s H. destruct r; cbn; [exact H|frame H].
Qed.

Lemma p_ticksSettled :
  forall sym c r s, Inv s -> Inv (ticksSettled sym c r s).
Proof.
  intros sym c r s H. destruct c, r; cbn [ticksSettled]; try exact H; frame H.
Qed.

Lemma p_subscribeTicks :
  forall now sym c s, Inv s -> Inv (fst (subscribeTicks random now sym c s)).
Proof.
  intros now sym c s H. unfold subscribeTicks. apply inv_send, inv_resubscribe, H.
Qed.

Lemma p_afterAuthorize :
  forall now r s, Inv s -> Inv (afterAuthorize random now r s).
Proof.
  intros now r s H. unfold afterAuthorize.
  destruct r as [e|res]; [frame H|].
  match goal with |- context [subscribeTicks random now ?y ?c ?x] =>
    pose proof (p_subscribeTicks now y c x) as Hs;
    destruct (subscribeTicks random now y c x) as [s2 [e|]] end;
    cbn [fst] in Hs.
  - apply p_ticksSettled, Hs. frame H.
  - apply Hs. frame H.
Qed.

Lemma p_resume :
  forall now k r s,
    Inv s ->
    (forall res, r = inr res -> Allowed (boughtContract res)) ->
    Inv (resume random now k r s).
Proof.
  intros now k r s H Hr.
  destruct k as [|sym c|p c|p c|p cid c]; cbn [resume].
  - apply p_afterAuthorize, H.
  - apply p_ticksSettled, H.
  - pose proof (p_afterProposal now p c r s H) as Hs.
    destruct (afterProposal random now p c r s) as [s1 g].
    apply p_startSettled, Hs.
  - pose proof (p_afterBuy now p c r s H Hr) as Hs.
    destruct (afterBuy random now p c r s) as [s1 g].
    apply p_startSettled, Hs.
  - pose proof (p_afterOpenContract cid r s H) as Hs.
    destruct (afterOpenContract cid r s) as [s1 g].
    apply p_startSettled, Hs.
Qed.

Lemma p_resume_rejected :
  forall now k e s, Inv s -> Inv (resume random now k (inl e) s).
Proof.
  intros now k e s H. apply p_resume; [exact H|]. intros res Hres. discriminate.
Qed.

Lemma p_finishTrade :
  forall now s, Inv s -> Inv (fst (_finishTrade random now s)).
Proof.
  intros now s H. unfold _finishTrade.
  pose proof (inv_slot_free s H) as H1.
  destruct (queue (trade (st (set_slot false None s)))) as [|next rest]; [exact H1|].
  apply p_startTrade, inv_queue, H1.
Qed.

Lemma p_runCatch :
  forall now caught s, Inv s -> Inv (runCatch now caught s).
Proof.
  intros now [e|] s H; cbn; [apply p_nextTradeFailed, H|exact H].
Qed.

Lemma p_tradeTimeout :
  forall now cid s, Inv s -> Inv (tradeTimeout random now cid s).
Proof.
  intros now cid s H. unfold tradeTimeout.
  destruct (timeoutGuard cid s); [|exact H].
  pose proof (p_finishTrade now _ (inv_lastResult (timeoutResult cid now) s H)) as Hs.
  destruct (_finishTrade random now _) as [s1 caught].
  apply p_runCatch, Hs.
Qed.

Lemma p_placeTrade :
  forall now o s, Inv s -> Inv (fst (placeTrade random now o s)).
Proof.
  intros now o s H. unfold placeTrade.
  pose proof (inv_draw s H) as Hd.
  destruct (_nextReqId random s) as [rid s1]. cbn [snd] in Hd.
  destruct (inProgress (trade (st s1))).
  - cbn [fst]. apply inv_queue, Hd.
  - pose proof (p_startTrade now {| requestId := rid; order := o |} ByPlaceTrade s1 Hd) as Hs.
    destruct (_startTrade random now _ ByPlaceTrade s1) as [s2 [e|]]; exact Hs.
Qed.

Lemma p_resolvePending_outcome :
  forall msg s k r res,
    snd (resolvePending msg s) = Some (k, r) -> r = inr res -> res = msg.
Proof.
  intros msg s k r res. unfold resolvePending.
  destruct (truthy (prop "req_id" msg) && pending_has (prop "req_id" msg) s);
    [|discriminate].
  destruct (as_key (prop "req_id" msg)) as [k0|]; [|discriminate].
  destruct (map_get k0 (pending (cl s))) as [p|]; [|discriminate].
  destruct (settle (pe_promise p) _) as [[k'|] s2]; cbn [snd]; [|discriminate].
  intros E Er. inversion E; subst.
  destruct (truthy (prop "error" msg)); [discriminate|]. congruence.
Qed.

Lemma p_resolvePending :
  forall msg s, Inv s -> Inv (fst (resolvePending msg s)).
Proof.
  intros msg s H. unfold resolvePending.
  destruct (truthy (prop "req_id" msg) && pending_has (prop "req_id" msg) s);
    [|exact H].
  destruct (as_key (prop "req_id" msg)) as [k|]; [|exact H].
  destruct (map_get k (pending (cl s))) as [p|]; [|exact H].
  pose proof (inv_settle (pe_promise p) _ (inv_delete k s H)) as Hs.
  destruct (settle (pe_promise p) _) as [[k'|] s2]; exact Hs.
Qed.

Lemma p_onTick :
  forall msg s, Inv s -> Inv (outcome_state (onTick opts msg s)).
Proof.
  intros msg s H. apply inv_tick, H.
Qed.

Lemma p_onBuy :
  forall msg s, Inv s -> Allowed (boughtContract msg) -> Inv (onBuy msg s).
Proof.
  intros msg s H Hok. unfold onBuy.
  destruct (strict_eq _ _); [|exact H].
  destruct (active (trade (st s))) as [a|] eqn:Ha; [|exact H].
  destruct (truthy (prop "contract_id" (prop "buy" msg))) eqn:Ht; [|exact H].
  apply inv_slot_contract; auto.
Qed.

Lemma p_onSettlement :
  forall now poc s, Inv s -> Inv (fst (fst (onSettlement random now poc s))).
Proof.
  intros now poc s H. unfold onSettlement.
  destruct (negb (truthy poc)); [exact H|].
  destruct (negb (settlementGuard poc s)); [exact H|].
  destruct (isFinal poc); [|exact H].
  cbn [fst]. apply p_finishTrade, inv_lastResult, H.
Qed.

Lemma p_onOpenContract :
  forall now msg s, Inv s -> Inv (fst (fst (onOpenContract random now msg s))).
Proof.
  intros now msg s H. unfold onOpenContract.
  destruct (strict_eq _ _); [apply p_onSettlement, H|exact H].
Qed.

Lemma p_onError :
  forall msg s, Inv s -> Inv (onError msg s).
Proof.
  intros msg s H. unfold onError. destruct (truthy _); [frame H|exact H].
Qed.

Lemma p_onMessage_after :
  forall now msg s,
    Inv (fst (resolvePending msg s)) ->
    Allowed (boughtContract msg) ->
    Inv s \/ nullish msg = false ->
    Inv (outcome_state (onMessage opts random now (Json msg) s)).
Proof.
  intros now msg s H1 Hok Hs. unfold onMessage. cbn [JSON_parse].
  destruct (nullish msg) eqn:Hn.
  { destruct Hs as [Hs|Hs]; [exact Hs|discriminate]. }
  pose proof (p_resolvePending_outcome msg s) as Hr.
  destruct (resolvePending msg s) as [s1 settled]. cbn [fst snd] in *.
  pose proof (p_onTick msg s1 H1) as H2.
  destruct (onTick opts msg s1) as [s2|e s2]; cbn [outcome_state] in *; [|exact H2].
  pose proof (p_onOpenContract now msg _ (p_onBuy msg s2 H2 Hok)) as H4.
  destruct (onOpenContract random now msg (onBuy msg s2)) as [[s4 caught] returned].
  cbn [fst] in H4.
  assert (H5 : Inv (if returned then s4 else onError msg s4)).
  { destruct returned; [exact H4|apply p_onError, H4]. }
  pose proof (p_runCatch now caught _ H5) as H6.
  destruct settled as [[k r]|]; cbn [outcome_state]; [|exact H6].
  apply p_resume; [exact H6|].
  intros res Hres. rewrite (Hr k r res eq_refl Hres). exact Hok.
Qed.

Lemma p_onMessage :
  forall now buf s,
    Inv s ->
    (forall msg, buf = Json msg -> Allowed (boughtContract msg)) ->
    Inv (outcome_state (onMessage opts random now buf s)).
Proof.
  intros now buf s H Hok.
  destruct buf as [text|msg]; [exact H|].
  apply p_onMessage_after; [apply p_resolvePending, H|apply Hok; reflexivity|].
  left. exact H.
Qed.

Lemma p_connect : forall s, Inv s -> Inv (connect s).
Proof.
  intros s H. unfold connect.
  destruct (ws (cl s)) as [[| | |]|]; try exact H; frame H.
Qed.

Lemma p_onOpen : forall now s, Inv s -> Inv (onOpen opts random now s).
Proof.
  intros now s H. unfold onOpen.
  match goal with |- context [send random now ?a ?b ?c ?x] =>
    assert (Hx : Inv x) by (frame H);
    pose proof (inv_send now a b c x Hx) as Hs;
    destruct (send random now a b c x) as [s3 [e|]] end; cbn [fst] in Hs.
  - frame Hs.
  - exact Hs.
Qed.

Lemma p_rejectAll :
  forall m s, Inv s -> Inv (fst (rejectAll m s)).
Proof.
  induction m as [|[k p] m IH]; intros s H; [exact H|].
  cbn [rejectAll].
  pose proof (inv_settle (pe_promise p) s H) as Hs.
  destruct (settle (pe_promise p) s) as [[k'|] s1]; cbn [snd] in Hs.
  - specialize (IH s1 Hs). destruct (rejectAll m s1). exact IH.
  - apply IH, Hs.
Qed.

Lemma p_resumeAll :
  forall now e ks s, Inv s -> Inv (resumeAll random now e ks s).
Proof.
  intros now e ks. unfold resumeAll.
  induction ks as [|k ks IH]; intros s H; [exact H|].
  cbn [fold_left]. apply IH, p_resume_rejected, H.
Qed.

Lemma p_onClose : forall now s, Inv s -> Inv (onClose opts random now s).
Proof.
  intros now s H. unfold onClose.
  match goal with |- context [rejectAll ?m ?x] =>
    assert (Hx : Inv x) by (frame H);
    pose proof (p_rejectAll m x Hx) as Hs;
    destruct (rejectAll m x) as [s3 ks] end; cbn [fst] in Hs.
  apply p_resumeAll. unfold _reconnect.
  pose proof (inv_clear s3 Hs) as Hc. frame Hc.
Qed.

Lemma p_requestTimeout :
  forall now req_id p type s, Inv s -> Inv (requestTimeout random now req_id p type s).
Proof.
  intros now req_id p type s H. unfold requestTimeout.
  destruct (map_has req_id (pending (cl s))); [|exact H].
  pose proof (inv_settle p _ (inv_delete req_id s H)) as Hs.
  destruct (settle p _) as [[k|] s2]; cbn [snd] in Hs; [|exact Hs].
  apply p_resume_rejected, Hs.
Qed.

Lemma p_fire : forall now t s, Inv s -> Inv (fire random now t s).
Proof.
  intros now t s H. destruct t; cbn [fire].
  - apply p_requestTimeout, H.
  - apply p_tradeTimeout, H.
  - apply p_connect, H.
Qed.

(** Every event preserves a closed predicate, as long as its message hands
    only allowed contract ids to the active trade. *)
Theorem step_preserves :
  forall now e s,
    Inv s -> allowedEvent Allowed e -> Inv (outcome_state (step opts random now e s)).
Proof.
  intros now e s H Hok. destruct e; cbn [step outcome_state].
  - apply p_connect, H.
  - apply p_onOpen. frame H.
  - apply p_onMessage; [exact H|]. intros msg E. apply Hok. congruence.
  - apply p_onClose. frame H.
  - frame H.
  - destruct (nth_error (timers (rt s)) i); cbn [outcome_state]; [|exact H].
    apply p_fire. frame H.
  - unfold ping. destruct (_ && _); cbn; [frame H|exact H].
  - pose proof (p_placeTrade now o s H) as Hs.
    destruct (placeTrade random now o s) as [s1 [r|e|]]; cbn [fst outcome_state] in *;
      try exact Hs; frame Hs.
  - destruct (String.eqb sym ""); cbn [outcome_state]; [frame H|].
    pose proof (p_subscribeTicks now (JStr sym) ByHttp s H) as Hs.
    destruct (subscribeTicks random now (JStr sym) ByHttp s) as [s1 [e|]];
      cbn [fst outcome_state] in *; [|exact Hs].
    apply p_ticksSettled, Hs.
  - frame H.
Qed.

(** So does every sequence of events. *)
Theorem run_preserves :
  forall tr s,
    Inv s -> Forall (fun x => allowedEvent Allowed (snd x)) tr ->
    Inv (outcome_state (run opts random tr s)).
Proof.
  induction tr as [|[now e] tr IH]; intros s H Hall; [exact H|].
  inversion Hall as [|x l Hx Hl]; subst. cbn [snd] in Hx.
  cbn [run]. pose proof (step_preserves now e s H Hx) as Hs.
  destruct (step opts random now e s) as [s1|x s1]; cbn [outcome_state] in Hs.
  - apply IH; assumption.
  - exact Hs.
Qed.

End Preservation.

Lemma any_trace_allowed :
  forall tr : list (Z * Event),
    Forall (fun x => allowedEvent (fun _ => True) (snd x)) tr.
Proof.
  intros tr. apply Forall_forall. intros x _ msg _. exact I.
Qed.




Lemma slotConsistent_closed :
  forall opts random, Closed opts random slotConsistent (fun _ => True).
Proof.
  intros opts random. unfold slotConsistent. constructor.
  - intros s s' Ht _ _ _ _ _ H. rewrite Ht. exact H.
  - intros now payload type k s H. rewrite send_st. exact H.
  - intros n s H. rewrite settle_st. exact H.
  - intros s H. exact H.
  - intros k s H. exact H.
  - intros s H. exact H.
  - reflexivity.
  - reflexivity.
  - intros s a cid H Ha _ _. cbn. rewrite H, Ha. reflexivity.
  - intros q s H. exact H.
  - intros r s H. exact H.
  - intros msg s H. unfold onTick. destruct (strict_eq _ _); [|exact H].
    destruct (logTicks opts && nullish (prop "tick" msg)); exact H.
  - intros sym s H. exact H.
Qed.

(** X23: in every state the client reaches, [inProgress] is set exactly
    when there is an active trade: the test of [inProgress] in the timeout
    guard (line 266) adds nothing to the test of [active]. *)
Lemma reachable_slot_consistent :
  forall opts random tr sym cur,
    slotConsistent (outcome_state (run opts random tr (initial sym cur))).
Proof.
  intros opts random tr sym cur.
  apply (run_preserves opts random _ _ (slotConsistent_closed opts random) tr).
  - reflexivity.
  - apply any_trace_allowed.
Qed.

(** ** Inbound frames that are not JSON *)

(** C10: a frame whose payload is not valid JSON is dropped by the message
    handler: the handler completes and every part of the state (pending
    requests, promise table, ticks, trade state, last error, timers, frames
    sent) is what it was. *)
Theorem not_json_is_ignored :
  forall opts random now text s,
    step opts random now (EvMessage (NotJson text)) s = Done s.
Proof.
  intros opts random now text s.
  unfold step, onMessage.
  reflexivity.
Qed.

(** ** The tick buffer *)

Lemma onTick_buffer :
  forall opts msg s,
    0 <= maxTicksBuffer opts ->
    isTick msg ->
    exists s',
      onTick opts msg s = Done s'
      /\ last (ticks (st s')) = prop "tick" msg
      /\ buffer (ticks (st s'))
         = lastn (Z.to_nat (maxTicksBuffer opts))
             (buffer (ticks (st s)) ++ [prop "tick" msg]).
Proof.
  intros opts msg s HC [Ht Hn].
  unfold onTick. rewrite Ht, Hn, andb_false_r.
  eexists. split; [reflexivity|]. split; [reflexivity|].
  cbn [set_ticks upd_st st ticks buffer].
  set (pushed := buffer (ticks (st s)) ++ [prop "tick" msg]).
  destruct (Z.gtb_spec (Z.of_nat (List.length pushed)) (maxTicksBuffer opts)) as [E|E].
  - unfold splice_front, lastn. f_equal. lia.
  - symmetry. apply lastn_all. lia.
Qed.

(** C9: over any sequence of tick messages, starting from a buffer within
    the capacity [maxTicksBuffer], the handler completes, [last] is the most
    recent tick, and the buffer holds the most recent ticks of the history
    (the old buffer followed by the arrivals, in arrival order), at most
    [maxTicksBuffer] of them. *)
Theorem tick_buffer_keeps_most_recent :
  forall opts msgs s,
    0 <= maxTicksBuffer opts ->
    bufferBounded opts s ->
    Forall isTick msgs ->
    exists s',
      onTicks opts msgs s = Done s'
      /\ last (ticks (st s'))
         = List.last (map (prop "tick") msgs) (last (ticks (st s)))
      /\ buffer (ticks (st s'))
         = lastn (Z.to_nat (maxTicksBuffer opts))
             (buffer (ticks (st s)) ++ map (prop "tick") msgs)
      /\ Z.of_nat (List.length (buffer (ticks (st s')))) <= maxTicksBuffer opts.
Proof.
  intros opts msgs s HC Hlen Hall. unfold bufferBounded in Hlen.
  assert (Hmain : exists s',
      onTicks opts msgs s = Done s'
      /\ last (ticks (st s'))
         = List.last (map (prop "tick") msgs) (last (ticks (st s)))
      /\ buffer (ticks (st s'))
         = lastn (Z.to_nat (maxTicksBuffer opts))
             (buffer (ticks (st s)) ++ map (prop "tick") msgs)).
  { revert s Hlen.
    induction Hall as [|m r Hm Hr IH]; intros s Hlen.
    - exists s. cbn. rewrite app_nil_r.
      repeat split. symmetry. apply lastn_all. exact Hlen.
    - destruct (onTick_buffer opts m s HC Hm) as (s1 & E1 & L1 & B1).
      destruct (IH s1) as (s' & E' & L' & B').
      { rewrite B1, lastn_length. lia. }
      exists s'. cbn [onTicks]. rewrite E1. split; [exact E'|]. split.
      + rewrite L', L1. cbn [map]. symmetry. apply last_cons_default.
      + rewrite B', B1, lastn_app_lastn, <- app_assoc. reflexivity. }
  destruct Hmain as (s' & E & L & B).
  exists s'. repeat split; try assumption.
  rewrite B, lastn_length. lia.
Qed.

(** C9 with room for three ticks and five arrivals: the fourth and the
    fifth tick each evict the oldest one, the buffer ends with the ticks 3, 4
    and 5 in arrival order, and [last] is tick 5. *)
Lemma tick_buffer_keeps_most_recent_witness :
  exists s',
    onTicks optsThree fiveTicks ready = Done s'
    /\ last (ticks (st s')) = prop "tick" (tickOf "R_50" 5)
    /\ buffer (ticks (st s')) = map (prop "tick") (map (tickOf "R_50") [3; 4; 5])
    /\ Z.of_nat (List.length (buffer (ticks (st s')))) <= 3.
Proof.
  destruct (tick_buffer_keeps_most_recent optsThree fiveTicks ready)
    as (s' & E & L & B & H).
  - vm_compute. discriminate.
  - vm_compute. lia.
  - repeat constructor.
  - exists s'. split; [exact E|]. split; [exact L|]. split; [exact B|exact H].
Defined.

Lemma bufferBounded_closed :
  forall opts random,
    0 <= maxTicksBuffer opts ->
    Closed opts random (bufferBounded opts) (fun _ => True).
Proof.
  intros opts random HC. unfold bufferBounded. constructor.
  - intros s s' _ Ht _ _ _ _ H. rewrite Ht. exact H.
  - intros now payload type k s H. rewrite send_st. exact H.
  - intros n s H. rewrite settle_st. exact H.
  - intros s H. exact H.
  - intros k s H. exact H.
  - intros s H. exact H.
  - intros s H. exact H.
  - intros s rid t p H. exact H.
  - intros s a cid H _ _ _. exact H.
  - intros q s H. exact H.
  - intros r s H. exact H.
  - intros msg s H. unfold onTick. destruct (strict_eq _ _); [|exact H].
    assert (Hk : (List.length
                    (if Z.of_nat (List.length (buffer (ticks (st s)) ++ [prop "tick" msg]))
                        >? maxTicksBuffer opts
                     then splice_front
                            (Z.of_nat (List.length (buffer (ticks (st s)) ++ [prop "tick" msg]))
                             - maxTicksBuffer opts)
                            (buffer (ticks (st s)) ++ [prop "tick" msg])
                     else buffer (ticks (st s)) ++ [prop "tick" msg])
                  <= Z.to_nat (maxTicksBuffer opts))%nat).
    { destruct (Z.gtb_spec
                  (Z.of_nat (List.length (buffer (ticks (st s)) ++ [prop "tick" msg])))
                  (maxTicksBuffer opts)) as [E|E].
      - unfold splice_front. rewrite length_skipn. lia.
      - lia. }
    destruct (logTicks opts && nullish (prop "tick" msg)); exact Hk.
  - intros sym s H. cbn. lia.
Qed.

(** The buffer is within the capacity in every state the client reaches,
    whatever the events. *)
Lemma tick_buffer_bounded_in_every_state :
  forall opts random tr sym cur,
    0 <= maxTicksBuffer opts ->
    bufferBounded opts (outcome_state (run opts random tr (initial sym cur))).
Proof.
  intros opts random tr sym cur HC.
  apply (run_preserves opts random _ _ (bufferBounded_closed opts random HC) tr).
  - unfold bufferBounded. cbn. lia.
  - apply any_trace_allowed.
Qed.

(** In the event loop, a tick message without [req_id] is handled by the
    tick handler alone (and by the error handler of lines 131-133). *)
Lemma tick_event_runs_onTick :
  forall opts random now msg s,
    isTick msg ->
    truthy (prop "req_id" msg) = false ->
    step opts random now (EvMessage (Json msg)) s
    = match onTick opts msg s with
      | Done s1 => Done (onError msg s1)
      | Uncaught e s1 => Uncaught e s1
      end.
Proof.
  intros opts random now msg s [Ht _] Hreq.
  apply strict_eq_JStr_inv in Ht.
  assert (Hn : nullish msg = false).
  { destruct msg; try discriminate; reflexivity. }
  cbn [step]. unfold onMessage. cbn [JSON_parse]. rewrite Hn.
  unfold resolvePending. rewrite Hreq. cbn [andb].
  destruct (onTick opts msg s) as [s1|e s1]; [|reflexivity].
  unfold onBuy, onOpenContract. rewrite Ht. reflexivity.
Qed.

(** ** Reconnection backoff *)

Lemma onClose_backoff :
  forall opts random now s,
    reconnectAttempt (cl (onClose opts random now s)) = reconnectAttempt (cl s) + 1
    /\ timers (rt (onClose opts random now s))
       = timers (rt s) ++ [TSleep (reconnectDelay opts (reconnectAttempt (cl s) + 1))].
Proof.
  intros opts random now s. unfold onClose.
  set (s2 := set_pingTimer false (set_authorized false (set_connected false s))).
  destruct (rejectAll_frame (pending (cl s2)) s2) as [H1 H2].
  destruct (rejectAll (pending (cl s2)) s2) as [s3 ks]. cbn [fst] in H1, H2.
  destruct (resumeAll_frame random now (ErrText "WebSocket closed") ks
              (_reconnect opts (set_pending [] s3))) as [H3 H4].
  rewrite H3, H4. clear H3 H4.
  unfold _reconnect. cbn. rewrite H1, H2. split; reflexivity.
Qed.

Lemma failure_backoff :
  forall opts random now s,
    snd (failure opts random now s)
    = Some (reconnectDelay opts (reconnectAttempt (cl s) + 1))
    /\ reconnectAttempt (cl (fst (failure opts random now s)))
       = reconnectAttempt (cl s) + 1.
Proof.
  intros opts random now s. unfold failure. cbn [step outcome_state fst snd].
  destruct (onClose_backoff opts random now (set_ws (Some CLOSED) s)) as [H1 H2].
  set (s1 := onClose opts random now (set_ws (Some CLOSED) s)) in *.
  cbn in H1, H2. split.
  - unfold lastSleep. rewrite H2, rev_app_distr. reflexivity.
  - rewrite H2, nth_error_last. cbn [outcome_state fire].
    unfold connect. cbn. rewrite <- H1.
    destruct (ws (cl s1)) as [[| | |]|]; reflexivity.
Qed.

Lemma onOpen_resets_attempt :
  forall opts random now s, reconnectAttempt (cl (onOpen opts random now s)) = 0.
Proof.
  intros opts random now s. unfold onOpen, send.
  destruct (ws_is_open _); reflexivity.
Qed.

(** C5 (as the code has it): the open handler resets the attempt counter,
    every failure increments it before the delay is computed, and the delay
    slept after the [i]-th consecutive failure since the socket opened is
    [min(maxDelay, baseDelay * 2^min(i, 8))], [i] counting from 1. *)
Theorem reconnect_backoff :
  forall opts random now s k,
    let s0 := outcome_state (step opts random now EvOpen s) in
    reconnectAttempt (cl s0) = 0
    /\ reconnectAttempt (cl (fst (failures opts random now k s0))) = Z.of_nat k
    /\ snd (failures opts random now k s0)
       = map (fun i => Some (Z.min (reconnectMaxDelayMs opts)
                               (reconnectBaseDelayMs opts * 2 ^ Z.min (Z.of_nat i) 8)))
           (seq 1 k).
Proof.
  intros opts random now s k s0.
  assert (H0 : reconnectAttempt (cl s0) = 0) by apply onOpen_resets_attempt.
  split; [exact H0|].
  induction k as [|k [IH1 IH2]].
  - split; [exact H0|reflexivity].
  - cbn [failures].
    destruct (failures opts random now k s0) as [s1 ds]. cbn [fst snd] in IH1, IH2.
    destruct (failure_backoff opts random now s1) as [H1 H2].
    destruct (failure opts random now s1) as [s2 d]. cbn [fst snd] in *.
    rewrite H2, H1, IH1, IH2. split; [lia|].
    rewrite seq_S, map_app. cbn [map].
    unfold reconnectDelay. repeat f_equal. lia.
Qed.

(** C5, the scenario of the specification: with the default options
    (base 500 ms, maximum 10000 ms) five consecutive failures do not sleep
    base, 2 base, 4 base, 8 base, 16 base but twice that, capped. *)
Lemma five_failures_start_at_twice_base :
  snd (failures opts0 counting 0 5
         (outcome_state (step opts0 counting 0 EvOpen (connect (initial "R_50" "USD")))))
  = [Some 1000; Some 2000; Some 4000; Some 8000; Some 10000]
  /\ snd (failures opts0 counting 0 5
            (outcome_state (step opts0 counting 0 EvOpen (connect (initial "R_50" "USD")))))
     <> map (fun i => Some (Z.min 10000 (500 * 2 ^ i))) [0; 1; 2; 3; 4].
Proof.
  split; [vm_compute; reflexivity|].
  vm_compute. discriminate.
Qed.

(** ** Correlation ids *)

Lemma nextReqId_range :
  forall random s,
    (0 <= random (draws (rt s)))%Q -> (random (draws (rt s)) < 1)%Q ->
    0 <= fst (_nextReqId random s) < 1000000000.
Proof.
  intros random s H0 H1. cbn [_nextReqId fst].
  set (u := random (draws (rt s))) in *.
  split.
  - change 0 with (Qfloor 0). apply Qfloor_resp_le.
    apply Qmult_le_0_compat; [exact H0|discriminate].
  - rewrite Zlt_Qlt. eapply Qle_lt_trans; [apply Qfloor_le|].
    setoid_replace (inject_Z 1000000000) with (1 * (1000000000 # 1))%Q by reflexivity.
    apply Qmult_lt_compat_r; [reflexivity|exact H1].
Qed.

(** C6 (as the code has it): the id of a request is
    [floor(random * 1e9)], an integer from 0 to 999999999 that depends on
    the draw alone and not on the pending table.  [send] stores the request
    under it: the table then maps the id to the new request, every other id
    to what it mapped to before, and still has one entry per id.  A draw
    that hits a live id therefore replaces the live entry. *)
Theorem send_stores_under_drawn_id :
  forall random now payload type k s,
    ws_is_open s = true ->
    (0 <= random (draws (rt s)))%Q -> (random (draws (rt s)) < 1)%Q ->
    let id := Qfloor (random (draws (rt s)) * (1000000000 # 1))%Q in
    let s' := fst (send random now payload type k s) in
    snd (send random now payload type k s) = None
    /\ 0 <= id < 1000000000
    /\ map_get id (pending (cl s'))
       = Some {| pe_promise := nextPromise (rt s); pe_ts := now; pe_type := type |}
    /\ (forall j, j <> id -> map_get j (pending (cl s')) = map_get j (pending (cl s)))
    /\ (NoDup (keys (pending (cl s))) -> NoDup (keys (pending (cl s')))).
Proof.
  intros random now payload type k s Hopen H0 H1 id s'.
  pose proof (nextReqId_range random s H0 H1) as Hr.
  subst s'. unfold send. rewrite Hopen. cbn.
  split; [reflexivity|]. split; [exact Hr|]. split; [|split].
  - apply map_get_set_same.
  - intros j Hj. apply map_get_set_other. exact Hj.
  - apply NoDup_map_set.
Qed.

(** C6 at the first request of a session: it is stored under id 1. *)
Lemma send_stores_under_drawn_id_witness :
  map_get 1 (pending (cl (fst (send counting 0 (ReqTicks (JStr "R_50")) "ticks_subscribe"
                                 (AwaitTicks (JStr "R_50") ByHttp) ready))))
  = Some {| pe_promise := 0; pe_ts := 0; pe_type := "ticks_subscribe" |}.
Proof.
  refine (proj1 (proj2 (proj2
    (send_stores_under_drawn_id counting 0 (ReqTicks (JStr "R_50")) "ticks_subscribe"
       (AwaitTicks (JStr "R_50") ByHttp) ready eq_refl _ _)))).
  - vm_compute. discriminate.
  - vm_compute. reflexivity.
Defined.

(** C6, as stated, fails: after one request with id 7 is pending, the draw
    of the next request can give 7 again; the id handed out is live, and the
    second request takes the place of the first in the table. *)
Lemma colliding_draw_reuses_live_id :
  exists s1 s2,
    run opts0 sevens [(0, EvSubscribe "R_50")] ready = Done s1
    /\ keys (pending (cl s1)) = [7]
    /\ ~ allocatesFreshId sevens s1
    /\ run opts0 sevens [(1, EvSubscribe "R_100")] s1 = Done s2
    /\ pending (cl s2) = [(7, {| pe_promise := 1; pe_ts := 1; pe_type := "ticks_subscribe" |})]
    /\ map fst (promises (rt s2)) = [1%nat; 0%nat].
Proof.
  eexists. eexists.
  split; [vm_compute; reflexivity|].
  split; [vm_compute; reflexivity|].
  split; [intros H; apply H; vm_compute; left; reflexivity|].
  split; [vm_compute; reflexivity|].
  split; vm_compute; reflexivity.
Qed.

(** ** Admission *)

Lemma placeTrade_busy :
  forall random now o s,
    inProgress (trade (st s)) = true ->
    let rid := fst (_nextReqId random s) in
    placeTrade random now o s
    = (set_queue (queue (trade (st s)) ++ [{| requestId := rid; order := o |}])
         (snd (_nextReqId random s)),
       Resolved (TradeReply true rid
                   (Some (Z.of_nat (List.length (queue (trade (st s))) + 1))))).
Proof.
  intros random now o s H rid. unfold placeTrade. cbn.
  rewrite H. cbn. rewrite length_app. reflexivity.
Qed.

(** C3 (as the code has it): with the slot held, [placeTrade] completes at
    once with [queued: true], the id and the new length of the queue, and
    sends nothing.  With the slot free (authorized, socket open) it does not
    complete: it is suspended on the proposal request, and stays suspended
    over the proposal and the buy response; its reply [queued: false] is
    produced when the subscription to the contract is acknowledged.  With
    the slot free and the client not authorized it fails at once. *)
Theorem placeTrade_admission :
  forall random now o s,
    let rid := fst (_nextReqId random s) in
    let payload := {| requestId := rid; order := o |} in
    let s' := fst (placeTrade random now o s) in
    (inProgress (trade (st s)) = true ->
       snd (placeTrade random now o s)
       = Resolved (TradeReply true rid
                     (Some (Z.of_nat (List.length (queue (trade (st s'))))))) 
       /\ queue (trade (st s')) = queue (trade (st s)) ++ [payload]
       /\ active (trade (st s')) = active (trade (st s))
       /\ sent (rt s') = sent (rt s)
       /\ promises (rt s') = promises (rt s))
    /\ (inProgress (trade (st s)) = false ->
        authorized (st s) = true -> ws_is_open s = true ->
        snd (placeTrade random now o s) = Pending
        /\ promises (rt s')
           = (nextPromise (rt s), AwaitProposal payload ByPlaceTrade) :: promises (rt s)
        /\ replies (rt s') = replies (rt s))
    /\ (inProgress (trade (st s)) = false ->
        authorized (st s) = false ->
        snd (placeTrade random now o s) = Rejected (ErrText "Not authorized yet")
        /\ trade (st s') = trade (st s)
        /\ sent (rt s') = sent (rt s))
    /\ (forall res s1,
          truthy (prop "id" (prop "proposal" res)) = true -> ws_is_open s1 = true ->
          let s2 := resume random now (AwaitProposal payload ByPlaceTrade) (inr res) s1 in
          promises (rt s2)
          = (nextPromise (rt s1), AwaitBuy payload ByPlaceTrade) :: promises (rt s1)
          /\ replies (rt s2) = replies (rt s1))
    /\ (forall res s1 a,
          truthy (prop "contract_id" (prop "buy" res)) = true -> ws_is_open s1 = true ->
          active (trade (st s1)) = Some a ->
          let s2 := resume random now (AwaitBuy payload ByPlaceTrade) (inr res) s1 in
          promises (rt s2)
          = (nextPromise (rt s1),
             AwaitOpenContract payload (prop "contract_id" (prop "buy" res)) ByPlaceTrade)
            :: promises (rt s1)
          /\ replies (rt s2) = replies (rt s1))
    /\ (forall cid res s1,
          let s2 := resume random now (AwaitOpenContract payload cid ByPlaceTrade)
                      (inr res) s1 in
          promises (rt s2) = promises (rt s1)
          /\ replies (rt s2) = replies (rt s1) ++ [TradeReply false rid None]).
Proof.
  intros random now o s rid payload s'.
  split; [|split; [|split; [|split; [|split]]]].
  - intros H. subst s'. rewrite (placeTrade_busy random now o s H).
    cbn. rewrite length_app. cbn. repeat split; reflexivity.
  - intros Hfree Hauth Hopen. subst s'.
    unfold placeTrade, _startTrade, send. cbn. rewrite Hfree, Hauth. cbn.
    unfold ws_is_open in *. cbn. destruct (ws (cl s)) as [[| | |]|]; try discriminate.
    cbn. repeat split; reflexivity.
  - intros Hfree Hauth. subst s'.
    unfold placeTrade, _startTrade. cbn. rewrite Hfree, Hauth. cbn.
    repeat split; reflexivity.
  - intros res s1 Hid Hopen s2. subst s2.
    unfold resume, afterProposal, send. rewrite Hid. cbn. rewrite Hopen. cbn.
    split; reflexivity.
  - intros res s1 a Hcid Hopen Ha s2. subst s2.
    unfold resume, afterBuy, send. rewrite Hcid, Ha. cbn.
    unfold ws_is_open in *. cbn. destruct (ws (cl s1)) as [[| | |]|]; try discriminate.
    cbn. split; reflexivity.
  - intros cid res s1 s2. subst s2. cbn. split; reflexivity.
Qed.

(** C3 at scenario B: the second submission, made while the first trade
    holds the slot, is answered at once with position 1. *)
Lemma placeTrade_admission_witness :
  snd (placeTrade counting 10 (digitOrder "DIGITODD")
         (fst (placeTrade counting 0 (digitOrder "DIGITEVEN") ready)))
  = Resolved (TradeReply true 3 (Some 1)).
Proof.
  exact (proj1 (proj1 (placeTrade_admission counting 10 (digitOrder "DIGITODD")
                         (fst (placeTrade counting 0 (digitOrder "DIGITEVEN") ready)))
                  eq_refl)).
Defined.

(** C3, as stated, fails with the slot free: the call of scenario A is
    suspended, nothing has been replied, and its reply arrives with the
    third response of the venue. *)
Lemma submit_with_free_slot_is_suspended :
  snd (placeTrade counting 0 digitEven ready) = Pending
  /\ ~ admitsSynchronously counting 0 digitEven ready
  /\ (exists s1, run opts0 counting
                   [(0, EvTrade digitEven);
                    (40, EvMessage (Json (proposalResponse 2 "p-1")));
                    (80, EvMessage (Json (buyResponse 3 101)))] ready = Done s1
                 /\ replies (rt s1) = [])
  /\ (exists s2, run opts0 counting
                   [(0, EvTrade digitEven);
                    (40, EvMessage (Json (proposalResponse 2 "p-1")));
                    (80, EvMessage (Json (buyResponse 3 101)));
                    (120, EvMessage (Json (contractUpdate 4 101 0 "open")))] ready
                 = Done s2
                 /\ replies (rt s2) = [TradeReply false 1 None]).
Proof.
  split; [vm_compute; reflexivity|].
  split; [intros [r H]; vm_compute in H; discriminate|].
  split; eexists; split; vm_compute; reflexivity.
Qed.

(** ** A proposal response without an id *)

(** When the proposal response has no id, the start sequence throws
    "No proposal id returned" at once (line 251): nothing is sent (no buy
    request), no request is left pending or awaited (no retry), no timer is
    armed.  The error goes to whoever awaits the start: for a trade started
    from the queue by [_finishTrade] the [.catch] handler (lines 292-298)
    records it in [lastResult] with status "error" and frees the slot; for a
    trade started by [placeTrade] it is the reply to the caller, and that
    is all. *)
Theorem proposal_without_id_fails_start :
  forall random now p c res s,
    truthy (prop "id" (prop "proposal" res)) = false ->
    let s' := resume random now (AwaitProposal p c) (inr res) s in
    advance random now (AwaitProposal p c) (inr res) s
    = Some (p, c, s, Threw (ErrText "No proposal id returned"))
    /\ sent (rt s') = sent (rt s)
    /\ promises (rt s') = promises (rt s)
    /\ pending (cl s') = pending (cl s)
    /\ timers (rt s') = timers (rt s)
    /\ match c with
       | ByPlaceTrade =>
           replies (rt s')
           = replies (rt s)
             ++ [TradeError (requestId p) (ErrText "No proposal id returned")]
       | ByFinishTrade =>
           replies (rt s') = replies (rt s)
           /\ trade (st s')
              = {| inProgress := false; queue := queue (trade (st s));
                   lastResult := Some (errorResult (ErrText "No proposal id returned") now);
                   active := None |}
       end.
Proof.
  intros random now p c res s H s'. subst s'.
  unfold advance, resume, afterProposal. rewrite H. cbn.
  destruct c; cbn; repeat split; reflexivity.
Qed.

(** The same failure on the other path: the second trade of
    [secondSettledEarly] was started from the queue and holds the slot; the
    response to its proposal request 6 has no id, the error is recorded and
    the slot is free. *)
Lemma proposal_without_id_fails_start_witness :
  inProgress (trade (st secondProposing)) = true
  /\ run opts0 counting [(160, EvMessage (Json (proposalWithoutId 6)))] secondProposing
     = Done (resume counting 160
               (AwaitProposal {| requestId := 3; order := digitOrder "DIGITODD" |}
                  ByFinishTrade)
               (inr (proposalWithoutId 6))
               (fst (resolvePending (proposalWithoutId 6) secondProposing)))
  /\ trade (st (resume counting 160
                  (AwaitProposal {| requestId := 3; order := digitOrder "DIGITODD" |}
                     ByFinishTrade)
                  (inr (proposalWithoutId 6))
                  (fst (resolvePending (proposalWithoutId 6) secondProposing))))
     = {| inProgress := false; queue := [];
          lastResult := Some (errorResult (ErrText "No proposal id returned") 160);
          active := None |}.
Proof.
  split; [vm_compute; reflexivity|].
  split; [vm_compute; reflexivity|].
  exact (proj2 (proj2 (proj2 (proj2 (proj2 (proj2
    (proposal_without_id_fails_start counting 160
       {| requestId := 3; order := digitOrder "DIGITODD" |} ByFinishTrade
       (proposalWithoutId 6)
       (fst (resolvePending (proposalWithoutId 6) secondProposing)) eq_refl))))))).
Defined.

(** The slot of a trade started by [placeTrade] is not touched by the
    failure of its start sequence. *)
Lemma direct_start_failure_keeps_slot :
  forall random now k r s p s1 e,
    advance random now k r s = Some (p, ByPlaceTrade, s1, Threw e) ->
    trade (st (resume random now k r s)) = trade (st s1)
    /\ replies (rt (resume random now k r s))
       = replies (rt s1) ++ [TradeError (requestId p) e].
Proof.
  intros random now k r s p s1 e H.
  rewrite (resume_advance _ _ _ _ _ _ _ _ _ H). cbn. split; reflexivity.
Qed.

(** C4 in scenario C: the trade is submitted with the slot free and the
    proposal response has no id.  The caller of [placeTrade] gets the error
    "No proposal id returned" and no buy request is sent, but the slot is
    not released: [inProgress] stays set and the failed trade stays the
    active one, with no request pending that could still change that, so
    the trade has not failed and released the slot, whichever of the two
    reason texts is meant.  The next submission is queued behind the failed
    trade, at position 1, and nothing is left that would start it. *)
Lemma scenario_C_keeps_the_slot :
  exists s1 s2,
    run opts0 counting
      [(0, EvTrade digitEven); (40, EvMessage (Json (proposalWithoutId 2)))] ready
    = Done s1
    /\ replies (rt s1) = [TradeError 1 (ErrText "No proposal id returned")]
    /\ existsb isBuy (sent (rt s1)) = false
    /\ inProgress (trade (st s1)) = true
    /\ option_map a_requestId (active (trade (st s1))) = Some 1
    /\ promises (rt s1) = []
    /\ ~ failedAndReleased "missing proposal id" 1 s1
    /\ ~ failedAndReleased "No proposal id returned" 1 s1
    /\ run opts0 counting [(50, EvTrade digitEven)] s1 = Done s2
    /\ replies (rt s2) = [TradeError 1 (ErrText "No proposal id returned");
                          TradeReply true 3 (Some 1)]
    /\ promises (rt s2) = [].
Proof.
  eexists. eexists.
  split; [vm_compute; reflexivity|].
  do 5 (split; [vm_compute; reflexivity|]).
  split; [intros (_ & _ & H & _); vm_compute in H; discriminate|].
  split; [intros (_ & _ & H & _); vm_compute in H; discriminate|].
  split; [vm_compute; reflexivity|].
  split; vm_compute; reflexivity.
Qed.

(** ** Failure of the next queued trade *)

(** C7: a failure of the start of the next queued trade stays inside the
    finalize step.  When [_startTrade(next)] fails before its first await
    (not authorized, or the socket is not open) [_finishTrade] still
    completes, and the [.catch] handler it queued records the error in
    [lastResult] with status "error" and frees the slot; the same holds when
    the start sequence of a trade taken from the queue fails later, at any
    of its three awaits. *)
Theorem next_trade_failure_is_contained :
  forall random now,
    (forall s next rest,
        queue (trade (st s)) = next :: rest ->
        authorized (st s) = false \/ ws_is_open s = false ->
        exists e,
          snd (_finishTrade random now s) = Some e
          /\ (e = ErrText "Not authorized yet" \/ e = ErrText "WebSocket not open")
          /\ status (errorResult e now) = JStr "error"
          /\ trade (st (runCatch now (Some e) (fst (_finishTrade random now s))))
             = {| inProgress := false; queue := rest;
                  lastResult := Some (errorResult e now); active := None |})
    /\ (forall k r s p s1 e,
          advance random now k r s = Some (p, ByFinishTrade, s1, Threw e) ->
          trade (st (resume random now k r s))
          = {| inProgress := false; queue := queue (trade (st s));
               lastResult := Some (errorResult e now); active := None |}).
Proof.
  intros random now. split.
  - intros s next rest Hq Hfail.
    unfold _finishTrade. cbn. rewrite Hq. unfold _startTrade. cbn.
    destruct (authorized (st s)) eqn:Ha; cbn.
    + destruct Hfail as [Hfail|Hfail]; [discriminate|].
      unfold send, ws_is_open in *. cbn.
      destruct (ws (cl s)) as [[| | |]|]; try discriminate;
        (eexists; split; [reflexivity|]; split; [right; reflexivity|];
         split; reflexivity).
    + eexists. split; [reflexivity|]. split; [left; reflexivity|].
      split; reflexivity.
  - intros k r s p s1 e H.
    rewrite (resume_advance _ _ _ _ _ _ _ _ _ H). cbn.
    rewrite (advance_keeps_queue _ _ _ _ _ _ _ _ _ H). reflexivity.
Qed.

(** C7 while the connection is down: the trade that waits for contract 101
    times out with another trade queued behind it; the queued trade cannot
    start ("Not authorized yet"), the error is recorded and the slot is
    free. *)
Lemma next_trade_failure_is_contained_witness :
  exists e,
    snd (_finishTrade counting 30120 queuedWhileDown) = Some e
    /\ (e = ErrText "Not authorized yet" \/ e = ErrText "WebSocket not open")
    /\ status (errorResult e 30120) = JStr "error"
    /\ trade (st (runCatch 30120 (Some e) (fst (_finishTrade counting 30120 queuedWhileDown))))
       = {| inProgress := false; queue := [];
            lastResult := Some (errorResult e 30120); active := None |}.
Proof.
  exact (proj1 (next_trade_failure_is_contained counting 30120)
           queuedWhileDown {| requestId := 5; order := digitOrder "DIGITODD" |} []
           eq_refl (or_introl eq_refl)).
Defined.

(** ** A trade is finalized once *)

(** "No active trade carries [c]" is a closed predicate, for messages that
    do not hand out [c]. *)
Lemma released_closed :
  forall opts random c,
    truthy c = true ->
    Closed opts random (fun s => heldBy c s = false)
      (fun cid => strict_eq cid c = false).
Proof.
  intros opts random c Hc. constructor.
  - intros s0 s' Ht _ _ _ _ _. unfold heldBy. rewrite Ht. auto.
  - intros now payload type k s0. unfold heldBy. rewrite send_st. auto.
  - intros n s0. unfold heldBy. rewrite settle_st. auto.
  - intros s0 H0. exact H0.
  - intros k s0 H0. exact H0.
  - intros s0 H0. exact H0.
  - reflexivity.
  - intros s0 rid t p _. apply strict_eq_null_truthy, Hc.
  - intros s0 a cid _ _ _ Hok. exact Hok.
  - intros q s0 H0. exact H0.
  - intros r s0 H0. exact H0.
  - intros msg s0 H0. unfold onTick. destruct (strict_eq _ _); [|exact H0].
    destruct (logTicks opts && nullish (prop "tick" msg)); exact H0.
  - intros sym s0 H0. exact H0.
Qed.

(** Once no active trade carries [c], none does after any sequence of
    events in which the venue does not hand out [c] again. *)
Lemma released_stays_released :
  forall opts random c tr s,
    truthy c = true ->
    heldBy c s = false ->
    Forall (fun x => allowedEvent (fun cid => strict_eq cid c = false) (snd x)) tr ->
    heldBy c (outcome_state (run opts random tr s)) = false.
Proof.
  intros opts random c tr s Hc H Htr.
  exact (run_preserves opts random _ _ (released_closed opts random c Hc) tr s H Htr).
Qed.

Lemma finishTrade_releases :
  forall random now c s,
    truthy c = true -> heldBy c (fst (_finishTrade random now s)) = false.
Proof.
  intros random now c s Hc. unfold _finishTrade. cbn.
  destruct (queue (trade (st s))) as [|next rest]; [reflexivity|].
  unfold _startTrade. cbn.
  destruct (authorized (st s)); cbn; [|reflexivity].
  unfold heldBy. rewrite send_st. cbn. apply strict_eq_null_truthy, Hc.
Qed.

Lemma runCatch_releases :
  forall now caught c s, heldBy c s = false -> heldBy c (runCatch now caught s) = false.
Proof.
  intros now [e|] c s H; [reflexivity|exact H].
Qed.

Lemma guardOf_heldBy :
  forall c f s,
    finalizerFor c f ->
    guardOf c f s = heldBy c s && match f with
                                  | ByTimeout => inProgress (trade (st s))
                                  | BySettlement _ => true
                                  end.
Proof.
  intros c f s Hf. destruct f as [|poc]; cbn.
  - unfold timeoutGuard, heldBy. destruct (active (trade (st s))); reflexivity.
  - destruct Hf as (Ht & Hc & _). rewrite Ht, andb_true_r. cbn.
    unfold settlementGuard, heldBy.
    destruct (active (trade (st s))) as [a|]; [|reflexivity].
    apply strict_eq_compat, Hc.
Qed.

Lemma finalize_guarded :
  forall random now c f s,
    finalizerFor c f ->
    finalize random now c f s
    = if guardOf c f s
      then runCatch now
             (snd (_finishTrade random now (set_lastResult (finalizeResult c now f) s)))
             (fst (_finishTrade random now (set_lastResult (finalizeResult c now f) s)))
      else s.
Proof.
  intros random now c f s Hf. destruct f as [|poc]; cbn.
  - unfold tradeTimeout. destruct (timeoutGuard c s); [|reflexivity].
    destruct (_finishTrade random now _); reflexivity.
  - destruct Hf as (Ht & _ & Hfin). unfold onSettlement. rewrite Ht, Hfin. cbn.
    destruct (settlementGuard poc s); cbn; [|reflexivity].
    destruct (_finishTrade random now _); reflexivity.
Qed.

Lemma held_slot_is_in_progress :
  forall c s, slotConsistent s -> heldBy c s = true -> inProgress (trade (st s)) = true.
Proof.
  intros c s H Hh. unfold slotConsistent in H. unfold heldBy in Hh. rewrite H.
  destruct (active (trade (st s))); [reflexivity|discriminate].
Qed.

(** C2, for a venue that gives a contract id to one trade only: let the
    active trade carry the contract id [c], and let [first] and [later] be
    two finalizers of [c] (its timeout and a final settlement event, in
    either order, or two such events).  [first] finds its guard true and
    finalizes: it writes its result and runs [_finishTrade], after which no
    active trade carries [c].  After any further events in which the venue
    does not hand out [c] to another trade, [later] finds its guard false
    and leaves the whole state, [lastResult] and the slot included, as it
    is. *)
Theorem finalize_takes_effect_once :
  forall opts random c first later now now' tr s,
    truthy c = true ->
    finalizerFor c first -> finalizerFor c later ->
    heldBy c s = true -> inProgress (trade (st s)) = true ->
    Forall (fun x => allowedEvent (fun cid => strict_eq cid c = false) (snd x)) tr ->
    let fin := _finishTrade random now (set_lastResult (finalizeResult c now first) s) in
    let s1 := finalize random now c first s in
    let s2 := outcome_state (run opts random tr s1) in
    guardOf c first s = true
    /\ s1 = runCatch now (snd fin) (fst fin)
    /\ heldBy c s1 = false
    /\ guardOf c later s2 = false
    /\ finalize random now' c later s2 = s2.
Proof.
  intros opts random c first later now now' tr s Hc Hf Hl Hheld Hprog Htr fin s1 s2.
  assert (Hg : guardOf c first s = true).
  { rewrite (guardOf_heldBy c first s Hf), Hheld, Hprog. destruct first; reflexivity. }
  assert (H1 : s1 = runCatch now (snd fin) (fst fin)).
  { subst s1 fin. rewrite (finalize_guarded random now c first s Hf), Hg. reflexivity. }
  assert (Hfree : heldBy c s1 = false).
  { rewrite H1. apply runCatch_releases. subst fin. apply finishTrade_releases, Hc. }
  assert (H2 : heldBy c s2 = false).
  { subst s2. apply released_stays_released; assumption. }
  assert (Hg2 : guardOf c later s2 = false).
  { rewrite (guardOf_heldBy c later s2 Hl), H2. reflexivity. }
  repeat split; try assumption.
  rewrite (finalize_guarded random now' c later s2 Hl), Hg2. reflexivity.
Qed.

(** C2 with the timeout first: contract 101 times out, another trade is
    submitted and answered, and then the settlement event of contract 101
    arrives. *)
Lemma finalize_takes_effect_once_witness :
  lastResult (trade (st (finalize counting 30120 (num 101) ByTimeout awaitingSettlement)))
  = Some (timeoutResult (num 101) 30120)
  /\ finalize counting 30500 (num 101) (BySettlement won101)
       (outcome_state
          (run opts0 counting
             [(30200, EvTrade digitEven);
              (30240, EvMessage (Json (proposalResponse 6 "p-2")))]
             (finalize counting 30120 (num 101) ByTimeout awaitingSettlement)))
     = outcome_state
         (run opts0 counting
            [(30200, EvTrade digitEven);
             (30240, EvMessage (Json (proposalResponse 6 "p-2")))]
            (finalize counting 30120 (num 101) ByTimeout awaitingSettlement)).
Proof.
  assert (Htr : Forall (fun x => allowedEvent (fun cid => strict_eq cid (num 101) = false)
                                   (snd x))
                  [(30200, EvTrade digitEven);
                   (30240, EvMessage (Json (proposalResponse 6 "p-2")))]).
  { repeat constructor; intros msg E; inversion E; reflexivity. }
  destruct (finalize_takes_effect_once opts0 counting (num 101) ByTimeout
              (BySettlement won101) 30120 30500 _ awaitingSettlement
              eq_refl I (conj eq_refl (conj eq_refl eq_refl)) eq_refl eq_refl Htr)
    as (_ & H1 & _ & _ & H2).
  split; [|exact H2].
  rewrite H1. reflexivity.
Defined.

(** C2, as stated, fails when the venue hands out the contract id of a
    settled trade again.  In [contractIdReused] the settlement event of
    contract 101 is the first finalizer: at 120 ms it writes [lastResult]
    and clears the active trade.  The trade submitted at 29000 ms is given
    the contract id 101 as well.  The timeout of the first trade, armed for
    30120 ms and never cleared, is the later finalizer of 101: it finds its
    guard true, overwrites [lastResult] and frees the slot that the second
    trade holds. *)
Lemma reused_contract_id_is_timed_out_early :
  exists s0 s1 s2,
    run opts0 counting (firstn 4 contractIdReused) ready = Done s0
    /\ lastResult (trade (st s0))
       = Some (settlementResult
                 (prop "proposal_open_contract" (contractUpdate 4 101 1 "won")) 120)
    /\ active (trade (st s0)) = None
    /\ run opts0 counting contractIdReused ready = Done s1
    /\ lastResult (trade (st s1)) = lastResult (trade (st s0))
    /\ option_map a_requestId (active (trade (st s1))) = Some 5
    /\ heldBy (num 101) s1 = true
    /\ nth_error (timers (rt s1)) 0 = Some (TTrade (num 101))
    /\ guardOf (num 101) ByTimeout s1 = true
    /\ run opts0 counting [(30120, EvTimer 0)] s1 = Done s2
    /\ active (trade (st s2)) = None
    /\ inProgress (trade (st s2)) = false
    /\ lastResult (trade (st s2)) = Some (timeoutResult (num 101) 30120).
Proof.
  do 3 eexists.
  do 12 (split; [vm_compute; reflexivity|]).
  vm_compute. reflexivity.
Qed.

(** ** Resolution and expiry of a pending request *)





(** A message whose [req_id] is 0 resolves nothing, whatever is pending:
    line 79 tests the truthiness of [msg.req_id].  A request that draws the
    id 0 can only expire. *)
Lemma zero_req_id_resolves_nothing :
  forall msg s, as_key (prop "req_id" msg) = Some 0 -> resolvePending msg s = (s, None).
Proof.
  intros msg s H. unfold resolvePending.
  destruct (prop "req_id" msg) as [| | |q| | |]; try discriminate.
  cbn in H. destruct (Qeq_bool q (inject_Z (Qfloor q))) eqn:E; [|discriminate].
  inversion H as [H0]. rewrite H0 in E. cbn [truthy].
  change (inject_Z 0) with 0%Q in E. rewrite E. reflexivity.
Qed.





(** ** Single flight *)

(** The part of C1 that holds: with the slot held a submission is appended
    to the queue and nothing is started. *)
Lemma busy_submission_is_queued :
  forall opts random now o s,
    inProgress (trade (st s)) = true ->
    exists s',
      step opts random now (EvTrade o) s = Done s'
      /\ queue (trade (st s'))
         = queue (trade (st s)) ++ [{| requestId := fst (_nextReqId random s); order := o |}]
      /\ active (trade (st s')) = active (trade (st s))
      /\ inProgress (trade (st s')) = true
      /\ promises (rt s') = promises (rt s)
      /\ sent (rt s') = sent (rt s).
Proof.
  intros opts random now o s H. cbn [step].
  rewrite (placeTrade_busy random now o s H).
  eexists. split; [reflexivity|]. cbn. rewrite H. repeat split; reflexivity.
Qed.

(** C1 fails on this sequence of submissions and messages.  The second
    trade is started from the queue and is finalized by the settlement event
    of its contract while its subscription request is unanswered.  A third
    trade then takes the slot.  When the safety timeout of the subscription
    request fires, the start sequence of the second trade throws and the
    [.catch] handler of [_finishTrade] clears [active] and [inProgress],
    which belong to the third trade by now.  The fourth submission finds the
    slot free and is started: two trades are Proposing at once. *)
Theorem stale_catch_frees_a_held_slot :
  exists s1 s2 s3 s4,
    run opts0 counting secondSettledEarly ready = Done s1
    /\ inProgress (trade (st s1)) = false
    /\ map fst (pending (cl s1)) = [8]
    /\ run opts0 counting thirdSubmitted s1 = Done s2
    /\ starting s2 = [(9, Proposing)]
    /\ inProgress (trade (st s2)) = true
    /\ option_map a_requestId (active (trade (st s2))) = Some 9
    /\ nth_error (timers (rt s2)) 1 = Some (TRequest 8 5 "proposal_open_contract")
    /\ run opts0 counting staleTimeout s2 = Done s3
    /\ starting s3 = [(9, Proposing)]
    /\ inProgress (trade (st s3)) = false
    /\ active (trade (st s3)) = None
    /\ option_map status (lastResult (trade (st s3))) = Some (JStr "error")
    /\ run opts0 counting fourthSubmitted s3 = Done s4
    /\ starting s4 = [(11, Proposing); (9, Proposing)]
    /\ option_map a_requestId (active (trade (st s4))) = Some 11
    /\ map fst (pending (cl s4)) = [10; 12]
    /\ ~ singleFlight s4.
Proof.
  do 4 eexists.
  split; [vm_compute; reflexivity|].
  do 16 (split; [vm_compute; reflexivity|]).
  unfold singleFlight. intros H. vm_compute in H. lia.
Qed.

(** The same happens when the venue refuses the subscription request 8
    instead of leaving it unanswered: submissions and inbound messages alone
    bring two trades under way. *)
Lemma stale_catch_after_refusal :
  exists s,
    run opts0 counting
      (secondSettledEarly ++ thirdSubmitted
       ++ [(15190, EvMessage (Json (refusal 8)))] ++ fourthSubmitted) ready = Done s
    /\ starting s = [(11, Proposing); (9, Proposing)]
    /\ option_map a_requestId (active (trade (st s))) = Some 11.
Proof.
  eexists. split; [vm_compute; reflexivity|].
  split; vm_compute; reflexivity.
Qed.

(** It also happens with a venue that answers every request and echoes
    [req_id] in every update of a contract, when the subscription request
    of the second trade draws the id 0: the answer is not recognized (line
    79), the updates still settle the trade, and the request expires. *)
Lemma stale_catch_with_request_id_zero :
  exists s1 s,
    run opts0 eighthIsZero secondSettledUnderIdZero ready = Done s1
    /\ map fst (pending (cl s1)) = [0]
    /\ inProgress (trade (st s1)) = false
    /\ option_map status (lastResult (trade (st s1))) = Some (JStr "won")
    /\ run opts0 eighthIsZero (thirdSubmitted ++ staleTimeout ++ fourthSubmitted) s1
       = Done s
    /\ starting s = [(11, Proposing); (9, Proposing)]
    /\ option_map a_requestId (active (trade (st s))) = Some 11
    /\ option_map status (lastResult (trade (st s))) = Some (JStr "error").
Proof.
  do 2 eexists.
  do 7 (split; [vm_compute; reflexivity|]).
  vm_compute. reflexivity.
Qed.

(** * Further properties of the client and of the routes *)

(** ** Reconnection delay *)

Lemma pow2_le_mono : forall a b, 0 <= a <= b -> 2 ^ a <= 2 ^ b.
Proof.
  intros a b H. apply Z.pow_le_mono_r; lia.
Qed.

(** X1: the delay that [_reconnect] computes (lines 162-165) for a base
    delay and a maximum that are not negative lies between 0 and the
    maximum, does not decrease with the number of attempts, and is the same
    from the eighth attempt on; the sleep that a close event arms is such a
    delay. *)
Theorem reconnect_delay_is_bounded_and_monotone :
  forall opts random now s j k,
    0 <= reconnectBaseDelayMs opts ->
    0 <= reconnectMaxDelayMs opts ->
    0 <= j <= k ->
    0 <= reconnectDelay opts j <= reconnectMaxDelayMs opts
    /\ reconnectDelay opts j <= reconnectDelay opts k
    /\ (8 <= j -> reconnectDelay opts j = reconnectDelay opts 8)
    /\ exists d,
         timers (rt (outcome_state (step opts random now EvClose s)))
         = timers (rt s) ++ [TSleep d]
         /\ 0 <= d <= reconnectMaxDelayMs opts.
Proof.
  intros opts random now s j k Hb Hm Hjk. unfold reconnectDelay.
  assert (Hp : forall a, 0 <= 2 ^ a) by (intros a; apply Z.pow_nonneg; lia).
  assert (Hmono : reconnectBaseDelayMs opts * 2 ^ Z.min j 8
                  <= reconnectBaseDelayMs opts * 2 ^ Z.min k 8).
  { apply Z.mul_le_mono_nonneg_l; [exact Hb|]. apply pow2_le_mono. lia. }
  pose proof (Hp (Z.min j 8)) as Hj.
  split; [|split; [|split]].
  - assert (0 <= reconnectBaseDelayMs opts * 2 ^ Z.min j 8) by (apply Z.mul_nonneg_nonneg; assumption).
    lia.
  - lia.
  - intros H8. replace (Z.min j 8) with (Z.min 8 8) by lia. reflexivity.
  - cbn [step outcome_state].
    destruct (onClose_backoff opts random now (set_ws (Some CLOSED) s)) as [_ H].
    eexists. split; [exact H|]. unfold reconnectDelay.
    assert (0 <= reconnectBaseDelayMs opts
                 * 2 ^ Z.min (reconnectAttempt (cl (set_ws (Some CLOSED) s)) + 1) 8).
    { apply Z.mul_nonneg_nonneg; [exact Hb|apply Hp]. }
    lia.
Qed.

(** X1 with the default options, at the attempts 3 and 9, and for a close in the state [ready]. *)
Lemma reconnect_delay_is_bounded_and_monotone_witness :
  0 <= reconnectDelay opts0 3 <= 10000
  /\ reconnectDelay opts0 3 <= reconnectDelay opts0 9
  /\ (8 <= 3 -> reconnectDelay opts0 3 = reconnectDelay opts0 8)
  /\ exists d,
       timers (rt (outcome_state (step opts0 counting 0 EvClose ready)))
       = timers (rt ready) ++ [TSleep d]
       /\ 0 <= d <= 10000.
Proof.
  apply (reconnect_delay_is_bounded_and_monotone opts0 counting 0 ready 3 9).
  - vm_compute. discriminate.
  - vm_compute. discriminate.
  - lia.
Defined.

(** ** The socket *)

(** X2: [connect] (lines 32-41) does nothing while a socket is open or
    being opened, so calling it twice is calling it once; otherwise it
    starts a new socket and clears the flags [connected] and [authorized],
    and it leaves the pending requests and the trade state, the active
    trade included, as they are. *)
Theorem connect_is_guarded :
  forall s,
    connect (connect s) = connect s
    /\ (ws (cl s) = Some OPEN \/ ws (cl s) = Some CONNECTING -> connect s = s)
    /\ (ws (cl s) <> Some OPEN -> ws (cl s) <> Some CONNECTING ->
        ws (cl (connect s)) = Some CONNECTING
        /\ connected (st (connect s)) = false
        /\ authorized (st (connect s)) = false)
    /\ pending (cl (connect s)) = pending (cl s)
    /\ trade (st (connect s)) = trade (st s)
    /\ rt (connect s) = rt s.
Proof.
  intros s. unfold connect.
  destruct (ws (cl s)) as [[| | |]|] eqn:E; cbn; rewrite ?E;
    repeat split; try reflexivity; try congruence;
    try (intros [H|H]; congruence).
Qed.

(** ** POST /trade *)

Lemma isMissing_spec : forall v, isMissing v = true <-> notGiven v.
Proof.
  intros v. unfold isMissing, notGiven. split.
  - destruct v as [| |b|q|x|f|l]; cbn; try discriminate; auto.
    intros H. apply String.eqb_eq in H. subst. auto.
  - intros [->|[->| ->]]; reflexivity.
Qed.

Lemma isMissing_false : forall v, isMissing v = false <-> ~ notGiven v.
Proof.
  intros v. rewrite <- isMissing_spec. destruct (isMissing v); split; congruence.
Qed.

(** X3: the validation of POST /trade (server.js, lines 67-73) accepts a
    body exactly when [contract_type], [duration] and [stake] are each given
    (not undefined, null or the empty string; 0 and false are given);
    otherwise the error names the first of the three, in this order, that is
    not given.  A body that is not an object is refused for
    [contract_type]. *)
Theorem trade_body_validation :
  forall reqBody,
    let field := fun k => prop k (js_or reqBody (JObj [])) in
    match tradeBodyError reqBody with
    | None =>
        ~ notGiven (field "contract_type")
        /\ ~ notGiven (field "duration")
        /\ ~ notGiven (field "stake")
    | Some e =>
        (notGiven (field "contract_type") /\ e = "contract_type is required")
        \/ (~ notGiven (field "contract_type") /\ notGiven (field "duration")
            /\ e = "duration is required")
        \/ (~ notGiven (field "contract_type") /\ ~ notGiven (field "duration")
            /\ notGiven (field "stake") /\ e = "stake is required")
    end
    /\ ((forall f, reqBody <> JObj f) ->
        tradeBodyError reqBody = Some "contract_type is required").
Proof.
  intros reqBody field. split.
  - unfold tradeBodyError, required. cbn [find]. fold (field "contract_type").
    fold (field "duration"). fold (field "stake").
    destruct (isMissing (field "contract_type")) eqn:E1.
    { left. split; [apply isMissing_spec, E1|reflexivity]. }
    apply isMissing_false in E1.
    destruct (isMissing (field "duration")) eqn:E2.
    { right. left. split; [exact E1|]. split; [apply isMissing_spec, E2|reflexivity]. }
    apply isMissing_false in E2.
    destruct (isMissing (field "stake")) eqn:E3.
    { right. right. repeat split; try assumption. apply isMissing_spec, E3. }
    apply isMissing_false in E3. repeat split; assumption.
  - intros Hno. unfold tradeBodyError, required, js_or.
    destruct reqBody as [| |b|q|x|f|l]; try reflexivity.
    + destruct (truthy (JBool b)); reflexivity.
    + destruct (truthy (JNum q)); reflexivity.
    + destruct (truthy (JStr x)); reflexivity.
    + exfalso. apply (Hno f). reflexivity.
Qed.

(** ** A subscription without an open socket *)

(** X4: POST /subscribe with a symbol while the socket is not open fails
    with "WebSocket not open", and nothing is sent; but [subscribeTicks] has
    set [ticks.symbol] and emptied the buffer before [send] threw (lines
    197-199), so the ticks buffered so far are gone. *)
Theorem subscribe_without_open_socket :
  forall opts random now sym s,
    sym <> "" -> ws_is_open s = false ->
    exists s',
      step opts random now (EvSubscribe sym) s = Done s'
      /\ replies (rt s') = replies (rt s) ++ [SubscribeError (ErrText "WebSocket not open")]
      /\ ticks (st s') = {| symbol := JStr sym; last := last (ticks (st s)); buffer := [] |}
      /\ sent (rt s') = sent (rt s)
      /\ pending (cl s') = pending (cl s)
      /\ timers (rt s') = timers (rt s).
Proof.
  intros opts random now sym s Hsym Hopen. cbn [step].
  destruct (String.eqb_spec sym "") as [E|_]; [contradiction|].
  unfold subscribeTicks, send.
  assert (H : ws_is_open
                (set_ticks {| symbol := JStr sym; last := last (ticks (st s)); buffer := [] |} s)
              = false) by exact Hopen.
  rewrite H. cbn.
  eexists. split; [reflexivity|]. cbn. repeat split; reflexivity.
Qed.

(** X4 before the first connection. *)
Lemma subscribe_without_open_socket_witness :
  exists s',
    step opts0 counting 0 (EvSubscribe "R_100") (initial "R_50" "USD") = Done s'
    /\ replies (rt s')
       = replies (rt (initial "R_50" "USD")) ++ [SubscribeError (ErrText "WebSocket not open")]
    /\ ticks (st s')
       = {| symbol := JStr "R_100"; last := last (ticks (st (initial "R_50" "USD")));
            buffer := [] |}
    /\ sent (rt s') = sent (rt (initial "R_50" "USD"))
    /\ pending (cl s') = pending (cl (initial "R_50" "USD"))
    /\ timers (rt s') = timers (rt (initial "R_50" "USD")).
Proof.
  apply (subscribe_without_open_socket opts0 counting 0 "R_100" (initial "R_50" "USD")).
  - discriminate.
  - reflexivity.
Defined.

(** ** Frames that are JSON but not an object *)

(** X5: a frame whose JSON value is a number, a string, a boolean or an
    array is ignored, like a frame that is not JSON; the frame [null] is
    not: [msg.req_id] (line 79) throws a TypeError that nothing catches.
    The state is unchanged in both cases.  ([JSON.parse] does not return
    [undefined].) *)
Theorem frame_that_is_not_an_object :
  forall opts random now v s,
    v <> JUndefined ->
    (forall f, v <> JObj f) ->
    step opts random now (EvMessage (Json v)) s
    = match v with
      | JNull =>
          Uncaught (ErrTypeError "Cannot read properties of null (reading 'req_id')") s
      | _ => Done s
      end.
Proof.
  intros opts random now v s Hu Hno.
  destruct v as [| |b|q|x|f|l]; try reflexivity.
  - contradiction.
  - exfalso. apply (Hno f). reflexivity.
Qed.

(** X5 for an array and for [null]. *)
Lemma frame_that_is_not_an_object_witness :
  step opts0 counting 0 (EvMessage (Json (JArr [num 1; JStr "tick"]))) ready = Done ready
  /\ step opts0 counting 0 (EvMessage (Json JNull)) ready
     = Uncaught (ErrTypeError "Cannot read properties of null (reading 'req_id')") ready.
Proof.
  split.
  - apply (frame_that_is_not_an_object opts0 counting 0 (JArr [num 1; JStr "tick"]) ready).
    + discriminate.
    + intros f H. discriminate H.
  - apply (frame_that_is_not_an_object opts0 counting 0 JNull ready).
    + discriminate.
    + intros f H. discriminate H.
Defined.

(** ** Ticks *)

Lemma onTick_effect :
  forall opts msg s,
    strict_eq (prop "msg_type" msg) (JStr "tick") = true ->
    0 <= maxTicksBuffer opts ->
    onTick opts msg s
    = let s1 := set_ticks
                  {| symbol := js_or (prop "symbol" (prop "tick" msg)) (symbol (ticks (st s)));
                     last := prop "tick" msg;
                     buffer := lastn (Z.to_nat (maxTicksBuffer opts))
                                 (buffer (ticks (st s)) ++ [prop "tick" msg]) |} s in
      if logTicks opts && nullish (prop "tick" msg)
      then Uncaught (ErrTypeError "Cannot read properties of undefined (reading 'quote')") s1
      else Done s1.
Proof.
  intros opts msg s Ht HC. unfold onTick. rewrite Ht.
  set (pushed := buffer (ticks (st s)) ++ [prop "tick" msg]).
  assert (E : (if Z.of_nat (List.length pushed) >? maxTicksBuffer opts
               then splice_front (Z.of_nat (List.length pushed) - maxTicksBuffer opts) pushed
               else pushed)
              = lastn (Z.to_nat (maxTicksBuffer opts)) pushed).
  { destruct (Z.gtb_spec (Z.of_nat (List.length pushed)) (maxTicksBuffer opts)) as [E|E].
    - unfold splice_front, lastn. f_equal. lia.
    - symmetry. apply lastn_all. lia. }
  rewrite E. reflexivity.
Qed.

Lemma tick_message_runs_onTick :
  forall opts random now msg s,
    strict_eq (prop "msg_type" msg) (JStr "tick") = true ->
    truthy (prop "req_id" msg) = false ->
    step opts random now (EvMessage (Json msg)) s
    = match onTick opts msg s with
      | Done s1 => Done (onError msg s1)
      | Uncaught e s1 => Uncaught e s1
      end.
Proof.
  intros opts random now msg s Ht Hreq.
  pose proof (strict_eq_JStr_inv _ _ Ht) as Ht'.
  assert (Hn : nullish msg = false).
  { destruct msg; try discriminate; reflexivity. }
  cbn [step]. unfold onMessage. cbn [JSON_parse]. rewrite Hn.
  unfold resolvePending. rewrite Hreq. cbn [andb].
  destruct (onTick opts msg s) as [s1|e s1]; [|reflexivity].
  unfold onBuy, onOpenContract. rewrite Ht'. reflexivity.
Qed.

(** X6: a message of type "tick" that carries no tick object (and no
    [req_id]) is still taken as a tick (lines 87-95): [undefined] becomes
    [ticks.last] and is pushed to the buffer, which is cut to the capacity,
    and [ticks.symbol] stays.  With [logTicks] set, [msg.tick.quote] (line
    94) then throws a TypeError that nothing catches. *)
Theorem tick_message_without_tick :
  forall opts random now msg s,
    strict_eq (prop "msg_type" msg) (JStr "tick") = true ->
    prop "tick" msg = JUndefined ->
    truthy (prop "req_id" msg) = false ->
    0 <= maxTicksBuffer opts ->
    let s1 := set_ticks
                {| symbol := symbol (ticks (st s)); last := JUndefined;
                   buffer := lastn (Z.to_nat (maxTicksBuffer opts))
                               (buffer (ticks (st s)) ++ [JUndefined]) |} s in
    step opts random now (EvMessage (Json msg)) s
    = if logTicks opts
      then Uncaught (ErrTypeError "Cannot read properties of undefined (reading 'quote')") s1
      else Done (onError msg s1).
Proof.
  intros opts random now msg s Ht Htick Hreq HC s1.
  rewrite (tick_message_runs_onTick opts random now msg s Ht Hreq).
  rewrite (onTick_effect opts msg s Ht HC). rewrite Htick. cbn.
  rewrite andb_true_r. subst s1. destruct (logTicks opts); reflexivity.
Qed.

(** X6 without and with [logTicks]. *)
Lemma tick_message_without_tick_witness :
  step opts0 counting 0 (EvMessage (Json tickWithoutTick)) ready
  = Done (onError tickWithoutTick
            (set_ticks {| symbol := symbol (ticks (st ready)); last := JUndefined;
                          buffer := lastn (Z.to_nat (maxTicksBuffer opts0))
                                      (buffer (ticks (st ready)) ++ [JUndefined]) |} ready))
  /\ step optsLogging counting 0 (EvMessage (Json tickWithoutTick)) ready
     = Uncaught (ErrTypeError "Cannot read properties of undefined (reading 'quote')")
         (set_ticks {| symbol := symbol (ticks (st ready)); last := JUndefined;
                       buffer := lastn (Z.to_nat (maxTicksBuffer optsLogging))
                                   (buffer (ticks (st ready)) ++ [JUndefined]) |} ready).
Proof.
  split.
  - apply (tick_message_without_tick opts0 counting 0 tickWithoutTick ready); try reflexivity.
    vm_compute. discriminate.
  - apply (tick_message_without_tick optsLogging counting 0 tickWithoutTick ready);
      try reflexivity.
    vm_compute. discriminate.
Defined.

Lemma subscribe_event_ticks :
  forall opts random now sym s,
    sym <> "" ->
    exists s',
      step opts random now (EvSubscribe sym) s = Done s'
      /\ ticks (st s')
         = {| symbol := JStr sym; last := last (ticks (st s)); buffer := [] |}.
Proof.
  intros opts random now sym s Hsym. cbn [step].
  destruct (String.eqb_spec sym "") as [E|_]; [contradiction|].
  unfold subscribeTicks.
  set (s1 := set_ticks {| symbol := JStr sym; last := last (ticks (st s)); buffer := [] |} s).
  pose proof (send_st random now (ReqTicks (JStr sym)) "ticks_subscribe"
                (AwaitTicks (JStr sym) ByHttp) s1) as Hst.
  destruct (send random now (ReqTicks (JStr sym)) "ticks_subscribe"
              (AwaitTicks (JStr sym) ByHttp) s1) as [s2 [e|]]; cbn [fst] in Hst.
  - eexists. split; [reflexivity|]. cbn. rewrite Hst. reflexivity.
  - eexists. split; [reflexivity|]. rewrite Hst. reflexivity.
Qed.

(** X7: the tick handler does not look at the symbol that was subscribed.
    After a subscription to [sym], which empties the buffer but does not
    end the stream subscribed before, the next tick is stored whatever its
    symbol is: it becomes [ticks.last] and the only element of the buffer,
    and its symbol replaces [sym] in [ticks.symbol] (lines 88-90). *)
Theorem ticks_of_any_symbol_are_stored :
  forall opts random t1 t2 sym msg s,
    sym <> "" ->
    isTick msg ->
    truthy (prop "req_id" msg) = false ->
    truthy (prop "symbol" (prop "tick" msg)) = true ->
    1 <= maxTicksBuffer opts ->
    exists s',
      run opts random [(t1, EvSubscribe sym); (t2, EvMessage (Json msg))] s = Done s'
      /\ symbol (ticks (st s')) = prop "symbol" (prop "tick" msg)
      /\ last (ticks (st s')) = prop "tick" msg
      /\ buffer (ticks (st s')) = [prop "tick" msg].
Proof.
  intros opts random t1 t2 sym msg s Hsym [Ht Hn] Hreq Hs HC.
  destruct (subscribe_event_ticks opts random t1 sym s Hsym) as (s1 & E1 & T1).
  cbn [run]. rewrite E1.
  rewrite (tick_message_runs_onTick opts random t2 msg s1 Ht Hreq).
  rewrite (onTick_effect opts msg s1 Ht) by lia.
  cbn zeta. rewrite Hn, andb_false_r.
  eexists. split; [reflexivity|].
  assert (Hb : lastn (Z.to_nat (maxTicksBuffer opts)) ([] ++ [prop "tick" msg])
               = [prop "tick" msg]).
  { apply lastn_all. cbn. lia. }
  rewrite T1. cbn [symbol buffer]. rewrite Hb.
  unfold js_or. rewrite Hs.
  unfold onError. destruct (truthy (prop "error" msg)); repeat split; reflexivity.
Qed.

(** X7: a tick of R_50 after a subscription to R_100. *)
Lemma ticks_of_any_symbol_are_stored_witness :
  exists s',
    run opts0 counting [(0, EvSubscribe "R_100"); (5, EvMessage (Json (tickOf "R_50" 7)))] ready
    = Done s'
    /\ symbol (ticks (st s')) = prop "symbol" (prop "tick" (tickOf "R_50" 7))
    /\ last (ticks (st s')) = prop "tick" (tickOf "R_50" 7)
    /\ buffer (ticks (st s')) = [prop "tick" (tickOf "R_50" 7)].
Proof.
  apply (ticks_of_any_symbol_are_stored opts0 counting 0 5 "R_100" (tickOf "R_50" 7) ready).
  - discriminate.
  - split; reflexivity.
  - reflexivity.
  - reflexivity.
  - vm_compute. discriminate.
Defined.

(** ** The queue *)

Lemma finishTrade_next :
  forall random now s next rest,
    queue (trade (st s)) = next :: rest ->
    authorized (st s) = true -> ws_is_open s = true ->
    _finishTrade random now s
    = (ws_send (Tagged (ReqProposal (proposalReq (order next) s)) (drawn random (draws (rt s))))
         (arm (TRequest (drawn random (draws (rt s))) (nextPromise (rt s)) "proposal")
            (set_pending
               (map_set (drawn random (draws (rt s)))
                  {| pe_promise := nextPromise (rt s); pe_ts := now; pe_type := "proposal" |}
                  (pending (cl s)))
               (set_nextPromise (S (nextPromise (rt s)))
                  (set_promises
                     ((nextPromise (rt s), AwaitProposal next ByFinishTrade) :: promises (rt s))
                     (set_draws (S (draws (rt s)))
                        (set_trade
                           {| inProgress := true; queue := rest;
                              lastResult := lastResult (trade (st s));
                              active := Some {| a_requestId := requestId next;
                                                contractId := JNull; startedAt := now;
                                                a_payload := next |} |} s)))))),
       None).
Proof.
  intros random now s next rest Hq Ha Ho.
  unfold _finishTrade. cbn. rewrite Hq. unfold _startTrade. cbn. rewrite Ha. cbn.
  unfold send, ws_is_open in *. cbn.
  destruct (ws (cl s)) as [[| | |]|]; try discriminate. reflexivity.
Qed.

(** X8: when a trade is finalized while the client is authorized on an
    open socket, [_finishTrade] (lines 284-302) takes the oldest payload of
    the queue and starts it: the slot is held by that trade, without a
    contract id, the rest of the queue keeps its order, and one proposal
    request is sent, built from the order and from the defaults in force now
    (not those at the time of the submission).  Nothing is replied: the
    caller of a queued trade was answered when it was queued. *)
Theorem finishTrade_starts_oldest_queued :
  forall random now s next rest,
    queue (trade (st s)) = next :: rest ->
    authorized (st s) = true -> ws_is_open s = true ->
    let s' := fst (_finishTrade random now s) in
    snd (_finishTrade random now s) = None
    /\ trade (st s')
       = {| inProgress := true; queue := rest; lastResult := lastResult (trade (st s));
            active := Some {| a_requestId := requestId next; contractId := JNull;
                              startedAt := now; a_payload := next |} |}
    /\ sent (rt s')
       = sent (rt s)
         ++ [Tagged (ReqProposal (proposalReq (order next) s)) (drawn random (draws (rt s)))]
    /\ awaits (drawn random (draws (rt s))) (AwaitProposal next ByFinishTrade) s'
    /\ replies (rt s') = replies (rt s).
Proof.
  intros random now s next rest Hq Ha Ho s'. subst s'.
  rewrite (finishTrade_next random now s next rest Hq Ha Ho). cbn.
  repeat split; try reflexivity.
  unfold awaits. cbn. rewrite map_get_set_same. do 2 eexists. split; [reflexivity|].
  cbn. rewrite Nat.eqb_refl. reflexivity.
Qed.

(** X8 with two trades queued: the first one queued is started. *)
Lemma finishTrade_starts_oldest_queued_witness :
  trade (st (fst (_finishTrade counting 5000 twoQueued)))
  = {| inProgress := true; queue := [{| requestId := 6; order := digitOrder "DIGITOVER" |}];
       lastResult := lastResult (trade (st twoQueued));
       active := Some {| a_requestId := 5; contractId := JNull; startedAt := 5000;
                         a_payload := {| requestId := 5; order := digitOrder "DIGITODD" |} |} |}.
Proof.
  exact (proj1 (proj2 (finishTrade_starts_oldest_queued counting 5000 twoQueued
                         {| requestId := 5; order := digitOrder "DIGITODD" |}
                         [{| requestId := 6; order := digitOrder "DIGITOVER" |}]
                         eq_refl eq_refl eq_refl))).
Defined.

(** X9: the queue is served first in, first out.  Over any number of
    finalizations, up to the length of the queue, while the client is
    authorized on an open socket, the trades leave the queue from its head
    in the order they were appended, and the trade that holds the slot
    after [n] of them is the [n]-th that was queued. *)
Theorem queue_is_served_in_order :
  forall random nows s,
    authorized (st s) = true -> ws_is_open s = true ->
    (List.length nows <= List.length (queue (trade (st s))))%nat ->
    queue (trade (st (drain random nows s)))
    = skipn (List.length nows) (queue (trade (st s)))
    /\ (nows <> [] ->
        option_map a_payload (active (trade (st (drain random nows s))))
        = nth_error (queue (trade (st s))) (List.length nows - 1)).
Proof.
  intros random nows. induction nows as [|now r IH]; intros s Ha Ho Hlen.
  - split; [reflexivity|]. intros H. contradiction.
  - cbn [drain List.length] in *.
    destruct (queue (trade (st s))) as [|next rest] eqn:Hq; [cbn in Hlen; lia|].
    pose proof (finishTrade_next random now s next rest Hq Ha Ho) as E.
    set (s1 := fst (_finishTrade random now s)).
    assert (Hq1 : queue (trade (st s1)) = rest) by (subst s1; rewrite E; reflexivity).
    assert (Ha1 : authorized (st s1) = true) by (subst s1; rewrite E; exact Ha).
    assert (Ho1 : ws_is_open s1 = true) by (subst s1; rewrite E; exact Ho).
    assert (Hact : option_map a_payload (active (trade (st s1))) = Some next)
      by (subst s1; rewrite E; reflexivity).
    destruct (IH s1 Ha1 Ho1) as [IH1 IH2]; [rewrite Hq1; cbn in Hlen; lia|].
    rewrite Hq1 in IH1, IH2. split; [exact IH1|].
    intros _. destruct r as [|now' r'].
    + cbn [drain]. exact Hact.
    + rewrite IH2 by discriminate. cbn [List.length].
      replace (S (S (List.length r')) - 1)%nat with (S (S (List.length r') - 1)) by lia.
      reflexivity.
Qed.

(** X9 with two trades queued and two finalizations. *)
Lemma queue_is_served_in_order_witness :
  queue (trade (st (drain counting [5000; 9000] twoQueued)))
  = skipn 2 (queue (trade (st twoQueued)))
  /\ ([5000; 9000] <> [] ->
      option_map a_payload (active (trade (st (drain counting [5000; 9000] twoQueued))))
      = nth_error (queue (trade (st twoQueued))) (2 - 1)).
Proof.
  apply (queue_is_served_in_order counting [5000; 9000] twoQueued).
  - reflexivity.
  - reflexivity.
  - vm_compute. lia.
Defined.

(** ** Requests and their responses *)

Lemma truthy_num : forall z, truthy (num z) = negb (z =? 0).
Proof.
  intros z. unfold num. cbn. unfold Qeq_bool. cbn. rewrite Z.mul_1_r. reflexivity.
Qed.

Lemma as_key_num : forall z, as_key (num z) = Some z.
Proof.
  intros z. unfold num, as_key. rewrite Qfloor_Z.
  assert (E : Qeq_bool (inject_Z z) (inject_Z z) = true) by (apply Qeq_bool_iff; reflexivity).
  rewrite E. reflexivity.
Qed.

Lemma map_delete_set_same :
  forall k v m, map_delete k (map_set k v m) = map_delete k m.
Proof.
  intros k v m. induction m as [|[k' v'] m IH]; cbn.
  - rewrite Z.eqb_refl. reflexivity.
  - destruct (Z.eqb_spec k k') as [->|Hk]; cbn.
    + rewrite Z.eqb_refl. reflexivity.
    + destruct (Z.eqb_spec k k'); [contradiction|]. cbn. f_equal. exact IH.
Qed.

Lemma ws_is_open_spec : forall s, ws_is_open s = true <-> ws (cl s) = Some OPEN.
Proof.
  intros s. unfold ws_is_open. destruct (ws (cl s)) as [[| | |]|]; split; congruence.
Qed.

Lemma send_open :
  forall random now payload type k s,
    ws_is_open s = true ->
    send random now payload type k s
    = (ws_send (Tagged payload (drawn random (draws (rt s))))
         (arm (TRequest (drawn random (draws (rt s))) (nextPromise (rt s)) type)
            (set_pending
               (map_set (drawn random (draws (rt s)))
                  {| pe_promise := nextPromise (rt s); pe_ts := now; pe_type := type |}
                  (pending (cl s)))
               (set_nextPromise (S (nextPromise (rt s)))
                  (set_promises ((nextPromise (rt s), k) :: promises (rt s))
                     (set_draws (S (draws (rt s))) s))))),
       None).
Proof.
  intros random now payload type k s H. unfold send. rewrite H. reflexivity.
Qed.

Lemma floor_zero :
  forall q : Q, (0 <= q)%Q -> (q < 1 # 1000000000)%Q -> Qfloor (q * (1000000000 # 1))%Q = 0.
Proof.
  intros q H0 H1.
  assert (Hlo : 0 <= Qfloor (q * (1000000000 # 1))%Q).
  { change 0 with (Qfloor 0). apply Qfloor_resp_le.
    apply Qmult_le_0_compat; [exact H0|discriminate]. }
  assert (Hhi : Qfloor (q * (1000000000 # 1))%Q < 1).
  { rewrite Zlt_Qlt. eapply Qle_lt_trans; [apply Qfloor_le|].
    setoid_replace (inject_Z 1) with ((1 # 1000000000) * (1000000000 # 1))%Q by reflexivity.
    apply Qmult_lt_compat_r; [reflexivity|exact H1]. }
  lia.
Qed.

Lemma resolvePending_awaited :
  forall msg id e k rest s,
    map_get id (pending (cl s)) = Some e ->
    take_promise (pe_promise e) (promises (rt s)) = Some (k, rest) ->
    answers msg id ->
    resolvePending msg s
    = (set_promises rest (set_pending (map_delete id (pending (cl s))) s),
       Some (k, outcomeOf msg)).
Proof.
  intros msg id e k rest s Hget Htake [Htr Hkey].
  pose proof (map_get_has _ _ _ Hget) as Hhas.
  unfold resolvePending, pending_has, settle, outcomeOf.
  rewrite Htr, Hkey, Hhas, Hget. cbn. rewrite Htake. reflexivity.
Qed.

Lemma send_awaits :
  forall random now payload type k s,
    ws_is_open s = true ->
    awaits (drawn random (draws (rt s))) k (fst (send random now payload type k s)).
Proof.
  intros random now payload type k s H. rewrite (send_open random now payload type k s H).
  unfold awaits. cbn. rewrite map_get_set_same. do 2 eexists. split; [reflexivity|].
  cbn. rewrite Nat.eqb_refl. reflexivity.
Qed.

(** X10: a request and its response.  After [send] on an open socket, a
    message whose [req_id] is the id of the request (an id that is not 0)
    is matched by lines 79-84: the entry is removed from [this.pending], so
    that the table is what it was before the request, without that id; the
    promise is settled, so that the promise table is what it was; and the
    code that awaits the request receives the message, or the error
    "code: message" when the message carries an [error]. *)
Theorem response_resumes_the_sender :
  forall random now payload type k s msg,
    ws_is_open s = true ->
    answers msg (drawn random (draws (rt s))) ->
    let s1 := fst (send random now payload type k s) in
    exists s2,
      resolvePending msg s1 = (s2, Some (k, outcomeOf msg))
      /\ pending (cl s2) = map_delete (drawn random (draws (rt s))) (pending (cl s))
      /\ promises (rt s2) = promises (rt s)
      /\ st s2 = st s
      /\ sent (rt s2) = sent (rt s) ++ [Tagged payload (drawn random (draws (rt s)))].
Proof.
  intros random now payload type k s msg Hopen Hans s1. subst s1.
  rewrite (send_open random now payload type k s Hopen). cbn [fst].
  eexists. split.
  - apply (resolvePending_awaited msg (drawn random (draws (rt s)))
             {| pe_promise := nextPromise (rt s); pe_ts := now; pe_type := type |} k
             (promises (rt s))).
    + cbn. apply map_get_set_same.
    + cbn. rewrite Nat.eqb_refl. reflexivity.
    + exact Hans.
  - cbn -[map_delete map_set]. rewrite map_delete_set_same. repeat split; reflexivity.
Qed.

(** X10 for the first tick subscription of a session. *)
Lemma response_resumes_the_sender_witness :
  exists s2,
    resolvePending (ticksAck 1 "R_50")
      (fst (send counting 0 (ReqTicks (JStr "R_50")) "ticks_subscribe"
              (AwaitTicks (JStr "R_50") ByHttp) ready))
    = (s2, Some (AwaitTicks (JStr "R_50") ByHttp, outcomeOf (ticksAck 1 "R_50")))
    /\ pending (cl s2) = map_delete (drawn counting (draws (rt ready))) (pending (cl ready))
    /\ promises (rt s2) = promises (rt ready)
    /\ st s2 = st ready
    /\ sent (rt s2)
       = sent (rt ready)
         ++ [Tagged (ReqTicks (JStr "R_50")) (drawn counting (draws (rt ready)))].
Proof.
  apply (response_resumes_the_sender counting 0 (ReqTicks (JStr "R_50")) "ticks_subscribe"
           (AwaitTicks (JStr "R_50") ByHttp) ready (ticksAck 1 "R_50")).
  - reflexivity.
  - split; vm_compute; reflexivity.
Defined.

Lemma truthy_key_nonzero :
  forall v k, truthy v = true -> as_key v = Some k -> k <> 0.
Proof.
  intros v k Ht Hk. destruct v as [| |b|q|x|f|l]; try discriminate.
  cbn in Ht, Hk.
  destruct (Qeq_bool q (inject_Z (Qfloor q))) eqn:E; [|discriminate].
  injection Hk as Hq. intros H0. subst k. rewrite H0 in E.
  change (inject_Z 0) with 0%Q in E. rewrite E in Ht. discriminate.
Qed.

Lemma map_has_delete_other :
  forall j k m, j <> k -> map_has j (map_delete k m) = map_has j m.
Proof.
  intros j k m Hjk. induction m as [|[k' v] m IH]; [reflexivity|].
  cbn. destruct (Z.eqb_spec k k') as [->|Hk]; cbn.
  - destruct (Z.eqb_spec j k'); [contradiction|exact IH].
  - destruct (j =? k'); [reflexivity|exact IH].
Qed.

Lemma resolvePending_keeps_zero :
  forall msg s,
    map_has 0 (pending (cl s)) = true ->
    map_has 0 (pending (cl (fst (resolvePending msg s)))) = true.
Proof.
  intros msg s H. unfold resolvePending.
  destruct (truthy (prop "req_id" msg)) eqn:Ht; cbn [andb]; [|exact H].
  destruct (pending_has (prop "req_id" msg) s); [|exact H].
  destruct (as_key (prop "req_id" msg)) as [k|] eqn:Hk; [|exact H].
  destruct (map_get k (pending (cl s))) as [p|]; [|exact H].
  pose proof (truthy_key_nonzero _ _ Ht Hk) as Hne.
  set (s0 := set_pending (map_delete k (pending (cl s))) s).
  destruct (settle_frame (pe_promise p) s0) as (Hc & _).
  destruct (settle (pe_promise p) s0) as [[k'|] s2]; cbn [fst snd] in *;
    rewrite Hc; cbn; rewrite map_has_delete_other by congruence; exact H.
Qed.

(** X11: the id 0 is unusable.  A draw of [Math.random] below 1e-9 gives
    the request the id 0 (lines 28-30); the request is stored and sent like
    any other, but no message can resolve it, since line 79 tests the
    truthiness of [msg.req_id]: whatever the message, the entry stays in
    [this.pending], and a response that echoes the id 0 matches nothing at
    all.  The request is left to its timeout or to the close of the
    socket. *)
Theorem request_with_id_zero_is_never_resolved :
  forall random now payload type k s,
    ws_is_open s = true ->
    (0 <= random (draws (rt s)))%Q ->
    (random (draws (rt s)) < 1 # 1000000000)%Q ->
    let s1 := fst (send random now payload type k s) in
    sent (rt s1) = sent (rt s) ++ [Tagged payload 0]
    /\ awaits 0 k s1
    /\ (forall msg, map_has 0 (pending (cl (fst (resolvePending msg s1)))) = true)
    /\ (forall msg,
          as_key (prop "req_id" msg) = Some 0 -> resolvePending msg s1 = (s1, None)).
Proof.
  intros random now payload type k s Hopen H0 H1 s1.
  assert (Hid : drawn random (draws (rt s)) = 0) by (apply floor_zero; assumption).
  assert (Haw : awaits 0 k s1) by (rewrite <- Hid; apply send_awaits, Hopen).
  split; [|split; [exact Haw|split]].
  - subst s1. rewrite (send_open random now payload type k s Hopen), Hid. reflexivity.
  - intros msg. apply resolvePending_keeps_zero.
    destruct Haw as (e & rest & Hget & _). exact (map_get_has _ _ _ Hget).
  - intros msg Hkey. unfold resolvePending.
    destruct (truthy (prop "req_id" msg)) eqn:Ht; [|reflexivity].
    exfalso. exact (truthy_key_nonzero _ _ Ht Hkey eq_refl).
Qed.

(** X11 for a tick subscription that draws the id 0. *)
Lemma request_with_id_zero_is_never_resolved_witness :
  sent (rt (fst (send tiny 0 (ReqTicks (JStr "R_50")) "ticks_subscribe"
                   (AwaitTicks (JStr "R_50") ByHttp) ready)))
  = sent (rt ready) ++ [Tagged (ReqTicks (JStr "R_50")) 0]
  /\ resolvePending (ticksAck 0 "R_50")
       (fst (send tiny 0 (ReqTicks (JStr "R_50")) "ticks_subscribe"
               (AwaitTicks (JStr "R_50") ByHttp) ready))
     = (fst (send tiny 0 (ReqTicks (JStr "R_50")) "ticks_subscribe"
               (AwaitTicks (JStr "R_50") ByHttp) ready), None).
Proof.
  destruct (request_with_id_zero_is_never_resolved tiny 0 (ReqTicks (JStr "R_50"))
              "ticks_subscribe" (AwaitTicks (JStr "R_50") ByHttp) ready)
    as (H1 & _ & _ & H2).
  - reflexivity.
  - vm_compute. discriminate.
  - vm_compute. reflexivity.
  - split; [exact H1|]. apply H2. vm_compute. reflexivity.
Defined.

(** ** The message handler *)

Lemma prop_JStr_not_nullish :
  forall k msg x, prop k msg = JStr x -> nullish msg = false.
Proof.
  intros k msg x H. destruct msg; try discriminate; reflexivity.
Qed.

Lemma truthy_prop_not_nullish :
  forall k msg, truthy (prop k msg) = true -> nullish msg = false.
Proof.
  intros k msg H. destruct msg; try discriminate; reflexivity.
Qed.

Lemma onMessage_settled :
  forall opts random now msg s s1 settled,
    nullish msg = false ->
    resolvePending msg s = (s1, settled) ->
    onMessage opts random now (Json msg) s
    = match onTick opts msg s1 with
      | Uncaught e s2 => Uncaught e s2
      | Done s2 =>
          let s3 := onBuy msg s2 in
          let '(s4, caught, returned) := onOpenContract random now msg s3 in
          let s5 := if returned then s4 else onError msg s4 in
          let s6 := runCatch now caught s5 in
          match settled with
          | Some (k, r) => Done (resume random now k r s6)
          | None => Done s6
          end
      end.
Proof.
  intros opts random now msg s s1 settled Hn Hres.
  unfold onMessage. cbn [JSON_parse]. rewrite Hn, Hres. reflexivity.
Qed.

(** A message that is neither a tick nor an update of a contract. *)
Lemma onMessage_other :
  forall opts random now msg s s1 settled,
    nullish msg = false ->
    strict_eq (prop "msg_type" msg) (JStr "tick") = false ->
    strict_eq (prop "msg_type" msg) (JStr "proposal_open_contract") = false ->
    resolvePending msg s = (s1, settled) ->
    onMessage opts random now (Json msg) s
    = Done (match settled with
            | Some (k, r) => resume random now k r (onError msg (onBuy msg s1))
            | None => onError msg (onBuy msg s1)
            end).
Proof.
  intros opts random now msg s s1 settled Hn Ht Hc Hres.
  rewrite (onMessage_settled opts random now msg s s1 settled Hn Hres).
  unfold onTick. rewrite Ht. cbn zeta. unfold onOpenContract. rewrite Hc.
  cbn. destruct settled as [[k r]|]; reflexivity.
Qed.

Lemma resolvePending_cases :
  forall msg s s1 settled,
    resolvePending msg s = (s1, settled) ->
    st s1 = st s
    /\ ws (cl s1) = ws (cl s)
    /\ sent (rt s1) = sent (rt s)
    /\ match settled with
       | Some (k, r) => r = outcomeOf msg /\ pending (cl s) <> []
       | None => True
       end.
Proof.
  intros msg s s1 settled. unfold resolvePending, pending_has, outcomeOf.
  destruct (truthy (prop "req_id" msg)); cbn [andb];
    [|intros H; inversion H; subst; repeat split].
  destruct (as_key (prop "req_id" msg)) as [k|];
    [|intros H; inversion H; subst; repeat split].
  destruct (map_has k (pending (cl s))) eqn:Hhas;
    [|intros H; inversion H; subst; repeat split].
  destruct (map_get k (pending (cl s))) as [p|] eqn:Hget;
    [|intros H; inversion H; subst; repeat split].
  set (s0 := set_pending (map_delete k (pending (cl s))) s).
  destruct (settle_frame (pe_promise p) s0) as (Hc & Hs & _).
  assert (Hsent : sent (rt (snd (settle (pe_promise p) s0))) = sent (rt s)).
  { unfold settle. destruct (take_promise _ _) as [[a r]|]; reflexivity. }
  assert (Hne : pending (cl s) <> []).
  { intros E. rewrite E in Hget. discriminate. }
  destruct (settle (pe_promise p) s0) as [[k'|] s2]; cbn [snd] in *;
    intros H; inversion H; subst; rewrite ?Hc, ?Hs; repeat split; auto.
Qed.

Lemma onBuy_st_frame :
  forall msg s,
    lastError (st (onBuy msg s)) = lastError (st s)
    /\ authorized (st (onBuy msg s)) = authorized (st s)
    /\ cl (onBuy msg s) = cl s
    /\ rt (onBuy msg s) = rt s.
Proof.
  intros msg s. unfold onBuy.
  destruct (strict_eq _ _); [|repeat split].
  destruct (active (trade (st s))); [|repeat split].
  destruct (truthy _); repeat split.
Qed.

Lemma resume_rejected_lastError :
  forall random now k e s,
    lastError (st s) = Some e ->
    lastError (st (resume random now k (inl e) s)) = Some e.
Proof.
  intros random now k e s H.
  destruct k as [|sym c|p c|p c|p cid c]; try destruct c; cbn; try exact H; reflexivity.
Qed.

Lemma resume_lastError :
  forall random now k r s,
    recordsError k = false ->
    lastError (st (resume random now k r s)) = lastError (st s).
Proof.
  intros random now k r s Hk.
  destruct k as [|sym c|p c|p c|p cid c]; try discriminate; cbn [resume].
  - destruct c; [discriminate|]. destruct r; reflexivity.
  - unfold afterProposal. destruct r as [e|res]; [destruct c; reflexivity|].
    destruct (negb _); [destruct c; reflexivity|].
    unfold progress_of.
    pose proof (send_st random now (ReqBuy (prop "id" (prop "proposal" res))
                                      (ToNumber (stake (order p)))) "buy" (AwaitBuy p c) s) as Hst.
    destruct (send _ _ _ _ _ _) as [s1 [e|]]; cbn [fst snd] in *;
      destruct c; cbn; rewrite ?Hst; reflexivity.
  - unfold afterBuy. destruct r as [e|res]; [destruct c; reflexivity|].
    destruct (negb _); [destruct c; reflexivity|].
    destruct (active (trade (st s))) as [a|]; [|destruct c; reflexivity].
    unfold progress_of.
    match goal with
    | |- context [send ?r ?n ?pl ?ty ?k ?s0] =>
        pose proof (send_st r n pl ty k s0) as Hst;
        destruct (send r n pl ty k s0) as [s1 [e|]]
    end; cbn [fst snd] in *; destruct c; cbn; rewrite ?Hst; reflexivity.
  - unfold afterOpenContract. destruct r as [e|res]; destruct c; reflexivity.
Qed.

(** X12: a message that carries an [error], and is neither a tick nor an
    update of a contract, is recorded whatever else it is: when the handler
    and the code it resumes are done, [state.lastError] is the text
    "code: message" of that error (lines 131-133; the catch of the open
    handler, lines 64-67, writes the same text when the message refuses the
    authorization or the subscription to the default symbol). *)
Theorem error_message_is_recorded :
  forall opts random now msg s,
    truthy (prop "error" msg) = true ->
    strict_eq (prop "msg_type" msg) (JStr "tick") = false ->
    strict_eq (prop "msg_type" msg) (JStr "proposal_open_contract") = false ->
    exists s',
      step opts random now (EvMessage (Json msg)) s = Done s'
      /\ lastError (st s') = Some (remoteError msg).
Proof.
  intros opts random now msg s He Ht Hc.
  pose proof (truthy_prop_not_nullish _ _ He) as Hn.
  cbn [step].
  destruct (resolvePending msg s) as [s1 settled] eqn:Hres.
  rewrite (onMessage_other opts random now msg s s1 settled Hn Ht Hc Hres).
  eexists. split; [reflexivity|].
  assert (H5 : lastError (st (onError msg (onBuy msg s1))) = Some (remoteError msg)).
  { unfold onError. rewrite He. reflexivity. }
  destruct settled as [[k r]|]; [|exact H5].
  destruct (resolvePending_cases msg s s1 _ Hres) as (_ & _ & _ & Hr & _).
  rewrite Hr. unfold outcomeOf. rewrite He.
  apply resume_rejected_lastError, H5.
Qed.

(** X12 for a refused authorization. *)
Lemma error_message_is_recorded_witness :
  exists s',
    step opts0 counting 40 (EvMessage (Json (authorizeRefused 1))) opened = Done s'
    /\ lastError (st s') = Some (remoteError (authorizeRefused 1)).
Proof.
  apply (error_message_is_recorded opts0 counting 40 (authorizeRefused 1) opened);
    reflexivity.
Defined.

(** X13: the early returns of the contract handler (lines 107 and 109)
    skip the error handler of lines 131-133.  A message of type
    "proposal_open_contract" that carries no contract object, or one for a
    contract that the active trade does not hold, leaves [state.lastError]
    as it is, even when it carries an [error]: the refusal of a
    subscription to a contract reaches the start sequence that awaits the
    request, and is not recorded.  (The requests of the open handler are
    set apart: their catch records the error.) *)
Theorem contract_error_is_not_recorded :
  forall opts random now msg s,
    strict_eq (prop "msg_type" msg) (JStr "proposal_open_contract") = true ->
    truthy (prop "proposal_open_contract" msg) = false
    \/ settlementGuard (prop "proposal_open_contract" msg) s = false ->
    (forall k r, snd (resolvePending msg s) = Some (k, r) -> recordsError k = false) ->
    exists s',
      step opts random now (EvMessage (Json msg)) s = Done s'
      /\ lastError (st s') = lastError (st s).
Proof.
  intros opts random now msg s Ht Hearly Hk.
  pose proof (strict_eq_JStr_inv _ _ Ht) as Ht'.
  pose proof (prop_JStr_not_nullish _ _ _ Ht') as Hn.
  cbn [step].
  destruct (resolvePending msg s) as [s1 settled] eqn:Hres. cbn [snd] in Hk.
  destruct (resolvePending_cases msg s s1 _ Hres) as (Hst & _ & _ & _).
  rewrite (onMessage_settled opts random now msg s s1 settled Hn Hres).
  unfold onTick, onBuy, onOpenContract. rewrite Ht'. cbn [strict_eq String.eqb Ascii.eqb Bool.eqb].
  cbn zeta.
  assert (Hset : onSettlement random now (prop "proposal_open_contract" msg) s1
                 = (s1, None, true)).
  { unfold onSettlement.
    destruct (truthy (prop "proposal_open_contract" msg)) eqn:Hp; [|reflexivity].
    destruct Hearly as [Hf|Hg]; [discriminate|].
    assert (Hg1 : settlementGuard (prop "proposal_open_contract" msg) s1 = false).
    { unfold settlementGuard in *. rewrite Hst. exact Hg. }
    cbn. rewrite Hg1. reflexivity. }
  rewrite Hset. cbn [runCatch].
  destruct settled as [[k r]|]; eexists; (split; [reflexivity|]).
  - rewrite (resume_lastError random now k r s1 (Hk k r eq_refl)). rewrite Hst. reflexivity.
  - rewrite Hst. reflexivity.
Qed.

(** X13 for the refusal of the subscription to contract 101. *)
Lemma contract_error_is_not_recorded_witness :
  truthy (prop "error" (refusal 4)) = true
  /\ exists s',
       step opts0 counting 120 (EvMessage (Json (refusal 4))) subscribing = Done s'
       /\ lastError (st s') = lastError (st subscribing).
Proof.
  split; [reflexivity|].
  apply (contract_error_is_not_recorded opts0 counting 120 (refusal 4) subscribing).
  - reflexivity.
  - left. reflexivity.
  - intros k r H. vm_compute in H. inversion H. reflexivity.
Defined.

Lemma awaited_message :
  forall opts random now msg id k s ty,
    awaits id k s -> answers msg id ->
    prop "msg_type" msg = JStr ty ->
    ty <> "tick" -> ty <> "proposal_open_contract" ->
    exists e rest,
      map_get id (pending (cl s)) = Some e
      /\ take_promise (pe_promise e) (promises (rt s)) = Some (k, rest)
      /\ onMessage opts random now (Json msg) s
         = Done (resume random now k (outcomeOf msg)
                   (onError msg
                      (onBuy msg
                         (set_promises rest
                            (set_pending (map_delete id (pending (cl s))) s))))).
Proof.
  intros opts random now msg id k s ty (e & rest & Hget & Htake) Hans Hty Ht Hc.
  exists e, rest. split; [exact Hget|]. split; [exact Htake|].
  pose proof (prop_JStr_not_nullish _ _ _ Hty) as Hn.
  apply (onMessage_other opts random now msg s _ (Some (k, outcomeOf msg)) Hn).
  - rewrite Hty. cbn. destruct (String.eqb_spec ty "tick"); [contradiction|reflexivity].
  - rewrite Hty. cbn.
    destruct (String.eqb_spec ty "proposal_open_contract"); [contradiction|reflexivity].
  - apply (resolvePending_awaited msg id e k rest s Hget Htake Hans).
Qed.

(** X14: the response to the authorize request (lines 59-67), on an open
    socket.  If it carries an [error], the client stays as authorized as it
    was, the error is recorded in [state.lastError], and nothing is sent: no
    subscription and no second attempt.  Otherwise [state.authorized] is
    set, the tick buffer is emptied, [ticks.symbol] becomes the default
    symbol, and one subscription request for that symbol is sent and
    awaited. *)
Theorem authorize_response :
  forall opts random now msg id s,
    awaits id AwaitAuthorize s -> answers msg id ->
    prop "msg_type" msg = JStr "authorize" ->
    ws_is_open s = true ->
    exists s',
      step opts random now (EvMessage (Json msg)) s = Done s'
      /\ if truthy (prop "error" msg)
         then authorized (st s') = authorized (st s)
              /\ lastError (st s') = Some (remoteError msg)
              /\ sent (rt s') = sent (rt s)
              /\ ticks (st s') = ticks (st s)
         else authorized (st s') = true
              /\ lastError (st s') = lastError (st s)
              /\ sent (rt s')
                 = sent (rt s)
                   ++ [Tagged (ReqTicks (JStr (d_symbol (defaults (st s)))))
                         (drawn random (draws (rt s)))]
              /\ ticks (st s')
                 = {| symbol := JStr (d_symbol (defaults (st s)));
                      last := last (ticks (st s)); buffer := [] |}
              /\ awaits (drawn random (draws (rt s)))
                   (AwaitTicks (JStr (d_symbol (defaults (st s)))) ByOpen) s'.
Proof.
  intros opts random now msg id s Haw Hans Hty Hopen.
  destruct (awaited_message opts random now msg id AwaitAuthorize s "authorize"
              Haw Hans Hty) as (e & rest & Hget & Htake & E);
    [discriminate|discriminate|].
  cbn [step]. rewrite E. eexists. split; [reflexivity|].
  unfold onBuy, onError, outcomeOf. rewrite Hty. cbn [strict_eq]. cbn [String.eqb Ascii.eqb Bool.eqb].
  destruct (truthy (prop "error" msg)) eqn:He.
  - cbn. repeat split; reflexivity.
  - cbn [resume afterAuthorize]. unfold subscribeTicks.
    match goal with
    | |- context [send ?r ?n ?pl ?ty ?k ?s0] =>
        assert (Ho : ws_is_open s0 = true) by exact Hopen;
        pose proof (send_awaits r n pl ty k s0 Ho) as Haw';
        rewrite (send_open r n pl ty k s0 Ho) in *
    end.
    cbn in *. repeat split; try reflexivity. exact Haw'.
Qed.

(** X14 for an accepted and for a refused token. *)
Lemma authorize_response_witness :
  (exists s',
     step opts0 counting 40 (EvMessage (Json (authorizeAck 1))) opened = Done s'
     /\ authorized (st s') = true
     /\ sent (rt s') = sent (rt opened) ++ [Tagged (ReqTicks (JStr "R_50")) 2])
  /\ (exists s',
        step opts0 counting 40 (EvMessage (Json (authorizeRefused 1))) opened = Done s'
        /\ authorized (st s') = false
        /\ sent (rt s') = sent (rt opened)).
Proof.
  assert (Haw : awaits 1 AwaitAuthorize opened).
  { do 2 eexists. split; vm_compute; reflexivity. }
  split.
  - destruct (authorize_response opts0 counting 40 (authorizeAck 1) 1 opened Haw
                (conj eq_refl eq_refl) eq_refl eq_refl) as (s' & E & H).
    exists s'. split; [exact E|]. split; [exact (proj1 H)|].
    exact (proj1 (proj2 (proj2 H))).
  - destruct (authorize_response opts0 counting 40 (authorizeRefused 1) 1 opened Haw
                (conj eq_refl eq_refl) eq_refl eq_refl) as (s' & E & H).
    exists s'. split; [exact E|]. split; [exact (proj1 H)|].
    exact (proj1 (proj2 (proj2 H))).
Defined.

Lemma resolve_after_send :
  forall random now payload type k s msg,
    ws_is_open s = true ->
    answers msg (drawn random (draws (rt s))) ->
    resolvePending msg (fst (send random now payload type k s))
    = (answered random payload type s, Some (k, outcomeOf msg)).
Proof.
  intros random now payload type k s msg Hopen Hans.
  rewrite (send_open random now payload type k s Hopen). cbn [fst].
  rewrite (resolvePending_awaited msg (drawn random (draws (rt s)))
             {| pe_promise := nextPromise (rt s); pe_ts := now; pe_type := type |} k
             (promises (rt s))).
  - unfold answered. cbn -[map_delete map_set]. rewrite map_delete_set_same.
    destruct s as [x [w pt ra pd] [pr np tm sn rp dr]]. reflexivity.
  - cbn. apply map_get_set_same.
  - cbn. rewrite Nat.eqb_refl. reflexivity.
  - exact Hans.
Qed.

Lemma onSettlement_open :
  forall random now poc s,
    isFinal poc = false ->
    exists returned, onSettlement random now poc s = (s, None, returned).
Proof.
  intros random now poc s H. unfold onSettlement.
  destruct (negb (truthy poc)); [eexists; reflexivity|].
  destruct (negb (settlementGuard poc s)); [eexists; reflexivity|].
  rewrite H. eexists; reflexivity.
Qed.

(** X15: the start sequence of a trade, end to end.  A trade submitted
    with the slot free, authorized and on an open socket, followed by the
    three responses that answer its requests (a proposal with an id, a buy
    with a contract id, and a first update of the contract that is not
    final), sends the proposal, the buy and the subscription request in this
    order, each carrying what the response before it returned.  At the end
    the trade holds the slot with the contract id of the buy response, the
    caller has its one reply [queued: false], the timeout of the trade is
    armed, and the safety timeouts of the three requests are still armed:
    no timer is ever cleared. *)
Theorem start_sequence_completes :
  forall opts random t0 t1 t2 t3 o m1 m2 m3 s,
    authorized (st s) = true -> ws_is_open s = true ->
    inProgress (trade (st s)) = false ->
    let d := draws (rt s) in
    let n := nextPromise (rt s) in
    let payload := {| requestId := drawn random d; order := o |} in
    let pid := prop "id" (prop "proposal" m1) in
    let cid := prop "contract_id" (prop "buy" m2) in
    answers m1 (drawn random (S d)) ->
    prop "msg_type" m1 = JStr "proposal" ->
    truthy (prop "error" m1) = false ->
    truthy pid = true ->
    answers m2 (drawn random (S (S d))) ->
    prop "msg_type" m2 = JStr "buy" ->
    truthy (prop "error" m2) = false ->
    truthy cid = true ->
    answers m3 (drawn random (S (S (S d)))) ->
    prop "msg_type" m3 = JStr "proposal_open_contract" ->
    truthy (prop "error" m3) = false ->
    isFinal (prop "proposal_open_contract" m3) = false ->
    exists s',
      run opts random
        [(t0, EvTrade o); (t1, EvMessage (Json m1)); (t2, EvMessage (Json m2));
         (t3, EvMessage (Json m3))] s = Done s'
      /\ sent (rt s')
         = sent (rt s)
           ++ [Tagged (ReqProposal (proposalReq o s)) (drawn random (S d));
               Tagged (ReqBuy pid (ToNumber (stake o))) (drawn random (S (S d)));
               Tagged (ReqOpenContract cid) (drawn random (S (S (S d))))]
      /\ trade (st s')
         = {| inProgress := true; queue := queue (trade (st s));
              lastResult := lastResult (trade (st s));
              active := Some {| a_requestId := drawn random d; contractId := cid;
                                startedAt := t0; a_payload := payload |} |}
      /\ replies (rt s') = replies (rt s) ++ [TradeReply false (drawn random d) None]
      /\ timers (rt s')
         = timers (rt s)
           ++ [TRequest (drawn random (S d)) n "proposal";
               TRequest (drawn random (S (S d))) (S n) "buy";
               TRequest (drawn random (S (S (S d)))) (S (S n)) "proposal_open_contract";
               TTrade cid]
      /\ promises (rt s') = promises (rt s).
Proof.
  intros opts random t0 t1 t2 t3 o m1 m2 m3 s Hauth Hopen Hfree d n payload pid cid
    Ha1 Hty1 He1 Hpid Ha2 Hty2 He2 Hcid Ha3 Hty3 He3 Hfin.
  pose proof (prop_JStr_not_nullish _ _ _ Hty1) as Hn1.
  pose proof (prop_JStr_not_nullish _ _ _ Hty2) as Hn2.
  pose proof (prop_JStr_not_nullish _ _ _ Hty3) as Hn3.
  (* the submission *)
  cbn [run step]. unfold placeTrade. cbn [_nextReqId]. cbn zeta.
  change (inProgress (trade (st (set_draws (S (draws (rt s))) s))))
    with (inProgress (trade (st s))).
  rewrite Hfree. unfold _startTrade.
  change (authorized (st (set_draws (S (draws (rt s))) s))) with (authorized (st s)).
  rewrite Hauth. cbn [negb].
  fold d. fold (drawn random d). fold payload.
  set (s0 := set_slot true
               (Some {| a_requestId := requestId payload; contractId := JNull;
                        startedAt := t0; a_payload := payload |})
               (set_draws (S d) s)).
  assert (Ho0 : ws_is_open s0 = true) by exact Hopen.
  set (P1 := ReqProposal (proposalReq (order payload) s0)).
  pose proof (resolve_after_send random t0 P1 "proposal" (AwaitProposal payload ByPlaceTrade)
                s0 m1 Ho0 Ha1) as R1.
  rewrite (send_open random t0 P1 "proposal" (AwaitProposal payload ByPlaceTrade) s0 Ho0) in *.
  cbn [fst] in R1.
  (* the proposal response *)
  assert (Ht1 : strict_eq (prop "msg_type" m1) (JStr "tick") = false)
    by (rewrite Hty1; reflexivity).
  assert (Hc1 : strict_eq (prop "msg_type" m1) (JStr "proposal_open_contract") = false)
    by (rewrite Hty1; reflexivity).
  rewrite (onMessage_other opts random t1 m1 _ _ _ Hn1 Ht1 Hc1 R1).
  unfold onBuy at 1. rewrite Hty1. cbn [strict_eq String.eqb Ascii.eqb Bool.eqb].
  unfold onError at 1. rewrite He1. unfold outcomeOf at 1. rewrite He1.
  cbn [resume]. unfold afterProposal. fold pid. rewrite Hpid. cbn [negb].
  set (A1 := answered random P1 "proposal" s0).
  assert (Ho1 : ws_is_open A1 = true) by exact Hopen.
  set (P2 := ReqBuy pid (ToNumber (stake (order payload)))).
  pose proof (resolve_after_send random t1 P2 "buy" (AwaitBuy payload ByPlaceTrade)
                A1 m2 Ho1 Ha2) as R2.
  rewrite (send_open random t1 P2 "buy" (AwaitBuy payload ByPlaceTrade) A1 Ho1) in *.
  cbn [fst snd progress_of startSettled] in *.
  (* the buy response *)
  assert (Ht2 : strict_eq (prop "msg_type" m2) (JStr "tick") = false)
    by (rewrite Hty2; reflexivity).
  assert (Hc2 : strict_eq (prop "msg_type" m2) (JStr "proposal_open_contract") = false)
    by (rewrite Hty2; reflexivity).
  rewrite (onMessage_other opts random t2 m2 _ _ _ Hn2 Ht2 Hc2 R2).
  unfold outcomeOf at 1. rewrite He2. unfold onError at 1. rewrite He2.
  set (A2 := answered random P2 "buy" A1).
  assert (Hact : active (trade (st A2))
                 = Some {| a_requestId := requestId payload; contractId := JNull;
                           startedAt := t0; a_payload := payload |}) by reflexivity.
  unfold onBuy at 1. rewrite Hty2. cbn [strict_eq String.eqb Ascii.eqb Bool.eqb].
  rewrite Hact. fold cid. rewrite Hcid.
  cbn [resume]. unfold afterBuy. fold cid. rewrite Hcid. cbn [negb].
  cbn [a_requestId startedAt a_payload].
  match goal with
  | |- context [active (trade (st ?x))] =>
      change (active (trade (st x)))
        with (Some {| a_requestId := requestId payload; contractId := cid;
                      startedAt := t0; a_payload := payload |})
  end.
  cbn [a_requestId startedAt a_payload].
  match goal with
  | |- context [send random t2 ?pl ?ty ?k ?x] =>
      set (B2 := x); set (P3 := pl);
      assert (Ho2 : ws_is_open B2 = true) by exact Hopen;
      pose proof (resolve_after_send random t2 P3 ty k B2 m3 Ho2 Ha3) as R3;
      rewrite (send_open random t2 P3 ty k B2 Ho2) in *
  end.
  cbn [fst snd progress_of startSettled] in *.
  (* the first update of the contract *)
  rewrite (onMessage_settled opts random t3 m3 _ _ _ Hn3 R3).
  unfold onTick, onBuy, onOpenContract. rewrite Hty3.
  cbn [strict_eq String.eqb Ascii.eqb Bool.eqb]. cbn zeta.
  set (A3 := answered random P3 "proposal_open_contract" B2).
  destruct (onSettlement_open random t3 (prop "proposal_open_contract" m3) A3 Hfin)
    as [returned Hset].
  rewrite Hset. unfold onError. rewrite He3. cbn [runCatch].
  replace (if returned then A3 else A3) with A3 by (destruct returned; reflexivity).
  unfold outcomeOf. rewrite He3. cbn [resume afterOpenContract startSettled].
  eexists. split; [reflexivity|].
  cbn -[drawn proposalReq]. rewrite <- !app_assoc. cbn -[drawn proposalReq].
  repeat split; reflexivity.
Qed.

(** X15 at scenario A. *)
Lemma start_sequence_completes_witness :
  exists s',
    run opts0 counting
      [(0, EvTrade digitEven);
       (40, EvMessage (Json (proposalResponse 2 "p-1")));
       (80, EvMessage (Json (buyResponse 3 101)));
       (120, EvMessage (Json (contractUpdate 4 101 0 "open")))] ready = Done s'
    /\ replies (rt s') = [TradeReply false 1 None]
    /\ timers (rt s')
       = [TRequest 2 0 "proposal"; TRequest 3 1 "buy";
          TRequest 4 2 "proposal_open_contract"; TTrade (num 101)].
Proof.
  destruct (start_sequence_completes opts0 counting 0 40 80 120 digitEven
              (proposalResponse 2 "p-1") (buyResponse 3 101)
              (contractUpdate 4 101 0 "open") ready
              eq_refl eq_refl eq_refl
              (conj eq_refl eq_refl) eq_refl eq_refl eq_refl
              (conj eq_refl eq_refl) eq_refl eq_refl eq_refl
              (conj eq_refl eq_refl) eq_refl eq_refl eq_refl)
    as (s' & E & _ & _ & Hr & Ht & _).
  exists s'. split; [exact E|]. split; [exact Hr|exact Ht].
Defined.

(** ** The connection over the event loop *)

Lemma steady_refl : forall s, steady s s.
Proof.
  intros s. unfold steady. repeat split; auto.
Qed.

Lemma steady_trans : forall a b c, steady a b -> steady b c -> steady a c.
Proof.
  intros a b c (W1 & P1 & R1 & C1 & D1 & Q1 & A1) (W2 & P2 & R2 & C2 & D2 & Q2 & A2).
  unfold steady. repeat split; try congruence.
  - intros H. destruct (Q2 H) as [H1|H1]; [exact (Q1 H1)|right; congruence].
  - intros H. destruct (A2 H) as [H1|H1]; [exact (A1 H1)|right; congruence].
Qed.

(** Updates of the trade state, the ticks, the last error and the runtime
    leave the connection as it is. *)
Lemma steady_frame :
  forall s s',
    cl s' = cl s ->
    connected (st s') = connected (st s) ->
    authorized (st s') = authorized (st s) ->
    defaults (st s') = defaults (st s) ->
    steady s s'.
Proof.
  intros s s' Hc Hn Ha Hd. unfold steady. rewrite Hc, Hn, Ha, Hd.
  repeat split; auto.
Qed.

Lemma steady_linked : forall s s', steady s s' -> linked s -> linked s'.
Proof.
  intros s s' (W & P & R & C & D & Q & A) (L1 & L2 & L3 & L4).
  unfold linked. rewrite W, P, C. repeat split.
  - intros H. destruct (Q H) as [H1|H1]; auto.
  - exact L2.
  - intros H. destruct (A H) as [H1|H1]; auto.
  - exact L4.
Qed.

Lemma send_steady :
  forall random now payload type k s, steady s (fst (send random now payload type k s)).
Proof.
  intros random now payload type k s.
  destruct (ws_is_open s) eqn:Hopen.
  - rewrite (send_open random now payload type k s Hopen). cbn [fst].
    unfold steady. cbn. repeat split; auto.
    intros _. right. apply ws_is_open_spec, Hopen.
  - unfold send. rewrite Hopen. apply steady_refl.
Qed.

Lemma settle_steady : forall n s, steady s (snd (settle n s)).
Proof.
  intros n s. destruct (settle_frame n s) as (Hc & Hs & _).
  apply steady_frame; rewrite ?Hc, ?Hs; reflexivity.
Qed.

Ltac same := apply steady_frame; reflexivity.

Lemma startTrade_steady :
  forall random now p c s, steady s (fst (_startTrade random now p c s)).
Proof.
  intros random now p c s. unfold _startTrade.
  destruct (negb (authorized (st s))); [apply steady_refl|].
  eapply steady_trans; [|apply send_steady]. same.
Qed.

Lemma startSettled_steady :
  forall now p c g s, steady s (startSettled now p c g s).
Proof.
  intros now p c g s. destruct g, c; cbn; try apply steady_refl; same.
Qed.

Lemma progress_of_fst : forall r, fst (progress_of r) = fst r.
Proof.
  intros [s [e|]]; reflexivity.
Qed.

Lemma afterProposal_steady :
  forall random now p c r s, steady s (fst (afterProposal random now p c r s)).
Proof.
  intros random now p c r s. unfold afterProposal.
  destruct r as [e|res]; [apply steady_refl|].
  destruct (negb _); [apply steady_refl|].
  rewrite progress_of_fst. apply send_steady.
Qed.

Lemma afterBuy_steady :
  forall random now p c r s, steady s (fst (afterBuy random now p c r s)).
Proof.
  intros random now p c r s. unfold afterBuy.
  destruct r as [e|res]; [apply steady_refl|].
  destruct (negb _); [apply steady_refl|].
  destruct (active (trade (st s))) as [a|]; [|apply steady_refl].
  rewrite progress_of_fst. eapply steady_trans; [|apply send_steady]. same.
Qed.

Lemma afterOpenContract_steady :
  forall cid r s, steady s (fst (afterOpenContract cid r s)).
Proof.
  intros cid r s. destruct r; cbn; [apply steady_refl|same].
Qed.

Lemma subscribeTicks_steady :
  forall random now sym c s, steady s (fst (subscribeTicks random now sym c s)).
Proof.
  intros random now sym c s. unfold subscribeTicks.
  eapply steady_trans; [|apply send_steady]. same.
Qed.

Lemma ticksSettled_steady :
  forall sym c r s, steady s (ticksSettled sym c r s).
Proof.
  intros sym c r s. destruct c, r; cbn; try apply steady_refl; same.
Qed.

Lemma afterAuthorize_steady :
  forall random now r s,
    ws (cl s) = Some OPEN \/ (exists e, r = inl e) ->
    steady s (afterAuthorize random now r s).
Proof.
  intros random now r s H. unfold afterAuthorize.
  destruct r as [e|res]; [same|].
  assert (Ho : ws (cl s) = Some OPEN).
  { destruct H as [H|[e H]]; [exact H|discriminate]. }
  set (s1 := set_authorized true s).
  assert (H1 : steady s s1).
  { unfold steady. cbn. repeat split; auto. }
  pose proof (subscribeTicks_steady random now (JStr (d_symbol (defaults (st s1)))) ByOpen s1)
    as H2.
  destruct (subscribeTicks random now (JStr (d_symbol (defaults (st s1)))) ByOpen s1)
    as [s2 [e|]]; cbn [fst] in H2.
  - eapply steady_trans; [exact H1|]. eapply steady_trans; [exact H2|].
    apply ticksSettled_steady.
  - eapply steady_trans; eassumption.
Qed.

Lemma resume_steady :
  forall random now k r s,
    ws (cl s) = Some OPEN \/ (exists e, r = inl e) ->
    steady s (resume random now k r s).
Proof.
  intros random now k r s H. destruct k as [|sym c|p c|p c|p cid c]; cbn [resume].
  - apply afterAuthorize_steady, H.
  - apply ticksSettled_steady.
  - pose proof (afterProposal_steady random now p c r s) as H1.
    destruct (afterProposal random now p c r s) as [s1 g]. cbn [fst] in H1.
    eapply steady_trans; [exact H1|apply startSettled_steady].
  - pose proof (afterBuy_steady random now p c r s) as H1.
    destruct (afterBuy random now p c r s) as [s1 g]. cbn [fst] in H1.
    eapply steady_trans; [exact H1|apply startSettled_steady].
  - pose proof (afterOpenContract_steady cid r s) as H1.
    destruct (afterOpenContract cid r s) as [s1 g]. cbn [fst] in H1.
    eapply steady_trans; [exact H1|apply startSettled_steady].
Qed.

Lemma finishTrade_steady :
  forall random now s, steady s (fst (_finishTrade random now s)).
Proof.
  intros random now s. unfold _finishTrade. cbn zeta.
  destruct (queue (trade (st (set_slot false None s)))) as [|next rest]; [same|].
  eapply steady_trans; [|apply startTrade_steady]. same.
Qed.

Lemma runCatch_steady : forall now caught s, steady s (runCatch now caught s).
Proof.
  intros now [e|] s; cbn; [same|apply steady_refl].
Qed.

Lemma tradeTimeout_steady :
  forall random now cid s, steady s (tradeTimeout random now cid s).
Proof.
  intros random now cid s. unfold tradeTimeout.
  destruct (timeoutGuard cid s); [|apply steady_refl].
  pose proof (finishTrade_steady random now (set_lastResult (timeoutResult cid now) s)) as H.
  destruct (_finishTrade random now _) as [s1 caught]. cbn [fst] in H.
  eapply steady_trans; [|apply runCatch_steady].
  eapply steady_trans; [|exact H]. same.
Qed.

Lemma placeTrade_steady :
  forall random now o s, steady s (fst (placeTrade random now o s)).
Proof.
  intros random now o s. unfold placeTrade. cbn [_nextReqId]. cbn zeta.
  destruct (inProgress _); [same|].
  match goal with
  | |- context [_startTrade ?r ?n ?p ?c ?x] =>
      pose proof (startTrade_steady r n p c x) as H;
      destruct (_startTrade r n p c x) as [s2 [e|]]
  end; cbn [fst] in *; (eapply steady_trans; [|exact H]); same.
Qed.

Lemma map_delete_nil : forall k m, m = [] -> map_delete k m = [].
Proof.
  intros k m ->. reflexivity.
Qed.

Lemma delete_steady :
  forall k s, steady s (set_pending (map_delete k (pending (cl s))) s).
Proof.
  intros k s. unfold steady. cbn. repeat split; auto.
  intros H. left. intros E. apply H. apply map_delete_nil, E.
Qed.

Lemma resolvePending_steady :
  forall msg s, steady s (fst (resolvePending msg s)).
Proof.
  intros msg s. unfold resolvePending.
  destruct (_ && _); [|apply steady_refl].
  destruct (as_key _) as [k|]; [|apply steady_refl].
  destruct (map_get k _) as [p|]; [|apply steady_refl].
  pose proof (settle_steady (pe_promise p) (set_pending (map_delete k (pending (cl s))) s)) as H.
  destruct (settle _ _) as [[k'|] s2]; cbn [fst snd] in *;
    (eapply steady_trans; [apply delete_steady|exact H]).
Qed.

Lemma onTick_steady :
  forall opts msg s, steady s (outcome_state (onTick opts msg s)).
Proof.
  intros opts msg s. unfold onTick.
  destruct (strict_eq _ _); [|apply steady_refl].
  destruct (_ && _); cbn [outcome_state]; same.
Qed.

Lemma onBuy_steady : forall msg s, steady s (onBuy msg s).
Proof.
  intros msg s. unfold onBuy.
  destruct (strict_eq _ _); [|apply steady_refl].
  destruct (active _); [|apply steady_refl].
  destruct (truthy _); [same|apply steady_refl].
Qed.

Lemma onOpenContract_steady :
  forall random now msg s, steady s (fst (fst (onOpenContract random now msg s))).
Proof.
  intros random now msg s. unfold onOpenContract, onSettlement.
  destruct (strict_eq _ _); [|apply steady_refl].
  destruct (negb (truthy _)); [apply steady_refl|].
  destruct (negb (settlementGuard _ _)); [apply steady_refl|].
  destruct (isFinal _); [|apply steady_refl].
  cbn [fst].
  eapply steady_trans; [|apply finishTrade_steady]. same.
Qed.

Lemma onError_steady : forall msg s, steady s (onError msg s).
Proof.
  intros msg s. unfold onError. destruct (truthy _); [same|apply steady_refl].
Qed.

Lemma onMessage_steady :
  forall opts random now buf s,
    linked s -> steady s (outcome_state (onMessage opts random now buf s)).
Proof.
  intros opts random now buf s Hl. unfold onMessage.
  destruct (JSON_parse buf) as [msg|]; [|apply steady_refl].
  destruct (nullish msg); [apply steady_refl|].
  pose proof (resolvePending_steady msg s) as H1.
  destruct (resolvePending msg s) as [s1 settled] eqn:Hres. cbn [fst] in H1.
  pose proof (onTick_steady opts msg s1) as H2.
  destruct (onTick opts msg s1) as [s2|e s2]; cbn [outcome_state] in *;
    [|eapply steady_trans; eassumption].
  pose proof (onBuy_steady msg s2) as H3.
  pose proof (onOpenContract_steady random now msg (onBuy msg s2)) as H4.
  destruct (onOpenContract random now msg (onBuy msg s2)) as [[s4 caught] returned].
  cbn [fst] in H4.
  assert (H5 : steady s4 (if returned then s4 else onError msg s4)).
  { destruct returned; [apply steady_refl|apply onError_steady]. }
  pose proof (runCatch_steady now caught (if returned then s4 else onError msg s4)) as H6.
  assert (H06 : steady s (runCatch now caught (if returned then s4 else onError msg s4))).
  { exact (steady_trans _ _ _ H1 (steady_trans _ _ _ H2 (steady_trans _ _ _ H3
             (steady_trans _ _ _ H4 (steady_trans _ _ _ H5 H6))))). }
  destruct settled as [[k r]|]; cbn [outcome_state]; [|exact H06].
  eapply steady_trans; [exact H06|]. apply resume_steady. left.
  destruct (resolvePending_cases msg s s1 _ Hres) as (_ & _ & _ & _ & Hne).
  destruct Hl as (L1 & _). destruct H06 as (W & _). rewrite W. exact (L1 Hne).
Qed.

Lemma requestTimeout_steady :
  forall random now id p type s, steady s (requestTimeout random now id p type s).
Proof.
  intros random now id p type s. unfold requestTimeout.
  destruct (map_has id _); [|apply steady_refl].
  pose proof (settle_steady p (set_pending (map_delete id (pending (cl s))) s)) as H.
  destruct (settle _ _) as [[k|] s2]; cbn [snd] in H.
  - eapply steady_trans; [apply delete_steady|]. eapply steady_trans; [exact H|].
    apply resume_steady. right. eexists. reflexivity.
  - eapply steady_trans; [apply delete_steady|exact H].
Qed.

Lemma connect_linked : forall s, linked s -> linked (connect s).
Proof.
  intros s (L1 & L2 & L3 & L4). unfold connect.
  destruct (ws (cl s)) as [[| | |]|] eqn:E; unfold linked; cbn; rewrite ?E;
    repeat split; auto; try discriminate;
    intros H; try (apply L1 in H); try (apply L4 in H); congruence.
Qed.

Lemma rejectAll_steady :
  forall m s, steady s (fst (rejectAll m s)).
Proof.
  induction m as [|[k p] m IH]; intros s; [apply steady_refl|].
  cbn [rejectAll].
  pose proof (settle_steady (pe_promise p) s) as H.
  destruct (settle (pe_promise p) s) as [[k'|] s1]; cbn [snd] in H.
  - pose proof (IH s1) as H1. destruct (rejectAll m s1) as [s2 ks]. cbn [fst] in *.
    eapply steady_trans; eassumption.
  - eapply steady_trans; [exact H|apply IH].
Qed.

Lemma resumeAll_steady :
  forall random now e ks s, steady s (resumeAll random now e ks s).
Proof.
  intros random now e ks. unfold resumeAll.
  induction ks as [|k ks IH]; intros s; [apply steady_refl|].
  cbn [fold_left]. eapply steady_trans; [|apply IH].
  apply resume_steady. right. eexists. reflexivity.
Qed.

Lemma onOpen_effect :
  forall opts random now s,
    let s' := onOpen opts random now (set_ws (Some OPEN) s) in
    ws (cl s') = Some OPEN
    /\ connected (st s') = true
    /\ pingTimer (cl s') = true
    /\ reconnectAttempt (cl s') = 0
    /\ authorized (st s') = authorized (st s)
    /\ defaults (st s') = defaults (st s).
Proof.
  intros opts random now s. unfold onOpen. cbn zeta.
  match goal with
  | |- context [send ?r ?n ?pl ?ty ?k ?x] =>
      pose proof (send_steady r n pl ty k x) as H;
      pose proof (send_st r n pl ty k x) as Hst;
      destruct (send r n pl ty k x) as [s3 [e|]]
  end; cbn [fst] in *; destruct H as (W & P & R & C & D & _ & _);
    cbn in *; rewrite ?Hst; cbn; repeat split; assumption.
Qed.

Lemma onOpen_linked :
  forall opts random now s, linked (onOpen opts random now (set_ws (Some OPEN) s)).
Proof.
  intros opts random now s.
  destruct (onOpen_effect opts random now s) as (W & C & _).
  unfold linked. rewrite W, C. repeat split; reflexivity.
Qed.

Lemma onClose_effect :
  forall opts random now s,
    let s' := onClose opts random now (set_ws (Some CLOSED) s) in
    ws (cl s') = Some CLOSED
    /\ pingTimer (cl s') = false
    /\ pending (cl s') = []
    /\ connected (st s') = false
    /\ authorized (st s') = false
    /\ defaults (st s') = defaults (st s).
Proof.
  intros opts random now s. unfold onClose. cbn zeta.
  set (s2 := set_pingTimer false
               (set_authorized false (set_connected false (set_ws (Some CLOSED) s)))).
  pose proof (rejectAll_steady (pending (cl s2)) s2) as H1.
  destruct (rejectAll_frame (pending (cl s2)) s2) as [Hc _].
  destruct (rejectAll (pending (cl s2)) s2) as [s3 ks]. cbn [fst] in *.
  set (s5 := _reconnect opts (set_pending [] s3)).
  pose proof (resumeAll_steady random now (ErrText "WebSocket closed") ks s5) as H2.
  destruct (resumeAll_frame random now (ErrText "WebSocket closed") ks s5) as [Hc5 _].
  destruct H1 as (W1 & P1 & R1 & C1 & D1 & _ & A1).
  destruct H2 as (W2 & P2 & R2 & C2 & D2 & _ & A2).
  assert (Hw : ws (cl s5) = Some CLOSED) by (subst s5; cbn; rewrite W1; reflexivity).
  assert (Ha3 : authorized (st s3) = false).
  { destruct (authorized (st s3)) eqn:E; [|reflexivity].
    destruct (A1 eq_refl) as [H|H]; cbn in H; discriminate. }
  assert (Ha5 : authorized (st s5) = false) by exact Ha3.
  assert (Ha : authorized (st (resumeAll random now (ErrText "WebSocket closed") ks s5)) = false).
  { destruct (authorized (st (resumeAll random now (ErrText "WebSocket closed") ks s5))) eqn:E;
      [|reflexivity].
    destruct (A2 eq_refl) as [H|H]; congruence. }
  rewrite Ha, Hc5, C2, D2. subst s5. cbn. rewrite W1, P1, C1, D1. cbn.
  repeat split; reflexivity.
Qed.

Lemma onClose_linked :
  forall opts random now s, linked (onClose opts random now (set_ws (Some CLOSED) s)).
Proof.
  intros opts random now s.
  destruct (onClose_effect opts random now s) as (W & P & Q & C & A & _).
  unfold linked. rewrite W, P, Q, A. repeat split; intros; congruence.
Qed.

Lemma connect_defaults : forall s, defaults (st (connect s)) = defaults (st s).
Proof.
  intros s. unfold connect. destruct (ws (cl s)) as [[| | |]|]; reflexivity.
Qed.

Lemma steady_defaults : forall s s', steady s s' -> defaults (st s') = defaults (st s).
Proof.
  intros s s' H. apply H.
Qed.

(** Every event keeps the flags of the connection in agreement with the
    socket, and only POST /set-defaults changes the defaults. *)
Lemma step_linked :
  forall opts random now e s,
    linked s ->
    linked (outcome_state (step opts random now e s))
    /\ (defaults (st (outcome_state (step opts random now e s))) = defaults (st s)
        \/ exists sym cur bas, e = EvSetDefaults sym cur bas).
Proof.
  intros opts random now e s Hl.
  assert (Hst : forall s', steady s s' ->
                  linked s' /\ (defaults (st s') = defaults (st s)
                                \/ exists sym cur bas, e = EvSetDefaults sym cur bas)).
  { intros s' H. split; [exact (steady_linked s s' H Hl)|left; apply H]. }
  destruct e; cbn [step outcome_state].
  - split; [apply connect_linked, Hl|left; apply connect_defaults].
  - split; [apply onOpen_linked|left; apply (onOpen_effect opts random now s)].
  - apply Hst, onMessage_steady, Hl.
  - split; [apply onClose_linked|left; apply (onClose_effect opts random now s)].
  - apply Hst. same.
  - destruct (nth_error (timers (rt s)) i) as [t|]; cbn [outcome_state];
      [|apply Hst, steady_refl].
    set (s0 := set_timers (remove_nth i (timers (rt s))) s).
    assert (H0 : steady s s0) by same.
    destruct t as [id p type|cid|delay]; cbn [fire].
    + apply Hst. eapply steady_trans; [exact H0|apply requestTimeout_steady].
    + apply Hst. eapply steady_trans; [exact H0|apply tradeTimeout_steady].
    + split; [apply connect_linked, (steady_linked s s0 H0 Hl)|].
      left. rewrite connect_defaults. reflexivity.
  - apply Hst. unfold ping. destruct (_ && _); [same|apply steady_refl].
  - pose proof (placeTrade_steady random now o s) as H.
    destruct (placeTrade random now o s) as [s1 [r|x|]]; cbn [fst outcome_state] in *;
      apply Hst; try exact H; (eapply steady_trans; [exact H|same]).
  - destruct (String.eqb sym ""); cbn [outcome_state]; [apply Hst; same|].
    pose proof (subscribeTicks_steady random now (JStr sym) ByHttp s) as H.
    destruct (subscribeTicks random now (JStr sym) ByHttp s) as [s1 [x|]];
      cbn [fst outcome_state] in *; apply Hst; [|exact H].
    eapply steady_trans; [exact H|apply ticksSettled_steady].
  - split; [|right; do 3 eexists; reflexivity].
    destruct Hl as (L1 & L2 & L3 & L4). unfold linked. cbn. repeat split; assumption.
Qed.

Lemma or_default_set : forall new old, old <> "" -> or_default new old <> "".
Proof.
  intros new old H. unfold or_default.
  destruct (String.eqb_spec new ""); assumption.
Qed.

Lemma step_defaultsSet :
  forall opts random now e s,
    linked s -> defaultsSet s -> defaultsSet (outcome_state (step opts random now e s)).
Proof.
  intros opts random now e s Hl (D1 & D2 & D3).
  destruct (step_linked opts random now e s Hl) as [_ [H|(sym & cur & bas & ->)]].
  - unfold defaultsSet. rewrite H. repeat split; assumption.
  - unfold defaultsSet. cbn. repeat split; apply or_default_set; assumption.
Qed.

Lemma run_linked :
  forall opts random tr s,
    linked s -> linked (outcome_state (run opts random tr s)).
Proof.
  intros opts random tr. induction tr as [|[now e] tr IH]; intros s Hl; [assumption|].
  cbn [run].
  destruct (step_linked opts random now e s Hl) as [H1 _].
  destruct (step opts random now e s) as [s1|x s1]; cbn [outcome_state] in *.
  - apply IH; assumption.
  - assumption.
Qed.

Lemma run_defaultsSet :
  forall opts random tr s,
    linked s -> defaultsSet s -> defaultsSet (outcome_state (run opts random tr s)).
Proof.
  intros opts random tr. induction tr as [|[now e] tr IH]; intros s Hl Hd; [assumption|].
  cbn [run].
  destruct (step_linked opts random now e s Hl) as [H1 _].
  pose proof (step_defaultsSet opts random now e s Hl Hd) as H2.
  destruct (step opts random now e s) as [s1|x s1]; cbn [outcome_state] in *.
  - apply IH; assumption.
  - assumption.
Qed.

Lemma initial_linked : forall sym cur, linked (initial sym cur).
Proof.
  intros sym cur. unfold linked. cbn. repeat split; intros H; congruence.
Qed.

(** X16: in every state that the client reaches from its initial state,
    whatever the events, the client is authorized only while it is
    connected; and while it is not connected, no request is pending and the
    heartbeat is stopped. *)
Theorem client_is_authorized_only_while_connected :
  forall opts random tr sym cur,
    let s := outcome_state (run opts random tr (initial sym cur)) in
    (authorized (st s) = true -> connected (st s) = true)
    /\ (connected (st s) = false ->
        pending (cl s) = [] /\ pingTimer (cl s) = false).
Proof.
  intros opts random tr sym cur s.
  assert (Hl : linked s) by (apply run_linked, initial_linked).
  destruct Hl as (L1 & L2 & L3 & L4). split.
  - intros H. apply L2, L3, H.
  - intros H. split.
    + destruct (pending (cl s)) as [|x l] eqn:E; [reflexivity|].
      assert (Ho : ws (cl s) = Some OPEN) by (apply L1; discriminate).
      rewrite (L2 Ho) in H. discriminate.
    + destruct (pingTimer (cl s)) eqn:E; [|reflexivity].
      rewrite (L2 (L4 eq_refl)) in H. discriminate.
Qed.

Lemma truthy_or_default :
  forall v d, d <> "" -> truthy (js_or v (JStr d)) = true.
Proof.
  intros v d H. unfold js_or. destruct (truthy v) eqn:E; [exact E|].
  cbn. destruct (String.eqb_spec d ""); [contradiction|reflexivity].
Qed.

(** X17: the defaults are never empty, and so every proposal names a
    symbol, a currency, a basis and a duration unit.  state.js starts with
    defaults that are not empty, and POST /set-defaults, called with
    strings, replaces a default only by a string that is not empty (lines
    48-50 of server.js); so in every state the client reaches, the proposal
    request built for any order (lines 235-244) has these four fields
    truthy, whatever the order leaves out. *)
Theorem proposals_name_symbol_currency_and_basis :
  forall opts random tr sym cur o,
    sym <> "" -> cur <> "" ->
    let s := outcome_state (run opts random tr (initial sym cur)) in
    defaultsSet s
    /\ truthy (pr_symbol (proposalReq o s)) = true
    /\ truthy (pr_currency (proposalReq o s)) = true
    /\ truthy (pr_basis (proposalReq o s)) = true
    /\ truthy (pr_duration_unit (proposalReq o s)) = true.
Proof.
  intros opts random tr sym cur o Hsym Hcur s.
  assert (Hd : defaultsSet s).
  { apply run_defaultsSet; [apply initial_linked|].
    unfold defaultsSet. cbn. repeat split; try assumption. discriminate. }
  split; [exact Hd|]. destruct Hd as (D1 & D2 & D3).
  unfold proposalReq. cbn [pr_symbol pr_currency pr_basis pr_duration_unit].
  repeat split.
  - apply truthy_or_default, D1.
  - apply truthy_or_default, D2.
  - unfold js_or at 1.
    rewrite (truthy_or_default (basis o) _ D3). apply truthy_or_default, D3.
  - apply truthy_or_default. discriminate.
Qed.

(** X17 after POST /set-defaults with a symbol alone. *)
Lemma proposals_name_symbol_currency_and_basis_witness :
  defaultsSet (outcome_state
                 (run opts0 counting [(0, EvSetDefaults "R_100" "" ""); (1, EvOpen)]
                    (initial "R_50" "USD")))
  /\ truthy (pr_symbol (proposalReq digitEven
               (outcome_state
                  (run opts0 counting [(0, EvSetDefaults "R_100" "" ""); (1, EvOpen)]
                     (initial "R_50" "USD"))))) = true.
Proof.
  destruct (proposals_name_symbol_currency_and_basis opts0 counting
              [(0, EvSetDefaults "R_100" "" ""); (1, EvOpen)] "R_50" "USD" digitEven)
    as (H1 & H2 & _).
  - discriminate.
  - discriminate.
  - split; [exact H1|exact H2].
Defined.

(** X18: what GET /status and GET /health report (server.js, lines 17-44)
    in any state the client reaches, for a capacity that is not negative:
    [buffer_size] is between 0 and [maxTicksBuffer], [queue_length] is not
    negative, [inProgress] is true exactly when [active] is not null, and
    [authorized] is true only when [connected] is. *)
Theorem status_reply_is_consistent :
  forall opts random tr sym cur now,
    0 <= maxTicksBuffer opts ->
    let s := outcome_state (run opts random tr (initial sym cur)) in
    0 <= buffer_size (statusRoute s) <= maxTicksBuffer opts
    /\ 0 <= queue_length (statusRoute s)
    /\ (r_inProgress (statusRoute s) = true <-> r_active (statusRoute s) <> None)
    /\ (r_authorized (statusRoute s) = true -> r_connected (statusRoute s) = true)
    /\ (h_authorized (healthRoute now s) = true -> h_connected (healthRoute now s) = true)
    /\ h_ok (healthRoute now s) = true.
Proof.
  intros opts random tr sym cur now HC s.
  assert (Hb : bufferBounded opts s).
  { apply (run_preserves opts random _ _ (bufferBounded_closed opts random HC) tr).
    - unfold bufferBounded. cbn. lia.
    - apply any_trace_allowed. }
  assert (Hs : slotConsistent s).
  { apply (run_preserves opts random _ _ (slotConsistent_closed opts random) tr).
    - reflexivity.
    - apply any_trace_allowed. }
  assert (Hl : linked s) by (apply run_linked, initial_linked).
  destruct Hl as (L1 & L2 & L3 & L4).
  unfold bufferBounded in Hb. unfold slotConsistent in Hs. cbn.
  repeat split; try lia.
  - intros H E. rewrite Hs, E in H. discriminate.
  - intros H. rewrite Hs. destruct (active (trade (st s))); [reflexivity|contradiction].
  - intros H. apply L2, L3, H.
  - intros H. apply L2, L3, H.
Qed.

(** X18 once the socket has opened. *)
Lemma status_reply_is_consistent_witness :
  0 <= buffer_size (statusRoute opened) <= maxTicksBuffer opts0
  /\ 0 <= queue_length (statusRoute opened)
  /\ (r_inProgress (statusRoute opened) = true <-> r_active (statusRoute opened) <> None)
  /\ (r_authorized (statusRoute opened) = true -> r_connected (statusRoute opened) = true)
  /\ (h_authorized (healthRoute 7 opened) = true -> h_connected (healthRoute 7 opened) = true)
  /\ h_ok (healthRoute 7 opened) = true.
Proof.
  apply (status_reply_is_consistent opts0 counting [(0, EvConnect); (5, EvOpen)]
           "R_50" "USD" 7).
  vm_compute. discriminate.
Defined.

(** X19: in any state the client reaches, a trade submitted with the slot
    free while the client is not connected is refused: the client is not
    authorized then, so [_startTrade] throws "Not authorized yet" (line
    218) before it touches the slot.  The caller gets this error, the trade
    state and the pending requests are what they were, and nothing is
    sent. *)
Theorem submission_while_disconnected_is_refused :
  forall opts random tr sym cur now o,
    let s := outcome_state (run opts random tr (initial sym cur)) in
    connected (st s) = false ->
    inProgress (trade (st s)) = false ->
    exists s',
      step opts random now (EvTrade o) s = Done s'
      /\ replies (rt s')
         = replies (rt s)
           ++ [TradeError (drawn random (draws (rt s))) (ErrText "Not authorized yet")]
      /\ trade (st s') = trade (st s)
      /\ sent (rt s') = sent (rt s)
      /\ pending (cl s') = pending (cl s).
Proof.
  intros opts random tr sym cur now o s Hdown Hfree.
  assert (Hl : linked s) by (apply run_linked, initial_linked).
  destruct Hl as (L1 & L2 & L3 & L4).
  assert (Ha : authorized (st s) = false).
  { destruct (authorized (st s)) eqn:E; [|reflexivity].
    rewrite (L2 (L3 eq_refl)) in Hdown. discriminate. }
  cbn [step]. unfold placeTrade. cbn [_nextReqId]. cbn zeta.
  change (inProgress (trade (st (set_draws (S (draws (rt s))) s))))
    with (inProgress (trade (st s))).
  rewrite Hfree. unfold _startTrade.
  change (authorized (st (set_draws (S (draws (rt s))) s))) with (authorized (st s)).
  rewrite Ha. cbn [negb].
  eexists. split; [reflexivity|]. cbn. repeat split; reflexivity.
Qed.

(** X19 before the first connection. *)
Lemma submission_while_disconnected_is_refused_witness :
  exists s',
    step opts0 counting 0 (EvTrade digitEven) (initial "R_50" "USD") = Done s'
    /\ replies (rt s') = [TradeError 1 (ErrText "Not authorized yet")]
    /\ sent (rt s') = [].
Proof.
  destruct (submission_while_disconnected_is_refused opts0 counting [] "R_50" "USD"
              0 digitEven eq_refl eq_refl) as (s' & E & Hr & _ & Hs & _).
  exists s'. split; [exact E|]. split; [exact Hr|exact Hs].
Defined.

Lemma resume_rejected_quiet :
  forall random now k e s,
    sent (rt (resume random now k (inl e) s)) = sent (rt s)
    /\ queue (trade (st (resume random now k (inl e) s))) = queue (trade (st s))
    /\ promises (rt (resume random now k (inl e) s)) = promises (rt s).
Proof.
  intros random now k e s.
  destruct k as [|sym c|p c|p c|p cid c]; try destruct c; repeat split; reflexivity.
Qed.

Lemma resumeAll_quiet :
  forall random now e ks s,
    sent (rt (resumeAll random now e ks s)) = sent (rt s)
    /\ queue (trade (st (resumeAll random now e ks s))) = queue (trade (st s))
    /\ promises (rt (resumeAll random now e ks s)) = promises (rt s).
Proof.
  intros random now e ks. unfold resumeAll.
  induction ks as [|k ks IH]; intros s; [repeat split; reflexivity|].
  cbn [fold_left].
  destruct (IH (resume random now k (inl e) s)) as (H1 & H2 & H3).
  destruct (resume_rejected_quiet random now k e s) as (H4 & H5 & H6).
  repeat split; congruence.
Qed.

Lemma settle_sent :
  forall n s, sent (rt (snd (settle n s))) = sent (rt s).
Proof.
  intros n s. unfold settle. destruct (take_promise _ _) as [[a r]|]; reflexivity.
Qed.

Lemma rejectAll_quiet :
  forall m s,
    sent (rt (fst (rejectAll m s))) = sent (rt s)
    /\ st (fst (rejectAll m s)) = st s.
Proof.
  induction m as [|[k p] m IH]; intros s; [split; reflexivity|].
  cbn [rejectAll].
  pose proof (settle_sent (pe_promise p) s) as H1.
  pose proof (settle_st (pe_promise p) s) as H2.
  destruct (settle (pe_promise p) s) as [[k'|] s1]; cbn [snd] in H1, H2.
  - destruct (IH s1) as [H3 H4].
    destruct (rejectAll m s1) as [s2 ks]. cbn [fst] in *. split; congruence.
  - destruct (IH s1) as [H3 H4]. split; congruence.
Qed.

(** X20: the close handler (lines 136-152), in any state.  When it is
    done, with the code that awaited the rejected requests, no request is
    pending, the client is neither connected nor authorized, the heartbeat
    is stopped, and nothing has been written to the socket.  The queue of
    trades is kept, and the one timer added is the sleep of [_reconnect];
    the timers armed before stay armed. *)
Theorem close_resets_the_connection :
  forall opts random now s,
    exists s',
      step opts random now EvClose s = Done s'
      /\ pending (cl s') = []
      /\ connected (st s') = false
      /\ authorized (st s') = false
      /\ pingTimer (cl s') = false
      /\ sent (rt s') = sent (rt s)
      /\ queue (trade (st s')) = queue (trade (st s))
      /\ timers (rt s')
         = timers (rt s) ++ [TSleep (reconnectDelay opts (reconnectAttempt (cl s) + 1))].
Proof.
  intros opts random now s. cbn [step]. eexists. split; [reflexivity|].
  destruct (onClose_effect opts random now s) as (_ & P & Q & C & A & _).
  destruct (onClose_backoff opts random now (set_ws (Some CLOSED) s)) as [_ T].
  split; [exact Q|]. split; [exact C|]. split; [exact A|]. split; [exact P|].
  split; [|split; [|exact T]].
  - unfold onClose. cbn zeta.
    set (s2 := set_pingTimer false
                 (set_authorized false (set_connected false (set_ws (Some CLOSED) s)))).
    destruct (rejectAll_quiet (pending (cl s2)) s2) as [H1 _].
    destruct (rejectAll (pending (cl s2)) s2) as [s3 ks]. cbn [fst] in H1.
    destruct (resumeAll_quiet random now (ErrText "WebSocket closed") ks
                (_reconnect opts (set_pending [] s3))) as (H2 & _).
    rewrite H2. cbn. exact H1.
  - unfold onClose. cbn zeta.
    set (s2 := set_pingTimer false
                 (set_authorized false (set_connected false (set_ws (Some CLOSED) s)))).
    destruct (rejectAll_quiet (pending (cl s2)) s2) as [_ H1].
    destruct (rejectAll (pending (cl s2)) s2) as [s3 ks]. cbn [fst] in H1.
    destruct (resumeAll_quiet random now (ErrText "WebSocket closed") ks
                (_reconnect opts (set_pending [] s3))) as (_ & H2 & _).
    rewrite H2. cbn. rewrite H1. reflexivity.
Qed.

(** X21: the two failures of the buy step (lines 254-258).  A buy
    response without a contract id makes the start sequence throw
    "No contract_id returned".  A buy response with a contract id that
    arrives when no trade is active makes line 258 throw a TypeError: the
    contract is bought and the client does not follow it.  In both cases no
    subscription request is sent and no timeout is armed for the trade; the
    error is the reply to the caller of [placeTrade], which leaves the slot
    as it is, or, for a trade started from the queue, it is recorded in
    [lastResult] with the slot released. *)
Theorem buy_step_failures :
  forall random now p c res s,
    let cid := prop "contract_id" (prop "buy" res) in
    let s' := resume random now (AwaitBuy p c) (inr res) s in
    truthy cid = false \/ active (trade (st s)) = None ->
    exists e,
      advance random now (AwaitBuy p c) (inr res) s = Some (p, c, s, Threw e)
      /\ e = (if truthy cid
              then ErrTypeError "Cannot set properties of null (setting 'contractId')"
              else ErrText "No contract_id returned")
      /\ sent (rt s') = sent (rt s)
      /\ timers (rt s') = timers (rt s)
      /\ pending (cl s') = pending (cl s)
      /\ promises (rt s') = promises (rt s)
      /\ match c with
         | ByPlaceTrade =>
             replies (rt s') = replies (rt s) ++ [TradeError (requestId p) e]
             /\ trade (st s') = trade (st s)
         | ByFinishTrade =>
             replies (rt s') = replies (rt s)
             /\ trade (st s')
                = {| inProgress := false; queue := queue (trade (st s));
                     lastResult := Some (errorResult e now); active := None |}
         end.
Proof.
  intros random now p c res s cid s' H. subst s'.
  unfold advance, resume, afterBuy. fold cid.
  destruct (truthy cid) eqn:Hc; cbn [negb].
  - destruct H as [H|H]; [discriminate|]. rewrite H.
    eexists. split; [reflexivity|]. split; [reflexivity|].
    destruct c; cbn; repeat split; reflexivity.
  - eexists. split; [reflexivity|]. split; [reflexivity|].
    destruct c; cbn; repeat split; reflexivity.
Qed.

(** X21 for a buy response that finds no active trade. *)
Lemma buy_step_failures_witness :
  exists e,
    advance counting 80 (AwaitBuy {| requestId := 1; order := digitEven |} ByPlaceTrade)
      (inr (buyResponse 3 101)) ready
    = Some ({| requestId := 1; order := digitEven |}, ByPlaceTrade, ready, Threw e)
    /\ e = ErrTypeError "Cannot set properties of null (setting 'contractId')".
Proof.
  destruct (buy_step_failures counting 80 {| requestId := 1; order := digitEven |}
              ByPlaceTrade (buyResponse 3 101) ready (or_intror eq_refl))
    as (e & E & He & _).
  exists e. split; [exact E|exact He].
Defined.

(** X22: the open handler up to its first await (lines 43-59), in any
    state: the client is connected, [lastError] is cleared, the attempt
    counter is reset and the heartbeat is started; one frame is written,
    the authorize request with the token, and its response is awaited.
    Nothing else happens before that response: the flag [authorized], the
    ticks and the trade state are what they were. *)
Theorem open_sends_authorize :
  forall opts random now s,
    exists s',
      step opts random now EvOpen s = Done s'
      /\ connected (st s') = true
      /\ lastError (st s') = None
      /\ reconnectAttempt (cl s') = 0
      /\ pingTimer (cl s') = true
      /\ sent (rt s')
         = sent (rt s) ++ [Tagged (ReqAuthorize (token opts)) (drawn random (draws (rt s)))]
      /\ awaits (drawn random (draws (rt s))) AwaitAuthorize s'
      /\ authorized (st s') = authorized (st s)
      /\ ticks (st s') = ticks (st s)
      /\ trade (st s') = trade (st s).
Proof.
  intros opts random now s. cbn [step]. unfold onOpen. cbn zeta.
  match goal with
  | |- context [send ?r ?n ?pl ?ty ?k ?x] =>
      assert (Ho : ws_is_open x = true) by reflexivity;
      pose proof (send_awaits r n pl ty k x Ho) as Haw;
      rewrite (send_open r n pl ty k x Ho) in *
  end.
  eexists. split; [reflexivity|]. cbn -[drawn] in *.
  repeat split; try reflexivity. exact Haw.
Qed.

(** X24: a subscription and its acknowledgement.  POST /subscribe with a
    symbol on an open socket empties the buffer and sends one request; the
    first message of the stream, a tick that carries the id of the request,
    resolves it, and is stored as a tick by the same run of the handler
    (lines 79-95).  The caller is then answered with the symbol, and the
    buffer holds that tick. *)
Theorem subscription_is_acknowledged_by_its_first_tick :
  forall opts random t1 t2 sym msg s,
    sym <> "" ->
    ws_is_open s = true ->
    isTick msg ->
    answers msg (drawn random (draws (rt s))) ->
    truthy (prop "error" msg) = false ->
    1 <= maxTicksBuffer opts ->
    exists s',
      run opts random [(t1, EvSubscribe sym); (t2, EvMessage (Json msg))] s = Done s'
      /\ sent (rt s')
         = sent (rt s) ++ [Tagged (ReqTicks (JStr sym)) (drawn random (draws (rt s)))]
      /\ replies (rt s') = replies (rt s) ++ [SubscribeReply (JStr sym)]
      /\ buffer (ticks (st s')) = [prop "tick" msg]
      /\ last (ticks (st s')) = prop "tick" msg
      /\ symbol (ticks (st s')) = js_or (prop "symbol" (prop "tick" msg)) (JStr sym)
      /\ promises (rt s') = promises (rt s)
      /\ pending (cl s') = map_delete (drawn random (draws (rt s))) (pending (cl s)).
Proof.
  intros opts random t1 t2 sym msg s Hsym Hopen [Ht Hn] Hans He HC.
  pose proof (strict_eq_JStr_inv _ _ Ht) as Hty.
  pose proof (prop_JStr_not_nullish _ _ _ Hty) as Hnm.
  cbn [run step].
  destruct (String.eqb_spec sym "") as [E|_]; [contradiction|].
  unfold subscribeTicks.
  set (s0 := set_ticks {| symbol := JStr sym; last := last (ticks (st s)); buffer := [] |} s).
  assert (Ho0 : ws_is_open s0 = true) by exact Hopen.
  pose proof (resolve_after_send random t1 (ReqTicks (JStr sym)) "ticks_subscribe"
                (AwaitTicks (JStr sym) ByHttp) s0 msg Ho0 Hans) as R.
  rewrite (send_open random t1 (ReqTicks (JStr sym)) "ticks_subscribe"
             (AwaitTicks (JStr sym) ByHttp) s0 Ho0) in *.
  cbn [fst] in R.
  rewrite (onMessage_settled opts random t2 msg _ _ _ Hnm R).
  set (A := answered random (ReqTicks (JStr sym)) "ticks_subscribe" s0).
  rewrite (onTick_effect opts msg A Ht) by lia.
  cbn zeta. rewrite Hn, andb_false_r.
  unfold onBuy, onOpenContract. rewrite Hty.
  cbn [strict_eq String.eqb Ascii.eqb Bool.eqb]. cbn zeta.
  unfold onError. rewrite He. cbn [runCatch].
  unfold outcomeOf. rewrite He. cbn [resume ticksSettled].
  eexists. split; [reflexivity|].
  assert (Hb : lastn (Z.to_nat (maxTicksBuffer opts)) [prop "tick" msg]
               = [prop "tick" msg]).
  { apply lastn_all. cbn. lia. }
  cbn -[drawn map_delete lastn]. rewrite Hb. repeat split; reflexivity.
Qed.

(** X24 for a subscription to R_50. *)
Lemma subscription_is_acknowledged_by_its_first_tick_witness :
  exists s',
    run opts0 counting [(0, EvSubscribe "R_50"); (40, EvMessage (Json (ticksAck 1 "R_50")))]
      ready = Done s'
    /\ replies (rt s') = [SubscribeReply (JStr "R_50")]
    /\ buffer (ticks (st s')) = [prop "tick" (ticksAck 1 "R_50")].
Proof.
  destruct (subscription_is_acknowledged_by_its_first_tick opts0 counting 0 40 "R_50"
              (ticksAck 1 "R_50") ready) as (s' & E & _ & Hr & Hb & _).
  - discriminate.
  - reflexivity.
  - split; reflexivity.
  - split; vm_compute; reflexivity.
  - reflexivity.
  - vm_compute. discriminate.
  - exists s'. split; [exact E|]. split; [exact Hr|exact Hb].
Defined.

(** ** The callers that wait when the socket closes *)

Lemma map_set_entries :
  forall k v m x, In x (map_set k v m) -> x = (k, v) \/ In x m.
Proof.
  intros k v m x. induction m as [|[k' v'] m IH]; cbn.
  - intros [H|[]]; auto.
  - destruct (k =? k'); cbn.
    + intros [H|H]; auto.
    + intros [H|H]; auto. destruct (IH H); auto.
Qed.

Lemma NoDup_map_set_fresh :
  forall k v m,
    NoDup (map promiseOf m) ->
    ~ In (pe_promise v) (map promiseOf m) ->
    NoDup (map promiseOf (map_set k v m)).
Proof.
  intros k v m. induction m as [|[k' v'] m IH]; cbn; intros Hnd Hfresh.
  - constructor; [intros []|constructor].
  - inversion Hnd as [|a l Ha Hl]; subst.
    destruct (k =? k'); cbn.
    + constructor; [|exact Hl]. intros Hin. apply Hfresh. right. exact Hin.
    + constructor.
      * intros Hin. apply in_map_iff in Hin. destruct Hin as (x & Hx & Hin).
        destruct (map_set_entries _ _ _ _ Hin) as [->|Hm].
        -- apply Hfresh. left. unfold promiseOf in *. cbn in *. congruence.
        -- apply Ha. rewrite <- Hx. apply in_map, Hm.
      * apply IH; [exact Hl|]. intros Hin. apply Hfresh. right. exact Hin.
Qed.

Lemma NoDup_map_filter :
  forall (f : Z * PendingEntry -> bool) m,
    NoDup (map promiseOf m) -> NoDup (map promiseOf (filter f m)).
Proof.
  intros f m. induction m as [|x m IH]; cbn; intros H; [constructor|].
  inversion H as [|a l Ha Hl]; subst.
  destruct (f x); cbn; [|apply IH, Hl].
  constructor; [|apply IH, Hl].
  intros Hin. apply Ha. apply in_map_iff in Hin. destruct Hin as (y & Hy & Hin).
  apply filter_In in Hin. rewrite <- Hy. apply in_map, Hin.
Qed.

Lemma pendingFresh_closed :
  forall opts random, Closed opts random pendingFresh (fun _ => True).
Proof.
  intros opts random. unfold pendingFresh. constructor.
  - intros s s' _ _ Hp _ Hn _ H. rewrite Hp, Hn. exact H.
  - intros now payload type k s (Hnd & Hlt).
    destruct (send_footprint random now payload type k s) as [E|(Ep & _ & En & _)].
    + rewrite E. auto.
    + rewrite Ep, En. split.
      * apply NoDup_map_set_fresh; [exact Hnd|]. cbn. intros Hin.
        apply in_map_iff in Hin. destruct Hin as (x & Hx & Hin).
        apply Hlt in Hin. lia.
      * intros x Hin. destruct (map_set_entries _ _ _ _ Hin) as [->|Hm].
        -- unfold promiseOf. cbn. lia.
        -- apply Hlt in Hm. lia.
  - intros n s (Hnd & Hlt). destruct (settle_frame n s) as (Hc & _).
    destruct (settle_rt n s) as (Hn & _). rewrite Hc, Hn. auto.
  - intros s H. exact H.
  - intros k s (Hnd & Hlt). cbn. split.
    + apply NoDup_map_filter, Hnd.
    + intros x Hin. apply filter_In in Hin. apply Hlt, Hin.
  - intros s _. cbn. split; [constructor|intros x []].
  - intros s H. exact H.
  - intros s rid t p H. exact H.
  - intros s a cid H _ _ _. exact H.
  - intros q s H. exact H.
  - intros r s H. exact H.
  - intros msg s H. unfold onTick. destruct (strict_eq _ _); [|exact H].
    destruct (logTicks opts && nullish (prop "tick" msg)); exact H.
  - intros sym s H. exact H.
Qed.

Lemma take_promise_other :
  forall n m l a r k rest,
    n <> m ->
    take_promise n l = Some (a, r) ->
    take_promise m l = Some (k, rest) ->
    exists rest', take_promise m r = Some (k, rest').
Proof.
  intros n m l. induction l as [|[i b] l IH]; intros a r k rest Hnm Hn Hm; [discriminate|].
  cbn in Hn, Hm.
  destruct (Nat.eqb_spec n i) as [->|Hni].
  - inversion Hn; subst. destruct (Nat.eqb_spec m i) as [->|Hmi]; [contradiction|].
    destruct (take_promise m r) as [[a' r']|]; [|discriminate].
    inversion Hm; subst. eexists. reflexivity.
  - destruct (take_promise n l) as [[a' r']|] eqn:En; [|discriminate].
    inversion Hn; subst. cbn.
    destruct (Nat.eqb_spec m i) as [->|Hmi].
    + inversion Hm; subst. eexists. reflexivity.
    + destruct (take_promise m l) as [[a'' r'']|] eqn:Em; [|discriminate].
      inversion Hm; subst.
      destruct (IH a r' k r'' Hnm eq_refl eq_refl) as [rest' E]. rewrite E.
      eexists. reflexivity.
Qed.

(** The promises that [rejectAll] settles are those of the entries. *)
Lemma rejectAll_collects :
  forall m s id e k rest,
    NoDup (map promiseOf m) ->
    map_get id m = Some e ->
    take_promise (pe_promise e) (promises (rt s)) = Some (k, rest) ->
    In k (snd (rejectAll m s)).
Proof.
  induction m as [|[k0 p0] m IH]; intros s id e k rest Hnd Hget Htake; [discriminate|].
  cbn in Hget. cbn [rejectAll]. inversion Hnd as [|a l Ha Hl]; subst.
  destruct (id =? k0).
  - inversion Hget; subst. unfold settle. rewrite Htake.
    destruct (rejectAll m _) as [s2 ks]. left. reflexivity.
  - assert (Hne : pe_promise p0 <> pe_promise e).
    { intros E. apply Ha. unfold promiseOf at 1. cbn [snd]. rewrite E.
      clear - Hget. induction m as [|[k' v'] m IH]; [discriminate|].
      cbn in Hget. destruct (id =? k'); [inversion Hget; left; reflexivity|].
      right. apply IH, Hget. }
    unfold settle.
    destruct (take_promise (pe_promise p0) (promises (rt s))) as [[a r]|] eqn:E0.
    + destruct (take_promise_other _ _ _ _ _ _ _ Hne E0 Htake) as [rest' E1].
      pose proof (IH (set_promises r s) id e k rest' Hl Hget E1) as Hin.
      destruct (rejectAll m (set_promises r s)) as [s2 ks]. right. exact Hin.
    + exact (IH s id e k rest Hl Hget Htake).
Qed.

Lemma resume_rejected_replies :
  forall random now k e s,
    replies (rt (resume random now k (inl e) s)) = replies (rt s) ++ failureReply e k.
Proof.
  intros random now k e s.
  destruct k as [|sym c|p c|p c|p cid c]; try destruct c; cbn;
    rewrite ?app_nil_r; reflexivity.
Qed.

Lemma resumeAll_replies :
  forall random now e ks s,
    replies (rt (resumeAll random now e ks s))
    = replies (rt s) ++ flat_map (failureReply e) ks.
Proof.
  intros random now e ks. unfold resumeAll.
  induction ks as [|k ks IH]; intros s; cbn [fold_left flat_map].
  - rewrite app_nil_r. reflexivity.
  - rewrite IH, resume_rejected_replies, <- app_assoc. reflexivity.
Qed.

Lemma rejectAll_replies :
  forall m s, replies (rt (fst (rejectAll m s))) = replies (rt s).
Proof.
  induction m as [|[k p] m IH]; intros s; [reflexivity|].
  cbn [rejectAll]. unfold settle.
  destruct (take_promise (pe_promise p) (promises (rt s))) as [[a r]|].
  - pose proof (IH (set_promises r s)) as H.
    destruct (rejectAll m (set_promises r s)) as [s2 ks]. exact H.
  - apply IH.
Qed.

(** X25: a close answers every caller that waits.  In any state the
    client reaches, when the socket closes, the code awaiting the pending
    requests is resumed with the error "WebSocket closed" (lines 145-147):
    the replies that the close adds are the replies with this error to the
    HTTP callers behind the requests it settles, and the caller behind any
    request that is pending and awaited is among them. *)
Theorem close_answers_every_waiting_caller :
  forall opts random tr sym cur now id k,
    let s := outcome_state (run opts random tr (initial sym cur)) in
    awaits id k s ->
    exists s' ks,
      step opts random now EvClose s = Done s'
      /\ In k ks
      /\ replies (rt s')
         = replies (rt s) ++ flat_map (failureReply (ErrText "WebSocket closed")) ks.
Proof.
  intros opts random tr sym cur now id k s (e & rest & Hget & Htake).
  assert (Hf : pendingFresh s).
  { apply (run_preserves opts random _ _ (pendingFresh_closed opts random) tr).
    - split; [constructor|intros x []].
    - apply any_trace_allowed. }
  destruct Hf as (Hnd & _).
  cbn [step]. unfold onClose. cbn zeta.
  set (s2 := set_pingTimer false
               (set_authorized false (set_connected false (set_ws (Some CLOSED) s)))).
  pose proof (rejectAll_collects (pending (cl s2)) s2 id e k rest Hnd Hget Htake) as Hin.
  pose proof (rejectAll_replies (pending (cl s2)) s2) as Hr.
  destruct (rejectAll (pending (cl s2)) s2) as [s3 ks]. cbn [fst snd] in *.
  exists (resumeAll random now (ErrText "WebSocket closed") ks
            (_reconnect opts (set_pending [] s3))), ks.
  split; [reflexivity|]. split; [exact Hin|].
  rewrite resumeAll_replies. cbn. rewrite Hr. reflexivity.
Qed.

(** X25 for a POST /subscribe that waits while the authorization is under
    way. *)
Lemma close_answers_every_waiting_caller_witness :
  exists s' ks,
    step opts0 counting 20 EvClose
      (outcome_state (run opts0 counting subscribingUnauthorized (initial "R_50" "USD")))
    = Done s'
    /\ In (AwaitTicks (JStr "R_100") ByHttp) ks
    /\ replies (rt s')
       = replies (rt (outcome_state
                        (run opts0 counting subscribingUnauthorized (initial "R_50" "USD"))))
         ++ flat_map (failureReply (ErrText "WebSocket closed")) ks.
Proof.
  apply (close_answers_every_waiting_caller opts0 counting subscribingUnauthorized
           "R_50" "USD" 20 2 (AwaitTicks (JStr "R_100") ByHttp)).
  do 2 eexists. split; vm_compute; reflexivity.
Defined.

(** ** The allowed origins *)

Lemma splitOn_nonempty : forall sep s, splitOn sep s <> [].
Proof.
  intros sep s. induction s as [|c r IH]; cbn; [discriminate|].
  destruct (Ascii.eqb c sep); [discriminate|].
  destruct (splitOn sep r); discriminate.
Qed.

Lemma splitOn_none :
  forall sep s, allOf (fun c => negb (Ascii.eqb c sep)) s = true -> splitOn sep s = [s].
Proof.
  intros sep s. induction s as [|c r IH]; cbn; [reflexivity|].
  intros H. apply andb_prop in H. destruct H as [Hc Hr].
  destruct (Ascii.eqb c sep); [discriminate|]. rewrite (IH Hr). reflexivity.
Qed.

Lemma splitOn_app :
  forall sep a b,
    allOf (fun c => negb (Ascii.eqb c sep)) a = true ->
    splitOn sep (String.append a (String sep b)) = a :: splitOn sep b.
Proof.
  intros sep a b. induction a as [|c r IH]; cbn.
  - intros _. rewrite Ascii.eqb_refl. reflexivity.
  - intros H. apply andb_prop in H. destruct H as [Hc Hr].
    destruct (Ascii.eqb c sep); [discriminate|]. rewrite (IH Hr). reflexivity.
Qed.

Lemma trimStart_spaces : forall s, allOf isSpace s = true -> trimStart s = "".
Proof.
  induction s as [|c r IH]; cbn; [reflexivity|].
  intros H. apply andb_prop in H. destruct H as [Hc Hr]. rewrite Hc. apply IH, Hr.
Qed.

Lemma trimStart_fixed : forall s, startsWithSpace s = false -> trimStart s = s.
Proof.
  intros [|c r]; cbn; [reflexivity|]. intros H. rewrite H. reflexivity.
Qed.

Lemma trimEnd_fixed : forall s, endsInSpace s = false -> trimEnd s = s.
Proof.
  induction s as [|c r IH]; [reflexivity|].
  destruct r as [|c' r'].
  - cbn. intros H. rewrite H. reflexivity.
  - intros H. change (endsInSpace (String c (String c' r'))) with (endsInSpace (String c' r')) in H.
    change (trimEnd (String c (String c' r')))
      with (match trimEnd (String c' r') with
            | EmptyString => if isSpace c then EmptyString else String c EmptyString
            | r0 => String c r0
            end).
    rewrite (IH H). reflexivity.
Qed.

Lemma trimEnd_ends : forall s, endsInSpace (trimEnd s) = false.
Proof.
  induction s as [|c r IH]; [reflexivity|].
  cbn [trimEnd]. destruct (trimEnd r) as [|c' r'] eqn:E.
  - destruct (isSpace c) eqn:Hc; cbn; [reflexivity|exact Hc].
  - exact IH.
Qed.

Lemma trimStart_starts : forall s, startsWithSpace (trimStart s) = false.
Proof.
  induction s as [|c r IH]; [reflexivity|].
  cbn [trimStart]. destruct (isSpace c) eqn:Hc; [exact IH|]. cbn. exact Hc.
Qed.

Lemma trimEnd_starts :
  forall s, startsWithSpace s = false -> startsWithSpace (trimEnd s) = false.
Proof.
  intros [|c r]; [reflexivity|]. cbn [startsWithSpace trimEnd]. intros Hc.
  destruct (trimEnd r); [rewrite Hc|]; cbn; try exact Hc.
Qed.

Lemma trim_clean :
  forall s, startsWithSpace (trim s) = false /\ endsInSpace (trim s) = false.
Proof.
  intros s. unfold trim. split.
  - apply trimEnd_starts, trimStart_starts.
  - apply trimEnd_ends.
Qed.

Lemma trim_fixed :
  forall s, startsWithSpace s = false -> endsInSpace s = false -> trim s = s.
Proof.
  intros s H1 H2. unfold trim. rewrite (trimStart_fixed s H1). apply trimEnd_fixed, H2.
Qed.

Lemma allOf_trimEnd :
  forall p s, allOf p s = true -> allOf p (trimEnd s) = true.
Proof.
  intros p. induction s as [|c r IH]; [reflexivity|].
  cbn [allOf trimEnd]. intros H. apply andb_prop in H. destruct H as [Hc Hr].
  specialize (IH Hr).
  destruct (trimEnd r) as [|c' r'].
  - destruct (isSpace c); cbn; rewrite ?Hc; reflexivity.
  - cbn [allOf] in *. rewrite Hc. exact IH.
Qed.

Lemma allOf_trimStart :
  forall p s, allOf p s = true -> allOf p (trimStart s) = true.
Proof.
  intros p. induction s as [|c r IH]; [reflexivity|].
  cbn [trimStart]. intros H. destruct (isSpace c); [|exact H].
  cbn in H. apply andb_prop in H. apply IH, H.
Qed.

Lemma splitOn_allOf :
  forall p sep s,
    allOf p s = true -> Forall (fun x => allOf p x = true) (splitOn sep s).
Proof.
  intros p sep. induction s as [|c r IH]; cbn; intros H.
  - repeat constructor.
  - apply andb_prop in H. destruct H as [Hc Hr]. specialize (IH Hr).
    destruct (Ascii.eqb c sep); [constructor; [reflexivity|exact IH]|].
    destruct (splitOn sep r) as [|h t].
    + repeat constructor. cbn. rewrite Hc. reflexivity.
    + inversion IH; subst. constructor; [cbn; rewrite Hc; assumption|assumption].
Qed.

Lemma splitOn_blank :
  forall sep s,
    allOf (fun c => isSpace c || Ascii.eqb c sep) s = true ->
    Forall (fun x => allOf isSpace x = true) (splitOn sep s).
Proof.
  intros sep. induction s as [|c r IH]; cbn; intros H.
  - repeat constructor.
  - apply andb_prop in H. destruct H as [Hc Hr]. specialize (IH Hr).
    destruct (Ascii.eqb c sep) eqn:E; [constructor; [reflexivity|exact IH]|].
    rewrite orb_false_r in Hc.
    destruct (splitOn sep r) as [|h t].
    + repeat constructor. cbn. rewrite Hc. reflexivity.
    + inversion IH; subst. constructor; [cbn; rewrite Hc; assumption|assumption].
Qed.

Lemma filter_blank :
  forall l,
    Forall (fun x => allOf isSpace x = true) l ->
    filter (fun s => negb (String.eqb s "")) (map trim l) = [].
Proof.
  induction l as [|x l IH]; intros H; [reflexivity|].
  inversion H; subst. cbn. unfold trim at 1.
  rewrite (trimStart_spaces x) by assumption. cbn. apply IH. assumption.
Qed.

(** X26: the origins allowed for CORS (server.js, lines 11-15).  Every
    entry of the list read from CORS_ORIGINS is not empty and has no white
    space at either end.  The option handed to [cors] is the wildcard
    exactly when one entry is the asterisk alone, and the list otherwise.
    A variable that is not set, or is empty, gives the wildcard; a value
    made of white space and commas only gives the empty list, and not the
    wildcard. *)
Theorem allowed_origins :
  forall env,
    (forall o, In o (origins env) ->
       o <> "" /\ startsWithSpace o = false /\ endsInSpace o = false)
    /\ (corsOrigin env = AnyOrigin <-> In "*" (origins env))
    /\ (~ In "*" (origins env) -> corsOrigin env = Listed (origins env))
    /\ corsOrigin None = AnyOrigin
    /\ corsOrigin (Some "") = AnyOrigin
    /\ (forall e,
          env = Some e -> e <> "" ->
          allOf (fun c => isSpace c || Ascii.eqb c comma) e = true ->
          corsOrigin env = Listed []).
Proof.
  intros env.
  assert (Hex : existsb (String.eqb "*") (origins env) = true <-> In "*" (origins env)).
  { rewrite existsb_exists. split.
    - intros (x & Hin & E). apply String.eqb_eq in E. subst. exact Hin.
    - intros H. exists "*". split; [exact H|reflexivity]. }
  split; [|split; [|split; [|split; [|split]]]].
  - intros o Hin. unfold origins in Hin. apply filter_In in Hin. destruct Hin as [Hin Hne].
    apply in_map_iff in Hin. destruct Hin as (x & <- & _). split.
    + intros E. rewrite E in Hne. discriminate.
    + apply trim_clean.
  - unfold corsOrigin. rewrite <- Hex.
    destruct (existsb (String.eqb "*") (origins env)); split; congruence.
  - intros H. unfold corsOrigin.
    destruct (existsb (String.eqb "*") (origins env)) eqn:E; [|reflexivity].
    exfalso. apply H, Hex. reflexivity.
  - reflexivity.
  - reflexivity.
  - intros e -> Hne Hall. unfold corsOrigin, origins.
    destruct (String.eqb_spec e "") as [E|_]; [contradiction|].
    rewrite (filter_blank _ (splitOn_blank comma e Hall)). reflexivity.
Qed.

Lemma concat_comma_cons :
  forall x y t,
    String.concat "," (x :: y :: t)
    = String.append x (String comma (String.concat "," (y :: t))).
Proof.
  intros x y t. reflexivity.
Qed.

Lemma splitOn_concat :
  forall l,
    l <> [] ->
    Forall (fun o => allOf (fun c => negb (Ascii.eqb c comma)) o = true) l ->
    splitOn comma (String.concat "," l) = l.
Proof.
  induction l as [|x l IH]; intros Hne Hall; [contradiction|].
  inversion Hall as [|a b Hx Hl]; subst.
  destruct l as [|y t].
  - cbn [String.concat]. apply splitOn_none, Hx.
  - rewrite concat_comma_cons, (splitOn_app comma x _ Hx).
    rewrite IH; [reflexivity|discriminate|exact Hl].
Qed.

Lemma concat_not_empty :
  forall x l, x <> "" -> String.concat "," (x :: l) <> "".
Proof.
  intros x l Hx. destruct l as [|y t]; [exact Hx|].
  rewrite concat_comma_cons. destruct x; [contradiction|discriminate].
Qed.

(** X27: a list of origins is read back from CORS_ORIGINS as it was
    written.  For a list, not empty, of origins that are well written (not
    empty, without a comma, without white space at either end), the value
    that joins them with commas gives that list; the option handed to
    [cors] is the wildcard if the asterisk alone is one of them, and the
    list otherwise. *)
Theorem origins_round_trip :
  forall l,
    l <> [] -> Forall wellWritten l ->
    origins (Some (String.concat "," l)) = l
    /\ corsOrigin (Some (String.concat "," l))
       = if existsb (String.eqb "*") l then AnyOrigin else Listed l.
Proof.
  intros l Hne Hall.
  assert (E : origins (Some (String.concat "," l)) = l).
  { unfold origins.
    destruct l as [|x t]; [contradiction|].
    assert (Hx : x <> "") by (inversion Hall as [|a b Ha Hb]; subst; apply Ha).
    destruct (String.eqb_spec (String.concat "," (x :: t)) "") as [E0|_];
      [exfalso; exact (concat_not_empty x t Hx E0)|].
    rewrite splitOn_concat; [|discriminate|].
    - clear Hne Hx. induction Hall as [|o r Ho Hr IH]; [reflexivity|].
      destruct Ho as (Hn & _ & Hs & He). cbn [map filter].
      rewrite (trim_fixed o Hs He).
      destruct (String.eqb_spec o ""); [contradiction|]. cbn. f_equal. exact IH.
    - eapply Forall_impl; [|exact Hall]. intros o Ho. apply Ho. }
  split; [exact E|]. unfold corsOrigin. rewrite E. reflexivity.
Qed.

(** X27 for two origins. *)
Lemma origins_round_trip_witness :
  origins (Some (String.concat "," ["https://a.example"; "https://b.example"]))
  = ["https://a.example"; "https://b.example"]
  /\ corsOrigin (Some (String.concat "," ["https://a.example"; "https://b.example"]))
     = if existsb (String.eqb "*") ["https://a.example"; "https://b.example"]
       then AnyOrigin else Listed ["https://a.example"; "https://b.example"].
Proof.
  apply (origins_round_trip ["https://a.example"; "https://b.example"]).
  - discriminate.
  - repeat constructor; discriminate.
Defined.
